(** * Work-coordination engine: projects, tasks, todo items and file locks

    A shallow embedding of the coordination servers of the repository
    (main.py, http_server.py, mcp_server_fixed.py and server.py) and the
    properties of their work-claim protocol, status updates and file locks.

    Every tool function runs inside one [with get_db() as conn] block, on a
    connection of its own that is committed when the function returns and
    rolled back when it raises.  Calls are taken one at a time: a tool
    function is embedded as a function from the store before the call to
    the returned value and the store after the call.  Interleavings of the
    statements of two calls are outside this model. *)

From stdpp Require Import gmap strings list sorting.
From Stdlib Require Import ZArith QArith Qround Qpower Lia.

Local Open Scope string_scope.
Local Open Scope list_scope.
Local Open Scope Z_scope.

(** ** Integers of SQLite and of Python

    A column declared INTEGER holds a 64-bit integer or, after an overflow
    of SQLite's arithmetic, a REAL.  A value of the column [order_index] is
    modelled by the number it stands for: an INTEGER is at most
    [max_int64], and the REALs that arise are at least 2^63.  Comparisons
    of SQLite between INTEGER and REAL values are exact. *)
Definition max_int64 : Z := 2 ^ 63 - 1.

(** [order_index + 1] in SQLite: the sum of the largest INTEGER and 1 is
    the REAL 2^63, and a REAL of that size is unchanged by adding 1 (the
    doubles there are 2048 apart). *)
Definition sql_add1 (v : Z) : Z :=
  if bool_decide (v < max_int64) then v + 1 else Z.max v (2 ^ 63).

(** [row["order_index"] + 1] in Python, for a value that is then bound to a
    statement.  An INTEGER is read as an int, whose successor is exact; the
    sqlite3 module refuses to bind an int above [max_int64] and raises
    OverflowError ([None]).  A REAL is read as a float, which adding 1
    leaves unchanged. *)
Definition py_add1 (v : Z) : option Z :=
  if bool_decide (v < max_int64) then Some (v + 1)
  else if bool_decide (v = max_int64) then None
  else Some v.

(** ** The store

    Modelled from the spec: the CREATE TABLE statements of db.sqlite are not
    among the sources.  Section 6 of the specification gives the layout: the
    relations projects, tasks, todo_items, file_locks and the association
    relations task_dependencies, todo_dependencies and todo_files, all keyed
    by surrogate integer identifiers except file_locks, which is keyed by
    path.  The columns are the ones the INSERT, UPDATE and SELECT statements
    of the sources name.  A table is the list of its rows in insertion
    order; file_locks, whose key is the path ([INSERT OR REPLACE] replaces
    the row of a path), is a finite map from paths to lock rows.
    Timestamps are readings of the clock, passed to each call as [now]. *)

Module Project.
Record row := mk {
  id : Z;
  name : string;
  description : string;
  status : string;
  created_at : Z;
  updated_at : Z
}.
End Project.

Module Task.
Record row := mk {
  id : Z;
  project_id : Z;
  name : string;
  description : string;
  order_index : Z;
  status : string;
  created_at : Z;
  updated_at : Z
}.
End Task.

Module Todo.
Record row := mk {
  id : Z;
  task_id : Z;
  title : string;
  description : string;
  order_index : Z;
  status : string;
  assigned_agent : option string;
  created_at : Z;
  updated_at : Z
}.

(** [UPDATE todo_items SET status = ?, assigned_agent = ?, updated_at = ?] *)
Definition set_status (st : string) (ag : option string) (now : Z) (t : row) : row :=
  mk (id t) (task_id t) (title t) (description t) (order_index t)
     st ag (created_at t) now.

(** [UPDATE todo_items SET order_index = order_index + 1] *)
Definition shift (t : row) : row :=
  mk (id t) (task_id t) (title t) (description t) (sql_add1 (order_index t))
     (status t) (assigned_agent t) (created_at t) (updated_at t).
End Todo.

Module FileLock.
Record row := mk {
  locked_by : string;
  locked_at : Z
}.
End FileLock.

Record db := mkdb {
  projects : list Project.row;
  tasks : list Task.row;
  todo_items : list Todo.row;
  task_dependencies : list (Z * Z);
  todo_dependencies : list (Z * Z);
  todo_files : list (Z * string);
  file_locks : gmap string FileLock.row
}.

Definition empty_db : db := mkdb [] [] [] [] [] [] ∅.

Definition with_todo_items (d : db) (l : list Todo.row) : db :=
  mkdb (projects d) (tasks d) l (task_dependencies d) (todo_dependencies d)
       (todo_files d) (file_locks d).

Definition with_file_locks (d : db) (m : gmap string FileLock.row) : db :=
  mkdb (projects d) (tasks d) (todo_items d) (task_dependencies d)
       (todo_dependencies d) (todo_files d) m.

(** [cursor.lastrowid] of an INSERT into a table whose rows are never
    deleted: one more than the largest identifier in use. *)
Definition lastrowid (ids : list Z) : Z := 1 + foldr Z.max 0 ids.

(** Python truthiness of a nullable TEXT column: NULL and the empty string
    are falsy. *)
Definition truthy (o : option string) : bool :=
  match o with
  | Some s => negb (bool_decide (s = ""))
  | None => false
  end.

(** Python truthiness of an [Optional[int]] argument. *)
Definition truthy_int (o : option Z) : bool :=
  match o with
  | Some n => negb (bool_decide (n = 0))
  | None => false
  end.

Definition valid_statuses : list string :=
  ["pending"; "in_progress"; "completed"; "cancelled"].

(** The values a tool can return in place of its payload; each stands for
    the [{"error": ...}] dictionary with the corresponding message, except
    [IntegerOverflow], which stands for the OverflowError that the sqlite3
    module raises when it binds an int outside 64 bits: the call raises and
    its transaction is rolled back. *)
Inductive error :=
  | ProjectNotFound (name : string)
  | ProjectExists (name : string)
  | TaskNotFound (task_id : Z)
  | TodoNotFound (todo_id : Z)
  | InvalidStatus
  | AssignedToDifferentAgent (owner : option string)
  | LockedByAnother (paths : list string)
  | IntegerOverflow.

(** [SELECT ... FROM projects WHERE name = ?] followed by [fetchone]. *)
Definition project_by_name (d : db) (name : string) : option Project.row :=
  find (λ p, bool_decide (Project.name p = name)) (projects d).

Definition task_by_id (d : db) (tid : Z) : option Task.row :=
  find (λ t, bool_decide (Task.id t = tid)) (tasks d).

Definition todo_by_id (d : db) (tid : Z) : option Todo.row :=
  find (λ t, bool_decide (Todo.id t = tid)) (todo_items d).

(** [SELECT locked_by FROM file_locks WHERE file_path = ? AND locked_by != ?]
    returns a row. *)
Definition locked_by_other (locks : gmap string FileLock.row)
    (agent_id file_path : string) : bool :=
  match locks !! file_path with
  | Some fl => negb (bool_decide (FileLock.locked_by fl = agent_id))
  | None => false
  end.

(** [SELECT file_path FROM todo_files WHERE todo_id = ?] *)
Definition files_of (d : db) (todo_id : Z) : list string :=
  snd <$> filter (λ tf, tf.1 = todo_id) (todo_files d).

(** ** The query for available work

    The query text of get_next_todo_item is the same in main.py and
    http_server.py.  It joins every todo row [t] with its task row, so the
    rows it ranges over are pairs. *)

Definition todo_join_tasks (d : db) : list (Todo.row * Task.row) :=
  t ← todo_items d;
  task ← filter (λ task, Todo.task_id t = Task.id task) (tasks d);
  [(t, task)].

(** [EXISTS (SELECT 1 FROM todo_dependencies td JOIN todo_items dep
     ON td.depends_on_todo_id = dep.id
     WHERE td.todo_id = t.id AND dep.status != 'completed')] *)
Definition has_incomplete_dependency (d : db) (t : Todo.row) : bool :=
  existsb (λ td,
    bool_decide (td.1 = Todo.id t) &&
    existsb (λ dep, bool_decide (td.2 = Todo.id dep) &&
                    negb (bool_decide (Todo.status dep = "completed")))
            (todo_items d))
    (todo_dependencies d).

(** [EXISTS (SELECT 1 FROM todo_files tf JOIN file_locks fl
     ON tf.file_path = fl.file_path
     WHERE tf.todo_id = t.id AND fl.locked_by != ?)] *)
Definition has_foreign_lock (d : db) (agent_id : string) (t : Todo.row) : bool :=
  existsb (λ tf,
    bool_decide (tf.1 = Todo.id t) &&
    locked_by_other (file_locks d) agent_id tf.2)
    (todo_files d).

(** [ORDER BY task.order_index, t.order_index] *)
Definition order_le (a b : Todo.row * Task.row) : Prop :=
  Task.order_index a.2 < Task.order_index b.2 ∨
  (Task.order_index a.2 = Task.order_index b.2 ∧
   Todo.order_index a.1 ≤ Todo.order_index b.1).

Global Instance order_le_dec a b : Decision (order_le a b).
Proof. unfold order_le. apply _. Defined.

(** The WHERE clause shared by main.py and http_server.py. *)
Definition available (d : db) (project_id : Z) (agent_id : string)
    (r : Todo.row * Task.row) : bool :=
  bool_decide (Task.project_id r.2 = project_id) &&
  bool_decide (Todo.status r.1 = "pending") &&
  bool_decide (Todo.assigned_agent r.1 = None) &&
  negb (has_incomplete_dependency d r.1) &&
  negb (has_foreign_lock d agent_id r.1).

(** The whole query: WHERE, ORDER BY, LIMIT 1, then [fetchone].  SQL leaves
    open which of several rows with the same pair of order indices comes
    first; here the sort decides, and no result below depends on it.
    [DISTINCT] has no bearing on the first row. *)
Definition next_available (d : db) (project_id : Z) (agent_id : string)
    : option Todo.row :=
  fst <$> head (merge_sort order_le
                  (filter (λ r, available d project_id agent_id r = true)
                          (todo_join_tasks d))).

(** What get_next_todo_item returns. *)
Inductive next_result :=
  | NextError (e : error)
  | NoAvailable
  | NextItem (row : Todo.row) (files : list string).

(** What update_todo_status returns on success: the dictionary with the
    keys id, status and assigned_agent. *)
Record status_update := mk_status_update {
  upd_id : Z;
  upd_status : string;
  upd_assigned_agent : option string
}.

(** What unlock_files returns: the list under "unlocked_files", and under
    "error" (present only when it is not empty) the paths the agent does not
    own. *)
Record unlock_result := mk_unlock_result {
  unlocked_files : list string;
  unlock_error : option (list string)
}.

(** The tools an agent can call that write to the store, with their
    arguments. *)
Inductive call :=
  | CreateProject (name description : string)
  | CreateTask (project_name name description : string) (order : Z)
               (dependencies : list Z)
  | CreateTodoItem (task_id : Z) (title description : string) (order : Z)
                   (dependencies : list Z) (files : list string)
  | InsertTodoItem (task_id : Z) (title description : string)
                   (after_todo_id : option Z) (dependencies : list Z)
                   (files : list string)
  | GetNextTodoItem (project_name agent_id : string)
  | UpdateTodoStatus (todo_id : Z) (status agent_id : string)
  | LockFiles (files : list string) (agent_id : string)
  | UnlockFiles (files : list string) (agent_id : string).

(** ** Operations with one body in main.py, http_server.py and
    mcp_server_fixed.py (main.py adds audit records and notifications,
    which do not touch the tables modelled here). *)

Definition create_project (d : db) (name description : string) (now : Z)
    : (error + Project.row) * db :=
  if existsb (λ p, bool_decide (Project.name p = name)) (projects d)
  then (inl (ProjectExists name), d)   (* sqlite3.IntegrityError *)
  else
    let row := Project.mk (lastrowid (Project.id <$> projects d))
                 name description "pending" now now in
    (inr row,
     mkdb (projects d ++ [row]) (tasks d) (todo_items d) (task_dependencies d)
          (todo_dependencies d) (todo_files d) (file_locks d)).

Definition create_task (d : db) (project_name name description : string)
    (order : Z) (dependencies : list Z) (now : Z)
    : (error + Task.row * list Z) * db :=
  match project_by_name d project_name with
  | None => (inl (ProjectNotFound project_name), d)
  | Some project_row =>
      let task_id := lastrowid (Task.id <$> tasks d) in
      let row := Task.mk task_id (Project.id project_row) name description
                   order "pending" now now in
      (inr (row, dependencies),
       mkdb (projects d) (tasks d ++ [row]) (todo_items d)
            (task_dependencies d ++ ((λ dep_id, (task_id, dep_id)) <$> dependencies))
            (todo_dependencies d) (todo_files d) (file_locks d))
  end.

(** The INSERT into todo_items with its dependency and file rows, common to
    create_todo_item and insert_todo_item.  The statement names no
    assigned_agent column, so the new row has NULL there. *)
Definition insert_todo_row (d : db) (task_id : Z) (title description : string)
    (order : Z) (dependencies : list Z) (files : list string) (now : Z)
    : Todo.row * db :=
  let todo_id := lastrowid (Todo.id <$> todo_items d) in
  let row := Todo.mk todo_id task_id title description order "pending" None
               now now in
  (row,
   mkdb (projects d) (tasks d) (todo_items d ++ [row]) (task_dependencies d)
        (todo_dependencies d ++ ((λ dep_id, (todo_id, dep_id)) <$> dependencies))
        (todo_files d ++ ((λ file_path, (todo_id, file_path)) <$> files))
        (file_locks d)).

(** [UPDATE todo_items SET order_index = order_index + 1 WHERE task_id = ?
     AND order_index >= ?] *)
Definition shift_from (d : db) (task_id order_index : Z) : db :=
  with_todo_items d
    ((λ t, if bool_decide (Todo.task_id t = task_id ∧
                           order_index ≤ Todo.order_index t)
           then Todo.shift t else t) <$> todo_items d).

(** [UPDATE todo_items SET order_index = order_index + 1 WHERE task_id = ?] *)
Definition shift_all (d : db) (task_id : Z) : db :=
  with_todo_items d
    ((λ t, if bool_decide (Todo.task_id t = task_id)
           then Todo.shift t else t) <$> todo_items d).

(** The loop of [INSERT OR REPLACE INTO file_locks (file_path, locked_by,
    locked_at) VALUES (?, ?, ?)] over a list of paths, in lock_files and in
    update_todo_status of main.py. *)
Definition lock_all (agent_id : string) (now : Z) (files : list string)
    (locks : gmap string FileLock.row) : gmap string FileLock.row :=
  foldl (λ locks file_path, <[file_path := FileLock.mk agent_id now]> locks)
        locks files.

Definition lock_files (d : db) (files : list string) (agent_id : string)
    (now : Z) : (error + list string * string) * db :=
  let locked_by_others :=
    filter (λ file_path,
              locked_by_other (file_locks d) agent_id file_path = true)
           files in
  match locked_by_others with
  | _ :: _ => (inl (LockedByAnother locked_by_others), d)
  | [] =>
      (inr (files, agent_id),
       with_file_locks d (lock_all agent_id now files (file_locks d)))
  end.

(** One turn of the loop of unlock_files; the state of the loop is the
    table of locks and the two lists the loop appends to. *)
Definition unlock_one (agent_id : string)
    (st : gmap string FileLock.row * list string * list string)
    (file_path : string)
    : gmap string FileLock.row * list string * list string :=
  let '(locks, unlocked, not_owned) := st in
  match locks !! file_path with
  | None => st                                    (* file was not locked *)
  | Some row =>
      if bool_decide (FileLock.locked_by row = agent_id)
      then (delete file_path locks, unlocked ++ [file_path], not_owned)
      else (locks, unlocked, not_owned ++ [file_path])
  end.

Definition unlock_files (d : db) (files : list string) (agent_id : string)
    : unlock_result * db :=
  let '(locks, unlocked, not_owned) :=
    foldl (unlock_one agent_id) (file_locks d, [], []) files in
  (mk_unlock_result unlocked
     (match not_owned with [] => None | _ :: _ => Some not_owned end),
   with_file_locks d locks).

(** [DELETE FROM file_locks WHERE file_path = ? AND locked_by = ?] *)
Definition delete_lock_of (agent_id : string)
    (locks : gmap string FileLock.row) (file_path : string)
    : gmap string FileLock.row :=
  match locks !! file_path with
  | Some row =>
      if bool_decide (FileLock.locked_by row = agent_id)
      then delete file_path locks else locks
  | None => locks
  end.

(** [UPDATE todo_items SET status = ?, assigned_agent = ?, updated_at = ?
     WHERE id = ?] *)
Definition update_status_where_id (d : db) (todo_id : Z) (status : string)
    (assigned_agent : option string) (now : Z) : db :=
  with_todo_items d
    ((λ t, if bool_decide (Todo.id t = todo_id)
           then Todo.set_status status assigned_agent now t else t)
       <$> todo_items d).

(** ** Completion percentages

    Python's [/] on integers is true division and raises ZeroDivisionError
    on a zero divisor; [None] stands for the raised exception.
    [py_truediv] is the exact quotient. *)
Definition py_truediv (a b : Z) : option Q :=
  if bool_decide (b = 0) then None else Some (inject_Z a / inject_Z b)%Q.

(** The integer nearest to [q], the even one of two that are equally
    near. *)
Definition round_half_even (q : Q) : Z :=
  let f := Qfloor q in
  match ((q - inject_Z f) ?= 1 # 2)%Q with
  | Lt => f
  | Gt => f + 1
  | Eq => if Z.even f then f else f + 1
  end.

(** Python's floats are binary64 numbers.  A float is modelled by the
    rational it stands for, and an operation by the exact result rounded
    to the nearest number with a significand of 53 bits, ties to even.
    The exponent is not bounded here: the quotients and products below lie
    between 2^-63 and 100, far from overflow and from the subnormal
    numbers.

    [ilog2 q] is the integer [k] with [2^k <= q < 2^(k+1)], for [0 < q]. *)
Definition ilog2 (q : Q) : Z :=
  let k := Z.log2 (Qnum q) - Z.log2 (Z.pos (Qden q)) in
  if Qle_bool (2 ^ k) q then k else k - 1.

Definition round_binary64 (q : Q) : Q :=
  match Qnum q with
  | Z0 => 0%Q
  | Zpos _ =>
      let e := ilog2 q - 52 in
      Qred (inject_Z (round_half_even (q / 2 ^ e)) * 2 ^ e)
  | Zneg _ =>
      let e := ilog2 (- q) - 52 in
      Qred (- (inject_Z (round_half_even (- q / 2 ^ e)) * 2 ^ e))
  end.

(** [a / b] on two ints: the correctly rounded quotient. *)
Definition float_truediv (a b : Z) : option Q :=
  if bool_decide (b = 0) then None
  else Some (round_binary64 (inject_Z a / inject_Z b)).

(** [x * y] on floats. *)
Definition float_mul (x y : Q) : Q := round_binary64 (x * y).

(** [round(x, 1)]: the exact value of [x] is rounded to the nearest
    multiple of 1/10, ties to the even digit, and the float nearest to
    that decimal is returned. *)
Definition py_round1 (x : Q) : Q :=
  round_binary64 (round_half_even (x * 10) # 10).

(** [COUNT(...) as total_todos], [COUNT(CASE WHEN status = 'completed' ...)]
    and so on, over the rows of a group. *)
Record todo_counts := mk_counts {
  total_todos : Z;
  completed_todos : Z;
  in_progress_todos : Z;
  pending_todos : Z
}.

Definition count_status (st : string) (l : list Todo.row) : Z :=
  Z.of_nat (length (filter (λ ti, Todo.status ti = st) l)).

Definition count_todos (l : list Todo.row) : todo_counts :=
  mk_counts (Z.of_nat (length l)) (count_status "completed" l)
            (count_status "in_progress" l) (count_status "pending" l).

(** [round((completed_todos / max(total_todos, 1)) * 100, 1)] *)
Definition completion_percentage (c : todo_counts) : option Q :=
  q ← float_truediv (completed_todos c) (Z.max (total_todos c) 1);
  Some (py_round1 (float_mul q 100)).

(** The same expression without the guard [max(..., 1)]. *)
Definition unguarded_percentage (c : todo_counts) : option Q :=
  q ← float_truediv (completed_todos c) (total_todos c);
  Some (py_round1 (float_mul q 100)).

Record task_summary := mk_task_summary {
  summary_task : Task.row;
  summary_counts : todo_counts;
  summary_percentage : Q
}.

Record project_status := mk_project_status {
  status_project : Project.row;
  status_tasks : list task_summary;
  overall_stats : todo_counts;
  overall_percentage : Q
}.

(** [FROM todo_items ti JOIN tasks t ON ti.task_id = t.id
     WHERE t.project_id = ?] *)
Definition todos_of_project (d : db) (project_id : Z) : list Todo.row :=
  fst <$> filter (λ r : Todo.row * Task.row, Task.project_id r.2 = project_id)
                 (todo_join_tasks d).

(** [ORDER BY t.id] and [ORDER BY t.order_index] on task rows. *)
Definition task_id_le (a b : Task.row) : Prop := Task.id a ≤ Task.id b.

Global Instance task_id_le_dec a b : Decision (task_id_le a b).
Proof. unfold task_id_le. apply _. Defined.

Definition task_order_le (a b : Task.row) : Prop :=
  Task.order_index a ≤ Task.order_index b.

Global Instance task_order_le_dec a b : Decision (task_order_le a b).
Proof. unfold task_order_le. apply _. Defined.

(** [LEFT JOIN todo_items ti ON t.id = ti.task_id], the group of one task. *)
Definition todos_of_task (d : db) (task_id : Z) : list Todo.row :=
  filter (λ ti, Todo.task_id ti = task_id) (todo_items d).

(** ** main.py *)
Module Main.

(** [SELECT t.*, p.name FROM tasks t JOIN projects p ON t.project_id = p.id
     WHERE t.id = ?] returns a row. *)
Definition task_with_project (d : db) (task_id : Z) : option Task.row :=
  find (λ t, bool_decide (Task.id t = task_id) &&
             existsb (λ p, bool_decide (Task.project_id t = Project.id p))
                     (projects d))
       (tasks d).

Definition create_todo_item (d : db) (task_id : Z) (title description : string)
    (order : Z) (dependencies : list Z) (files : list string) (now : Z)
    : (error + Todo.row) * db :=
  match task_with_project d task_id with
  | None => (inl (TaskNotFound task_id), d)
  | Some _ =>
      let '(row, d') :=
        insert_todo_row d task_id title description order dependencies
                        files now in
      (inr row, d')
  end.

Definition insert_todo_item (d : db) (task_id : Z) (title description : string)
    (after_todo_id : option Z) (dependencies : list Z) (files : list string)
    (now : Z) : (error + Todo.row) * db :=
  match task_by_id d task_id with
  | None => (inl (TaskNotFound task_id), d)
  | Some _ =>
      if truthy_int after_todo_id then
        let after := default 0 after_todo_id in
        match find (λ t, bool_decide (Todo.id t = after) &&
                         bool_decide (Todo.task_id t = task_id))
                   (todo_items d) with
        | None => (inl (TodoNotFound after), d)
        | Some row =>
            match py_add1 (Todo.order_index row) with
            | None => (inl IntegerOverflow, d)
            | Some order_index =>
                (* Shift subsequent items *)
                let '(row', d') :=
                  insert_todo_row (shift_from d task_id order_index) task_id
                                  title description order_index dependencies
                                  files now in
                (inr row', d')
            end
        end
      else
        let '(row', d') :=
          insert_todo_row (shift_all d task_id) task_id title description 0
                          dependencies files now in
        (inr row', d')
  end.

(** main.py only reports the item: its message reads "Todo item available
    for assignment. Call update_todo_status to claim it." and no statement
    of the function writes to the store. *)
Definition get_next_todo_item (d : db) (project_name agent_id : string)
    : next_result * db :=
  match project_by_name d project_name with
  | None => (NextError (ProjectNotFound project_name), d)
  | Some project_row =>
      match next_available d (Project.id project_row) agent_id with
      | None => (NoAvailable, d)
      | Some row => (NextItem row (files_of d (Todo.id row)), d)
      end
  end.

(** The first SELECT of update_todo_status joins the todo item with its
    task and the task's project. *)
Definition todo_with_names (d : db) (todo_id : Z) : option Todo.row :=
  find (λ ti, bool_decide (Todo.id ti = todo_id) &&
              existsb (λ t, bool_decide (Todo.task_id ti = Task.id t) &&
                            existsb (λ p, bool_decide (Task.project_id t = Project.id p))
                                    (projects d))
                      (tasks d))
       (todo_items d).

Definition update_todo_status (d : db) (todo_id : Z) (status agent_id : string)
    (now : Z) : (error + status_update) * db :=
  if negb (bool_decide (status ∈ valid_statuses)) then (inl InvalidStatus, d)
  else
    match todo_with_names d todo_id with
    | None => (inl (TodoNotFound todo_id), d)
    | Some row =>
        (* Check agent permissions *)
        if truthy (Todo.assigned_agent row) &&
           negb (bool_decide (Todo.assigned_agent row = Some agent_id)) &&
           negb (bool_decide (status ∈ ["pending"]))
        then (inl (AssignedToDifferentAgent (Todo.assigned_agent row)), d)
        else
          (* Update status and assignment *)
          let assigned_agent :=
            if bool_decide (status = "in_progress") then Some agent_id
            else if bool_decide (status = "pending") then None
            else if bool_decide (status ∈ ["completed"; "cancelled"]) then None
            else None in
          let d1 := update_status_where_id d todo_id status assigned_agent now in
          (* Handle file locking *)
          let locks :=
            if bool_decide (status = "in_progress") then
              lock_all agent_id now (files_of d1 todo_id) (file_locks d1)
            else if bool_decide (status ∈ ["completed"; "cancelled"]) then
              foldl (delete_lock_of agent_id) (file_locks d1)
                    (files_of d1 todo_id)
            else file_locks d1 in
          (inr (mk_status_update todo_id status assigned_agent),
           with_file_locks d1 locks)
    end.

(** The tasks of the project with their counts ([GROUP BY t.id ORDER BY
    t.id]) and the counts over the whole project, each with its completion
    percentage.  The list "todo_items" of a task, which the function builds
    from the rows of the task by splitting strings, takes no part in the
    percentages and is left out of the summary; for a task without todo
    items the loop that builds it does not run. *)
Definition get_project_status (d : db) (project_name : string)
    : option (error + project_status) :=
  match project_by_name d project_name with
  | None => Some (inl (ProjectNotFound project_name))
  | Some project_row =>
      let project_id := Project.id project_row in
      tasks ← mapM (λ task_row,
                 let counts := count_todos (todos_of_task d (Task.id task_row)) in
                 pct ← completion_percentage counts;
                 Some (mk_task_summary task_row counts pct))
               (merge_sort task_id_le
                  (filter (λ t, Task.project_id t = project_id) (tasks d)));
      let stats := count_todos (todos_of_project d project_id) in
      pct ← completion_percentage stats;
      Some (inr (mk_project_status project_row tasks stats pct))
  end.

(** The store after a call. *)
Definition exec (c : call) (now : Z) (d : db) : db :=
  match c with
  | CreateProject name description =>
      (create_project d name description now).2
  | CreateTask project_name name description order dependencies =>
      (create_task d project_name name description order dependencies now).2
  | CreateTodoItem task_id title description order dependencies files =>
      (create_todo_item d task_id title description order dependencies
                        files now).2
  | InsertTodoItem task_id title description after_todo_id dependencies files =>
      (insert_todo_item d task_id title description after_todo_id
                        dependencies files now).2
  | GetNextTodoItem project_name agent_id =>
      (get_next_todo_item d project_name agent_id).2
  | UpdateTodoStatus todo_id status agent_id =>
      (update_todo_status d todo_id status agent_id now).2
  | LockFiles files agent_id => (lock_files d files agent_id now).2
  | UnlockFiles files agent_id => (unlock_files d files agent_id).2
  end.

(** The stores the tools can produce from the empty store. *)
Inductive reachable : db → Prop :=
  | reachable_empty : reachable empty_db
  | reachable_exec d c now : reachable d → reachable (exec c now d).

End Main.

(** ** http_server.py *)
Module Http.

Definition create_todo_item (d : db) (task_id : Z) (title description : string)
    (order : Z) (dependencies : list Z) (files : list string) (now : Z)
    : (error + Todo.row) * db :=
  match task_by_id d task_id with
  | None => (inl (TaskNotFound task_id), d)
  | Some _ =>
      let '(row, d') :=
        insert_todo_row d task_id title description order dependencies
                        files now in
      (inr row, d')
  end.

Definition insert_todo_item (d : db) (task_id : Z) (title description : string)
    (after_todo_id : option Z) (dependencies : list Z) (files : list string)
    (now : Z) : (error + Todo.row) * db :=
  match task_by_id d task_id with
  | None => (inl (TaskNotFound task_id), d)
  | Some _ =>
      if truthy_int after_todo_id then
        let after := default 0 after_todo_id in
        match todo_by_id d after with
        | None => (inl (TodoNotFound after), d)
        | Some row =>
            match py_add1 (Todo.order_index row) with
            | None => (inl IntegerOverflow, d)
            | Some order_index =>
                (* Shift subsequent items *)
                let '(row', d') :=
                  insert_todo_row (shift_from d task_id order_index) task_id
                                  title description order_index dependencies
                                  files now in
                (inr row', d')
            end
        end
      else
        let '(row', d') :=
          insert_todo_row (shift_all d task_id) task_id title description 0
                          dependencies files now in
        (inr row', d')
  end.

(** http_server.py assigns the item it found before it returns it.  The
    returned dictionary carries the columns of the selected row with
    "status" and "assigned_agent" set to the new values. *)
Definition get_next_todo_item (d : db) (project_name agent_id : string)
    (now : Z) : next_result * db :=
  match project_by_name d project_name with
  | None => (NextError (ProjectNotFound project_name), d)
  | Some project_row =>
      match next_available d (Project.id project_row) agent_id with
      | None => (NoAvailable, d)
      | Some row =>
          (* Assign to agent *)
          let d' := update_status_where_id d (Todo.id row) "in_progress"
                      (Some agent_id) now in
          (NextItem (Todo.set_status "in_progress" (Some agent_id)
                       (Todo.updated_at row) row)
                    (files_of d' (Todo.id row)),
           d')
      end
  end.

Definition update_todo_status (d : db) (todo_id : Z) (status agent_id : string)
    (now : Z) : (error + status_update) * db :=
  if negb (bool_decide (status ∈ valid_statuses)) then (inl InvalidStatus, d)
  else
    match todo_by_id d todo_id with
    | None => (inl (TodoNotFound todo_id), d)
    | Some row =>
        if truthy (Todo.assigned_agent row) &&
           negb (bool_decide (Todo.assigned_agent row = Some agent_id))
        then (inl (AssignedToDifferentAgent (Todo.assigned_agent row)), d)
        else
          (* update_fields.get("assigned_agent") *)
          let assigned_agent :=
            if bool_decide (status = "in_progress") then Some agent_id
            else if bool_decide (status ∈ ["completed"; "cancelled"]) then None
            else None in
          (inr (mk_status_update todo_id status assigned_agent),
           update_status_where_id d todo_id status assigned_agent now)
    end.

(** The columns of the two tables of the statistics queries, as the INSERT
    and UPDATE statements of the servers name them, with the key [id]. *)
Definition todo_items_columns : list string :=
  ["id"; "task_id"; "title"; "description"; "order_index"; "status";
   "assigned_agent"; "created_at"; "updated_at"].

Definition tasks_columns : list string :=
  ["id"; "project_id"; "name"; "description"; "order_index"; "status";
   "created_at"; "updated_at"].

(** A column written without its table in a query
    [FROM todo_items ti JOIN tasks t] is the column of the one table that
    has it; when both tables have it, or none, SQLite refuses the statement
    and the sqlite3 module raises OperationalError ("ambiguous column
    name", "no such column"). *)
Inductive column_source := OfTodoItems | OfTasks.

Definition resolve_unqualified (column : string) : option column_source :=
  match bool_decide (column ∈ todo_items_columns),
        bool_decide (column ∈ tasks_columns) with
  | true, false => Some OfTodoItems
  | false, true => Some OfTasks
  | _, _ => None
  end.

(** The counts of a group of rows by the status each row is read with. *)
Definition count_by_status {A} (status_of : A → string) (l : list A)
    : todo_counts :=
  mk_counts (Z.of_nat (length l))
            (Z.of_nat (length (filter (λ r, status_of r = "completed") l)))
            (Z.of_nat (length (filter (λ r, status_of r = "in_progress") l)))
            (Z.of_nat (length (filter (λ r, status_of r = "pending") l))).

(** http_server.py reports the counts of each task ([ORDER BY
    t.order_index]) without a percentage, and the counts and the percentage
    of the whole project.  The query of the overall counts reads
    [COUNT(CASE WHEN status = 'completed' THEN 1 END)] over
    [todo_items ti JOIN tasks t], with [status] unqualified where main.py
    writes [ti.status]; [None] stands for the raised exception. *)
Definition get_project_status (d : db) (project_name : string)
    : option (error + (Project.row * list (Task.row * todo_counts) * todo_counts * Q)) :=
  match project_by_name d project_name with
  | None => Some (inl (ProjectNotFound project_name))
  | Some project_row =>
      let project_id := Project.id project_row in
      let tasks :=
        (λ task_row, (task_row, count_todos (todos_of_task d (Task.id task_row))))
          <$> merge_sort task_order_le
                (filter (λ t, Task.project_id t = project_id) (tasks d)) in
      (* Overall project stats *)
      source ← resolve_unqualified "status";
      let rows :=
        filter (λ r : Todo.row * Task.row, Task.project_id r.2 = project_id)
               (todo_join_tasks d) in
      let stats :=
        match source with
        | OfTodoItems => count_by_status (λ r, Todo.status r.1) rows
        | OfTasks => count_by_status (λ r, Task.status r.2) rows
        end in
      pct ← completion_percentage stats;
      Some (inr (project_row, tasks, stats, pct))
  end.

Definition exec (c : call) (now : Z) (d : db) : db :=
  match c with
  | CreateProject name description =>
      (create_project d name description now).2
  | CreateTask project_name name description order dependencies =>
      (create_task d project_name name description order dependencies now).2
  | CreateTodoItem task_id title description order dependencies files =>
      (create_todo_item d task_id title description order dependencies
                        files now).2
  | InsertTodoItem task_id title description after_todo_id dependencies files =>
      (insert_todo_item d task_id title description after_todo_id
                        dependencies files now).2
  | GetNextTodoItem project_name agent_id =>
      (get_next_todo_item d project_name agent_id now).2
  | UpdateTodoStatus todo_id status agent_id =>
      (update_todo_status d todo_id status agent_id now).2
  | LockFiles files agent_id => (lock_files d files agent_id now).2
  | UnlockFiles files agent_id => (unlock_files d files agent_id).2
  end.

Inductive reachable : db → Prop :=
  | reachable_empty : reachable empty_db
  | reachable_exec d c now : reachable d → reachable (exec c now d).

End Http.

(** ** mcp_server_fixed.py

    Its query for available work has no clause on file locks. *)
Module Fixed.

Definition available (d : db) (project_id : Z) (r : Todo.row * Task.row) : bool :=
  bool_decide (Task.project_id r.2 = project_id) &&
  bool_decide (Todo.status r.1 = "pending") &&
  bool_decide (Todo.assigned_agent r.1 = None) &&
  negb (has_incomplete_dependency d r.1).

Definition next_available (d : db) (project_id : Z) : option Todo.row :=
  fst <$> head (merge_sort order_le
                  (filter (λ r, available d project_id r = true)
                          (todo_join_tasks d))).

Definition get_next_todo_item (d : db) (project_name agent_id : string)
    (now : Z) : next_result * db :=
  match project_by_name d project_name with
  | None => (NextError (ProjectNotFound project_name), d)
  | Some project_row =>
      match next_available d (Project.id project_row) with
      | None => (NoAvailable, d)
      | Some row =>
          let d' := update_status_where_id d (Todo.id row) "in_progress"
                      (Some agent_id) now in
          (NextItem (Todo.set_status "in_progress" (Some agent_id)
                       (Todo.updated_at row) row)
                    (files_of d' (Todo.id row)),
           d')
      end
  end.

Definition update_todo_status (d : db) (todo_id : Z) (status agent_id : string)
    (now : Z) : (error + status_update) * db :=
  if negb (bool_decide (status ∈ valid_statuses)) then (inl InvalidStatus, d)
  else
    match todo_by_id d todo_id with
    | None => (inl (TodoNotFound todo_id), d)
    | Some row =>
        if truthy (Todo.assigned_agent row) &&
           negb (bool_decide (Todo.assigned_agent row = Some agent_id))
        then (inl (AssignedToDifferentAgent (Todo.assigned_agent row)), d)
        else
          let assigned_agent :=
            if bool_decide (status = "in_progress") then Some agent_id
            else None in
          let assigned_agent :=
            if bool_decide (status ∈ ["completed"; "cancelled"]) then None
            else assigned_agent in
          (inr (mk_status_update todo_id status assigned_agent),
           update_status_where_id d todo_id status assigned_agent now)
    end.

End Fixed.


(** ** server.py

    server.py works on a store of its own layout: the dependencies of a task
    or todo item are a JSON list in a column of the row, and a lock is the
    pair of columns [locked], [locked_by] of the row of the file in the
    table [files].

    Modelled from the spec: the CREATE TABLE statements are not among the
    sources; the columns are the ones server.py reads and writes.  A row
    inserted by [INSERT INTO files (path)] is unlocked. *)
Module Server.

Record project_row := mk_project {
  p_id : Z;
  p_name : string;
  p_description : string;
  p_status : string
}.

Record task_row := mk_task {
  t_id : Z;
  t_name : string;
  t_description : string;
  t_project_id : Z;
  t_status : string;
  t_order : Z;
  t_dependencies : list Z
}.

Record todo_row := mk_todo {
  ti_id : Z;
  ti_title : string;
  ti_description : string;
  ti_task_id : Z;
  ti_status : string;
  ti_order : Z;
  ti_dependencies : list Z
}.

Record file_row := mk_file {
  f_id : Z;
  f_path : string;
  f_locked : bool;
  f_locked_by : option string
}.

Record db := mkdb {
  projects : list project_row;
  tasks : list task_row;
  todo_items : list todo_row;
  files : list file_row;
  todo_item_files : list (Z * Z)
}.

Definition empty_db : db := mkdb [] [] [] [] [].

Definition with_files (d : db) (fs : list file_row) : db :=
  mkdb (projects d) (tasks d) (todo_items d) fs (todo_item_files d).

Definition project_by_name (d : db) (name : string) : option project_row :=
  find (λ p, bool_decide (p_name p = name)) (projects d).

(** [SELECT ... FROM files WHERE path = ?] followed by [fetchone]. *)
Definition file_by_path (fs : list file_row) (path : string) : option file_row :=
  find (λ f, bool_decide (f_path f = path)) fs.

(** [UPDATE files SET locked = ?, locked_by = ? WHERE id = ?] *)
Definition set_lock_where_id (fs : list file_row) (id : Z) (locked : bool)
    (locked_by : option string) : list file_row :=
  (λ f, if bool_decide (f_id f = id)
        then mk_file (f_id f) (f_path f) locked locked_by else f) <$> fs.

Definition _create_project (d : db) (name description : string)
    : (error + project_row) * db :=
  match project_by_name d name with
  | Some _ => (inl (ProjectExists name), d)
  | None =>
      let row := mk_project (lastrowid (p_id <$> projects d)) name description
                   "in_progress" in
      (inr row,
       mkdb (projects d ++ [row]) (tasks d) (todo_items d) (files d)
            (todo_item_files d))
  end.

Definition _create_task (d : db) (project_name name description : string)
    (order : Z) (dependencies : list Z) : (error + task_row) * db :=
  match project_by_name d project_name with
  | None => (inl (ProjectNotFound project_name), d)
  | Some project =>
      let row := mk_task (lastrowid (t_id <$> tasks d)) name description
                   (p_id project) "pending" order dependencies in
      (inr row,
       mkdb (projects d) (tasks d ++ [row]) (todo_items d) (files d)
            (todo_item_files d))
  end.

(** One turn of the loop over [files] of _create_todo_item: get or create
    the file record, then link it to the todo item. *)
Definition add_file (todo_id : Z) (st : list file_row * list (Z * Z))
    (file_path : string) : list file_row * list (Z * Z) :=
  let '(fs, links) := st in
  match file_by_path fs file_path with
  | None =>
      let file_id := lastrowid (f_id <$> fs) in
      (fs ++ [mk_file file_id file_path false None],
       links ++ [(todo_id, file_id)])
  | Some file_record => (fs, links ++ [(todo_id, f_id file_record)])
  end.

Definition _create_todo_item (d : db) (task_id : Z) (title description : string)
    (order : Z) (dependencies : list Z) (paths : list string)
    : (error + todo_row) * db :=
  match find (λ t, bool_decide (t_id t = task_id)) (tasks d) with
  | None => (inl (TaskNotFound task_id), d)
  | Some _ =>
      let todo_id := lastrowid (ti_id <$> todo_items d) in
      let row := mk_todo todo_id title description task_id "pending" order
                   dependencies in
      let '(fs, links) :=
        foldl (add_file todo_id) (files d, todo_item_files d) paths in
      (inr row, mkdb (projects d) (tasks d) (todo_items d ++ [row]) fs links)
  end.

(** [SELECT ti.*, t.name, t.dependencies FROM todo_items ti
     JOIN tasks t ON ti.task_id = t.id WHERE t.project_id = ?] *)
Definition project_items (d : db) (project_id : Z) : list (todo_row * task_row) :=
  ti ← todo_items d;
  t ← filter (λ t, ti_task_id ti = t_id t ∧ t_project_id t = project_id) (tasks d);
  [(ti, t)].

(** [ORDER BY t."order", ti."order"] *)
Definition order_le (a b : todo_row * task_row) : Prop :=
  t_order a.2 < t_order b.2 ∨
  (t_order a.2 = t_order b.2 ∧ ti_order a.1 ≤ ti_order b.1).

Global Instance order_le_dec a b : Decision (order_le a b).
Proof. unfold order_le. apply _. Defined.

(** [SELECT COUNT( * ) FROM tasks WHERE id IN (...) AND status != 'completed'] *)
Definition incomplete_tasks (d : db) (task_deps : list Z) : nat :=
  length (filter (λ t, t_id t ∈ task_deps ∧ t_status t ≠ "completed") (tasks d)).

(** [SELECT f.path, f.locked, f.locked_by FROM files f
     JOIN todo_item_files tif ON f.id = tif.file_id
     WHERE tif.todo_item_id = ?] *)
Definition files_of (d : db) (todo_id : Z) : list file_row :=
  f ← files d;
  tif ← filter (λ tif, tif.2 = f_id f ∧ tif.1 = todo_id) (todo_item_files d);
  [f].

(** The body of the loop "Find next available todo item": [true] when the
    loop returns the item, [false] when it continues. *)
Definition item_available (d : db) (completed_ids : list Z)
    (item : todo_row * task_row) : bool :=
  if negb (bool_decide (ti_status item.1 = "pending")) then false
  else
    (* Check task dependencies *)
    let task_deps := t_dependencies item.2 in
    if match task_deps with
       | [] => false
       | _ :: _ => bool_decide (0 < incomplete_tasks d task_deps)%nat
       end
    then false
    else
      (* Check todo dependencies *)
      let todo_deps := ti_dependencies item.1 in
      if negb (forallb (λ dep_id, bool_decide (dep_id ∈ completed_ids)) todo_deps)
      then false
      else
        (* Check file locks *)
        let locked_files := filter (λ f, f_locked f = true) (files_of d (ti_id item.1)) in
        match locked_files with
        | _ :: _ => false            (* Skip if any files are locked *)
        | [] => true
        end.

(** What _get_next_todo_item returns for an available item: its id, title,
    description, the paths of its files and its dependencies. *)
Inductive next_result :=
  | NextError (e : error)
  | NoAvailable
  | NextItem (item : todo_row) (task_name : string) (paths : list string).

Definition _get_next_todo_item (d : db) (project_name agent_id : string)
    : next_result * db :=
  match project_by_name d project_name with
  | None => (NextError (ProjectNotFound project_name), d)
  | Some project =>
      let todo_items := merge_sort order_le (project_items d (p_id project)) in
      let completed_ids :=
        (λ r, ti_id r.1) <$>
          filter (λ r : todo_row * task_row, ti_status r.1 = "completed")
                 (project_items d (p_id project)) in
      match find (item_available d completed_ids) todo_items with
      | Some item =>
          (NextItem item.1 (t_name item.2)
                    (f_path <$> files_of d (ti_id item.1)), d)
      | None => (NoAvailable, d)
      end
  end.

(** What _lock_files returns: the paths under "locked" and, under "failed",
    the paths it found locked with the agent holding each. *)
Record lock_result := mk_lock_result {
  locked : list string;
  failed : list (string * option string)
}.

(** One turn of the loop of _lock_files. *)
Definition lock_one (agent_id : string)
    (st : list file_row * list string * list (string * option string))
    (file_path : string)
    : list file_row * list string * list (string * option string) :=
  let '(fs, locked_files, failed_files) := st in
  match file_by_path fs file_path with
  | None =>
      (fs ++ [mk_file (lastrowid (f_id <$> fs)) file_path true (Some agent_id)],
       locked_files ++ [file_path], failed_files)
  | Some file_record =>
      if negb (f_locked file_record)
      then (set_lock_where_id fs (f_id file_record) true (Some agent_id),
            locked_files ++ [file_path], failed_files)
      else (fs, locked_files,
            failed_files ++ [(file_path, f_locked_by file_record)])
  end.

Definition _lock_files (d : db) (paths : list string) (agent_id : string)
    : lock_result * db :=
  let '(fs, locked_files, failed_files) :=
    foldl (lock_one agent_id) (files d, [], []) paths in
  (mk_lock_result locked_files failed_files, with_files d fs).

(** What _unlock_files returns. *)
Record unlock_result := mk_unlock_result {
  unlocked : list string;
  unlock_failed : list (string * option string)
}.

(** One turn of the loop of _unlock_files.  The SELECT keeps only a row
    with [locked = 1]. *)
Definition unlock_one (agent_id : string)
    (st : list file_row * list string * list (string * option string))
    (file_path : string)
    : list file_row * list string * list (string * option string) :=
  let '(fs, unlocked_files, failed_files) := st in
  match find (λ f, bool_decide (f_path f = file_path) && f_locked f) fs with
  | Some file_record =>
      if bool_decide (f_locked_by file_record = Some agent_id)
      then (set_lock_where_id fs (f_id file_record) false None,
            unlocked_files ++ [file_path], failed_files)
      else (fs, unlocked_files,
            failed_files ++ [(file_path, f_locked_by file_record)])
  | None => st
  end.

Definition _unlock_files (d : db) (paths : list string) (agent_id : string)
    : unlock_result * db :=
  let '(fs, unlocked_files, failed_files) :=
    foldl (unlock_one agent_id) (files d, [], []) paths in
  (mk_unlock_result unlocked_files failed_files, with_files d fs).

(** The first row of a path is locked by the agent. *)
Definition held_by (fs : list file_row) (p agent_id : string) : Prop :=
  ∃ f, file_by_path fs p = Some f ∧ f_locked f = true ∧
       f_locked_by f = Some agent_id.

(** The path has no row, or its first row is not locked. *)
Definition free (fs : list file_row) (p : string) : Prop :=
  ∀ f, file_by_path fs p = Some f → f_locked f = false.

(** A row after the agent has released the paths it holds among [paths]:
    [UPDATE files SET locked = 0, locked_by = NULL]. *)
Definition release (agent_id : string) (paths : list string) (f : file_row)
    : file_row :=
  if bool_decide (f_path f ∈ paths ∧ f_locked f = true ∧
                  f_locked_by f = Some agent_id)
  then mk_file (f_id f) (f_path f) false None else f.

(** The identifiers and the paths of the table [files] are keys: the rows
    are made by get-or-create on the path, with a fresh identifier. *)
Definition files_wf (fs : list file_row) : Prop :=
  NoDup (f_id <$> fs) ∧ NoDup (f_path <$> fs).

End Server.

(** ** Example stores

    The stores below are built by running the tools themselves on the empty
    store, so each of them is a store the servers can be in. *)

(** The scenario of the specification: project "P", task "T" with the todo
    items "A" (file f1.txt) and "B" (file f1.txt, depends on "A"). *)
Definition scenario_calls : list call :=
  [ CreateProject "P" "demo";
    CreateTask "P" "T" "" 0 [];
    CreateTodoItem 1 "A" "" 0 [] ["f1.txt"];
    CreateTodoItem 1 "B" "" 1 [1] ["f1.txt"] ].

Definition main_scenario_db : db :=
  foldl (λ d c, Main.exec c 0 d) empty_db scenario_calls.

Definition http_scenario_db : db :=
  foldl (λ d c, Http.exec c 0 d) empty_db scenario_calls.

(** Item "A" after agent1 has started it ... *)
Definition main_started_db : db :=
  (Main.update_todo_status main_scenario_db 1 "in_progress" "agent1" 1).2.

Definition http_started_db : db :=
  (Http.update_todo_status http_scenario_db 1 "in_progress" "agent1" 1).2.

(** ... and after agent1 has completed it. *)
Definition main_completed_db : db :=
  (Main.update_todo_status main_started_db 1 "completed" "agent1" 2).2.

(** Task "T2" depends on task "T1", which is pending and has no todo item;
    "T2" has the todo item "X". *)
Definition task_dependency_calls : list call :=
  [ CreateProject "P" "demo";
    CreateTask "P" "T1" "" 0 [];
    CreateTask "P" "T2" "" 1 [1];
    CreateTodoItem 2 "X" "" 0 [] [] ].

Definition task_dependency_db : db :=
  foldl (λ d c, Main.exec c 0 d) empty_db task_dependency_calls.

(** The same plan in the store of server.py. *)
Definition server_task_dependency_db : Server.db :=
  let d1 := (Server._create_project Server.empty_db "P" "demo").2 in
  let d2 := (Server._create_task d1 "P" "T1" "" 0 []).2 in
  let d3 := (Server._create_task d2 "P" "T2" "" 1 [1]).2 in
  (Server._create_todo_item d3 2 "X" "" 0 [] []).2.

(** server.py: file "b" is held by agent2. *)
Definition server_held_db : Server.db :=
  (Server._lock_files Server.empty_db ["b"] "agent2").2.

(** server.py: project "P", task "T", todo item "A" on file f1.txt, and
    agent1 holds the lock of f1.txt. *)
Definition server_self_lock_db : Server.db :=
  let d1 := (Server._create_project Server.empty_db "P" "demo").2 in
  let d2 := (Server._create_task d1 "P" "T" "" 0 []).2 in
  let d3 := (Server._create_todo_item d2 1 "A" "" 0 [] ["f1.txt"]).2 in
  (Server._lock_files d3 ["f1.txt"] "agent1").2.


(** ** Properties of the stores *)

(** Status and assignment go together in every todo row. *)
Definition coupled (d : db) : Prop :=
  ∀ t, t ∈ todo_items d →
    (Todo.status t = "in_progress" ↔ Todo.assigned_agent t ≠ None).

(** The agent holding the lock of a path, if any. *)
Definition holder (d : db) (file_path : string) : option string :=
  FileLock.locked_by <$> file_locks d !! file_path.

(** ** Further tools of the servers *)

(** What check_file_locks returns: the requested paths, the dictionary
    "locked_files" from each locked path to its lock row, and
    "all_available". *)
Record check_result := mk_check_result {
  checked_files : list string;
  locked_files : gmap string FileLock.row;
  all_available : bool
}.

(** check_file_locks has one body in main.py, http_server.py and
    mcp_server_fixed.py; it writes nothing. *)
Definition check_file_locks (d : db) (files : list string) : check_result :=
  let locked :=
    foldl (λ (locked_files : gmap string FileLock.row) file_path,
             match file_locks d !! file_path with
             | Some row => <[file_path := row]> locked_files
             | None => locked_files
             end) ∅ files in
  mk_check_result files locked (bool_decide (size locked = 0%nat)).

(** get_project: the row of the project, or the error "not found". *)
Definition get_project (d : db) (name : string) : error + Project.row :=
  match project_by_name d name with
  | None => inl (ProjectNotFound name)
  | Some row => inr row
  end.

(** Every task has its project and every todo item its task, which the
    lookups of the creation tools establish; the file and dependency rows
    of a todo item are written with the item, so they name an item of the
    table.  The todo item a dependency row points to is not looked up by
    any tool and may be missing. *)
Definition linked (d : db) : Prop :=
  (∀ t, t ∈ tasks d → ∃ p, p ∈ projects d ∧ Task.project_id t = Project.id p) ∧
  (∀ ti, ti ∈ todo_items d → ∃ t, t ∈ tasks d ∧ Todo.task_id ti = Task.id t) ∧
  (∀ tf, tf ∈ todo_files d → tf.1 ∈ Todo.id <$> todo_items d) ∧
  (∀ td, td ∈ todo_dependencies d → td.1 ∈ Todo.id <$> todo_items d).

(** The identifiers of the three tables and the names of the projects are
    keys. *)
Definition keyed (d : db) : Prop :=
  NoDup (Project.id <$> projects d) ∧ NoDup (Project.name <$> projects d) ∧
  NoDup (Task.id <$> tasks d) ∧ NoDup (Todo.id <$> todo_items d).

Module ServerTools.

Import Server.

(** [SELECT file_id FROM todo_item_files WHERE todo_item_id = ?] *)
Definition file_ids_of (d : db) (todo_id : Z) : list Z :=
  snd <$> filter (λ tif, tif.1 = todo_id) (todo_item_files d).

(** [UPDATE files SET locked = ?, locked_by = ? WHERE id IN (...)] *)
Definition set_lock_where_id_in (fs : list file_row) (ids : list Z)
    (locked_ : bool) (locked_by_ : option string) : list file_row :=
  (λ f, if bool_decide (f_id f ∈ ids)
        then mk_file (f_id f) (f_path f) locked_ locked_by_ else f) <$> fs.

(** _update_todo_status checks neither the status literal nor the agent. *)
Definition _update_todo_status (d : db) (todo_id : Z) (status agent_id : string)
    : (error + Z * string) * db :=
  match find (λ ti, bool_decide (ti_id ti = todo_id)) (todo_items d) with
  | None => (inl (TodoNotFound todo_id), d)
  | Some _ =>
      let items :=
        (λ ti, if bool_decide (ti_id ti = todo_id)
               then mk_todo (ti_id ti) (ti_title ti) (ti_description ti)
                      (ti_task_id ti) status (ti_order ti) (ti_dependencies ti)
               else ti) <$> todo_items d in
      (* Handle file locking based on status *)
      let fs :=
        if bool_decide (status = "in_progress") then
          set_lock_where_id_in (files d) (file_ids_of d todo_id) true
                               (Some agent_id)
        else if bool_decide (status ∈ ["completed"; "cancelled"]) then
          set_lock_where_id_in (files d) (file_ids_of d todo_id) false None
        else files d in
      (inr (todo_id, status),
       mkdb (projects d) (tasks d) items fs (todo_item_files d))
  end.

(** _check_file_locks: for every requested path the pair of "locked" and
    "locked_by"; a path without a row is reported as not locked. *)
Definition _check_file_locks (d : db) (paths : list string)
    : gmap string (bool * option string) :=
  foldl (λ (file_status : gmap string (bool * option string)) file_path,
           match file_by_path (files d) file_path with
           | Some result =>
               <[file_path := (f_locked result, f_locked_by result)]> file_status
           | None => <[file_path := (false, None)]> file_status
           end) ∅ paths.

(** The tools of server.py that write to the store.  _insert_todo_item is
    left out: it calls _create_todo_item, which opens a connection of its
    own, while its own connection holds the uncommitted shift of the order
    values. *)
Inductive call :=
  | CreateProject (name description : string)
  | CreateTask (project_name name description : string) (order : Z)
               (dependencies : list Z)
  | CreateTodoItem (task_id : Z) (title description : string) (order : Z)
                   (dependencies : list Z) (paths : list string)
  | GetNextTodoItem (project_name agent_id : string)
  | UpdateTodoStatus (todo_id : Z) (status agent_id : string)
  | LockFiles (paths : list string) (agent_id : string)
  | UnlockFiles (paths : list string) (agent_id : string).

(** The store after a call. *)
Definition exec (c : call) (d : db) : db :=
  match c with
  | CreateProject name description => (_create_project d name description).2
  | CreateTask project_name name description order dependencies =>
      (_create_task d project_name name description order dependencies).2
  | CreateTodoItem task_id title description order dependencies paths =>
      (_create_todo_item d task_id title description order dependencies paths).2
  | GetNextTodoItem project_name agent_id =>
      (_get_next_todo_item d project_name agent_id).2
  | UpdateTodoStatus todo_id status agent_id =>
      (_update_todo_status d todo_id status agent_id).2
  | LockFiles paths agent_id => (_lock_files d paths agent_id).2
  | UnlockFiles paths agent_id => (_unlock_files d paths agent_id).2
  end.

Inductive reachable : db → Prop :=
  | reachable_empty : reachable empty_db
  | reachable_exec d c : reachable d → reachable (exec c d).

End ServerTools.

(** ** models.py

    The classes File, TodoItem and Task.  An object is the record of its
    attributes; a method that mutates its object returns the object after
    the call, and a method that raises ValueError returns the error in its
    place (the attributes are untouched then, every raise coming before the
    first assignment).  Equality of model objects is equality of their ids
    ([BaseModel.__eq__]), so the back references [_task] hold the id of the
    object they point to.  [now] is the reading of the clock in [touch]. *)
Module Models.

Inductive Status := PENDING | IN_PROGRESS | COMPLETED | CANCELLED.

Global Instance Status_eq_dec : EqDecision Status.
Proof. solve_decision. Defined.

Inductive ValueError :=
  | AlreadyLocked (by_ : option string)
  | NotLocked
  | LockedBy (holder unlocker : option string).

Record File := mk_File {
  file_id : Z;
  file_path : string;
  file_created_at : Z;
  file_updated_at : Z;
  _locked : bool;
  _locked_by : option string
}.

(** [File.lock] *)
Definition lock (f : File) (locked_by : string) (now : Z) : ValueError + File :=
  if _locked f then inl (AlreadyLocked (_locked_by f))
  else inr (mk_File (file_id f) (file_path f) (file_created_at f) now
                    true (Some locked_by)).

(** [File.unlock]; the owner is compared only when [unlocked_by] is truthy. *)
Definition unlock (f : File) (unlocked_by : option string) (now : Z)
    : ValueError + File :=
  if negb (_locked f) then inl NotLocked
  else if truthy unlocked_by &&
          negb (bool_decide (_locked_by f = unlocked_by))
       then inl (LockedBy (_locked_by f) unlocked_by)
       else inr (mk_File (file_id f) (file_path f) (file_created_at f) now
                         false None).

Definition is_locked (f : File) : bool := _locked f.

Definition locked_by (f : File) : option string := _locked_by f.

Record TodoItem := mk_TodoItem {
  todo_id : Z;
  todo_title : string;
  todo_description : string;
  todo_status : Status;
  todo_order : Z;
  todo_dependencies : list Z;
  _files : list File;
  _task : option Z;
  todo_created_at : Z;
  todo_updated_at : Z
}.

Definition with_files (t : TodoItem) (fs : list File) (now : Z) : TodoItem :=
  mk_TodoItem (todo_id t) (todo_title t) (todo_description t) (todo_status t)
              (todo_order t) (todo_dependencies t) fs (_task t)
              (todo_created_at t) now.

(** [file in self._files] *)
Definition contains_file (t : TodoItem) (file : File) : bool :=
  existsb (λ f, bool_decide (file_id f = file_id file)) (_files t).

(** [list.remove]: the first element equal to the argument goes. *)
Fixpoint remove_first {A} (same : A → bool) (l : list A) : list A :=
  match l with
  | [] => []
  | x :: l' => if same x then l' else x :: remove_first same l'
  end.

Definition add_file (t : TodoItem) (file : File) (now : Z) : TodoItem :=
  if negb (contains_file t file) then with_files t (_files t ++ [file]) now
  else t.

Definition remove_file (t : TodoItem) (file : File) (now : Z) : TodoItem :=
  if contains_file t file
  then with_files t
         (remove_first (λ f, bool_decide (file_id f = file_id file)) (_files t))
         now
  else t.

Definition todo_is_completed (t : TodoItem) : bool :=
  bool_decide (todo_status t = COMPLETED).

(** [all(dep_id in completed_todo_ids for dep_id in self.dependencies)] *)
Definition can_start (t : TodoItem) (completed_todo_ids : list Z) : bool :=
  forallb (λ dep_id, bool_decide (dep_id ∈ completed_todo_ids))
          (todo_dependencies t).

Definition is_available (t : TodoItem) (completed_todo_ids in_progress_ids : list Z)
    : bool :=
  bool_decide (todo_status t = PENDING) &&
  can_start t completed_todo_ids &&
  negb (bool_decide (todo_id t ∈ in_progress_ids)).

Record Task := mk_Task {
  task_id : Z;
  task_name : string;
  task_description : string;
  task_status : Status;
  task_order : Z;
  task_dependencies : list Z;
  _project : option Z;
  _todo_items : list TodoItem;
  task_created_at : Z;
  task_updated_at : Z
}.

Definition with_todo_items (t : Task) (items : list TodoItem) (now : Z) : Task :=
  mk_Task (task_id t) (task_name t) (task_description t) (task_status t)
          (task_order t) (task_dependencies t) (_project t) items
          (task_created_at t) now.

Definition contains_todo_item (t : Task) (item : TodoItem) : bool :=
  existsb (λ i, bool_decide (todo_id i = todo_id item)) (_todo_items t).

(** [Task.add_todo_item]: the item joins the list with its back reference
    set to the task; the item is returned as well. *)
Definition add_todo_item (t : Task) (item : TodoItem) (now : Z)
    : Task * TodoItem :=
  if negb (contains_todo_item t item) then
    let item' :=
      mk_TodoItem (todo_id item) (todo_title item) (todo_description item)
                  (todo_status item) (todo_order item) (todo_dependencies item)
                  (_files item) (Some (task_id t)) (todo_created_at item)
                  (todo_updated_at item) in
    (with_todo_items t (_todo_items t ++ [item']) now, item')
  else (t, item).

Definition remove_todo_item (t : Task) (item : TodoItem) (now : Z)
    : Task * TodoItem :=
  if contains_todo_item t item then
    let item' :=
      mk_TodoItem (todo_id item) (todo_title item) (todo_description item)
                  (todo_status item) (todo_order item) (todo_dependencies item)
                  (_files item) None (todo_created_at item)
                  (todo_updated_at item) in
    (with_todo_items t
       (remove_first (λ i, bool_decide (todo_id i = todo_id item)) (_todo_items t))
       now,
     item')
  else (t, item).

Definition task_is_completed (t : Task) : bool :=
  bool_decide (task_status t = COMPLETED).

(** [Task.completion_percentage]; the quotient is taken over the
    rationals, [None] stands for ZeroDivisionError. *)
Definition task_completion_percentage (t : Task) : option Q :=
  match _todo_items t with
  | [] => Some (if task_is_completed t then 100 else 0)%Q
  | _ :: _ =>
      let completed_count :=
        Z.of_nat (length (filter (λ item, todo_is_completed item = true)
                                 (_todo_items t))) in
      q ← py_truediv completed_count (Z.of_nat (length (_todo_items t)));
      Some (q * 100)%Q
  end.

(** [sorted(l, key=lambda x: x.order)]: Python's sort is stable. *)
Fixpoint insert_by_order (x : TodoItem) (l : list TodoItem) : list TodoItem :=
  match l with
  | [] => [x]
  | y :: l' =>
      if bool_decide (todo_order x ≤ todo_order y) then x :: y :: l'
      else y :: insert_by_order x l'
  end.

Definition sorted_by_order (l : list TodoItem) : list TodoItem :=
  foldr insert_by_order [] l.

Definition get_available_todo_items (t : Task)
    (completed_todo_ids in_progress_ids : list Z) : list TodoItem :=
  filter (λ item, is_available item completed_todo_ids in_progress_ids = true)
         (sorted_by_order (_todo_items t)).

End Models.

(** ** Further properties of the stores *)

(** Two stores that differ in their file locks and in columns of todo rows
    other than the id and the task. *)
Definition same_items (d d' : db) : Prop :=
  projects d' = projects d ∧ tasks d' = tasks d ∧
  todo_files d' = todo_files d ∧ todo_dependencies d' = todo_dependencies d ∧
  ∃ g : Todo.row → Todo.row,
    todo_items d' = g <$> todo_items d ∧
    (∀ t, Todo.id (g t) = Todo.id t) ∧ (∀ t, Todo.task_id (g t) = Todo.task_id t).

Definition well_formed (d : db) : Prop := keyed d ∧ linked d.

(** The counts of a group of todo rows and its percentage fit together: no
    count is negative, the three counted statuses together do not exceed the
    total, the percentage lies between 0 and 100, and it is 100 when there
    are rows and all are completed. *)
Definition counts_in_range (c : todo_counts) (pct : Q) : Prop :=
  0 ≤ completed_todos c ∧ 0 ≤ in_progress_todos c ∧ 0 ≤ pending_todos c ∧
  completed_todos c + in_progress_todos c + pending_todos c ≤ total_todos c ∧
  (0 <= pct)%Q ∧ (pct <= 100)%Q ∧
  (0 < total_todos c → completed_todos c = total_todos c → (pct == 100)%Q).

(** The sum of a list of counts. *)
Definition sum_list_Z (l : list Z) : Z := foldr Z.add 0 l.

(** * Proofs *)

#[local] Set Warnings "-clear-no-such-hyp".

(** * Facts about the query for available work *)


Lemma available_spec d project_id agent_id r :
  available d project_id agent_id r = true ↔
  Task.project_id r.2 = project_id ∧ Todo.status r.1 = "pending" ∧
  Todo.assigned_agent r.1 = None ∧ has_incomplete_dependency d r.1 = false ∧
  has_foreign_lock d agent_id r.1 = false.
Proof.
  unfold available. rewrite !andb_true_iff, !negb_true_iff, !bool_decide_eq_true.
  tauto.
Qed.

Lemma next_available_Some d project_id agent_id row :
  next_available d project_id agent_id = Some row →
  ∃ task, (row, task) ∈ todo_join_tasks d ∧
          available d project_id agent_id (row, task) = true.
Proof.
  unfold next_available. intros H.
  apply fmap_Some in H as ([t task] & Hhead & ->).
  apply head_Some_elem_of in Hhead.
  rewrite merge_sort_Permutation in Hhead.
  apply list_elem_of_filter in Hhead as [Hav Hin]. eauto.
Qed.





(** * Facts about [UPDATE todo_items ... WHERE id = ?] *)

Lemma elem_of_update_status_where_id d todo_id st ag now t :
  t ∈ todo_items (update_status_where_id d todo_id st ag now) ↔
  ∃ t0, t0 ∈ todo_items d ∧
        t = if bool_decide (Todo.id t0 = todo_id)
            then Todo.set_status st ag now t0 else t0.
Proof.
  unfold update_status_where_id. simpl. rewrite list_elem_of_fmap. naive_solver.
Qed.

Lemma update_status_where_id_at d todo_id st ag now t :
  t ∈ todo_items (update_status_where_id d todo_id st ag now) →
  Todo.id t = todo_id →
  Todo.status t = st ∧ Todo.assigned_agent t = ag.
Proof.
  intros (t0 & Hin & ->)%elem_of_update_status_where_id.
  case_bool_decide; simpl; [done|congruence].
Qed.

Lemma update_status_where_id_other d todo_id st ag now t :
  t ∈ todo_items (update_status_where_id d todo_id st ag now) →
  Todo.id t ≠ todo_id → t ∈ todo_items d.
Proof.
  intros (t0 & Hin & ->)%elem_of_update_status_where_id.
  case_bool_decide; simpl; [done|]. by intros _.
Qed.

(** * The claim of get_next_todo_item *)



Lemma main_get_next_todo_item_inv d project_name agent_id row files d' :
  Main.get_next_todo_item d project_name agent_id = (NextItem row files, d') →
  ∃ project_row,
    project_by_name d project_name = Some project_row ∧
    next_available d (Project.id project_row) agent_id = Some row ∧ d' = d.
Proof.
  unfold Main.get_next_todo_item.
  destruct (project_by_name d project_name) as [p|]; [|done].
  destruct (next_available d (Project.id p) agent_id) as [row0|] eqn:Hnext; [|done].
  intros [= <- <- <-]. by repeat eexists.
Qed.






(** * Status and assignment *)

Section coupling.

Lemma coupled_ext d d' :
  todo_items d' = todo_items d → coupled d → coupled d'.
Proof. unfold coupled. by intros ->. Qed.

Lemma coupled_empty : coupled empty_db.
Proof. intros t Ht. by apply elem_of_nil in Ht. Qed.

Lemma coupled_update_status_where_id d todo_id st ag now :
  (st = "in_progress" ↔ ag ≠ None) →
  coupled d → coupled (update_status_where_id d todo_id st ag now).
Proof.
  intros Hnew Hd t (t0 & Hin & ->)%elem_of_update_status_where_id.
  case_bool_decide; [done|]. by apply Hd.
Qed.

Lemma coupled_insert_todo_row d task_id title description order deps files now :
  coupled d →
  coupled (insert_todo_row d task_id title description order deps files now).2.
Proof.
  intros Hd t. unfold insert_todo_row. cbn [snd todo_items].
  rewrite elem_of_app, list_elem_of_singleton. intros [Hin| ->]; [by apply Hd|].
  done.
Qed.

Lemma coupled_shift_from d task_id order_index :
  coupled d → coupled (shift_from d task_id order_index).
Proof.
  intros Hd t. unfold shift_from. cbn [with_todo_items todo_items].
  intros (t0 & -> & Hin)%list_elem_of_fmap.
  case_bool_decide; [|by apply Hd]. apply (Hd t0 Hin).
Qed.

Lemma coupled_shift_all d task_id :
  coupled d → coupled (shift_all d task_id).
Proof.
  intros Hd t. unfold shift_all. cbn [with_todo_items todo_items].
  intros (t0 & -> & Hin)%list_elem_of_fmap.
  case_bool_decide; [|by apply Hd]. apply (Hd t0 Hin).
Qed.

Lemma todo_items_create_project d name description now :
  todo_items (create_project d name description now).2 = todo_items d.
Proof. unfold create_project. by case_match. Qed.

Lemma todo_items_create_task d project_name name description order deps now :
  todo_items (create_task d project_name name description order deps now).2
  = todo_items d.
Proof. unfold create_task. by case_match. Qed.

Lemma todo_items_lock_files d files agent_id now :
  todo_items (lock_files d files agent_id now).2 = todo_items d.
Proof. unfold lock_files. by case_match. Qed.

Lemma todo_items_unlock_files d files agent_id :
  todo_items (unlock_files d files agent_id).2 = todo_items d.
Proof.
  unfold unlock_files.
  by destruct (foldl _ _ _) as [[locks unlocked] not_owned].
Qed.

(** The agent main.py stores with a status. *)
Lemma main_update_todo_status_inv d todo_id status agent_id now u d' :
  Main.update_todo_status d todo_id status agent_id now = (inr u, d') →
  status ∈ valid_statuses ∧
  u = mk_status_update todo_id status
        (if bool_decide (status = "in_progress") then Some agent_id else None) ∧
  todo_items d' =
    todo_items (update_status_where_id d todo_id status
                  (upd_assigned_agent u) now) ∧
  ∃ row, Main.todo_with_names d todo_id = Some row ∧
         (truthy (Todo.assigned_agent row) = false ∨
          Todo.assigned_agent row = Some agent_id ∨ status = "pending").
Proof.
  unfold Main.update_todo_status.
  case_bool_decide as Hvalid; [|done]. cbn [negb].
  destruct (Main.todo_with_names d todo_id) as [row|]; [|done].
  destruct (truthy _ && _ && _) eqn:Hperm; [done|].
  intros [= <- <-]. split; [done|]. split.
  { f_equal. by repeat case_bool_decide. }
  split.
  { cbn [upd_assigned_agent]. by repeat case_bool_decide. }
  exists row. split; [done|].
  apply andb_false_iff in Hperm as [Hperm|Hperm].
  - apply andb_false_iff in Hperm as [Hperm|Hperm]; [by left|].
    right; left. apply negb_false_iff, bool_decide_eq_true in Hperm. done.
  - right; right. apply negb_false_iff, bool_decide_eq_true in Hperm.
    by apply list_elem_of_singleton in Hperm.
Qed.

Lemma main_update_todo_status_error d todo_id status agent_id now e d' :
  Main.update_todo_status d todo_id status agent_id now = (inl e, d') → d' = d.
Proof.
  unfold Main.update_todo_status. intros H.
  repeat (case_match; simplify_eq); done.
Qed.

Lemma coupled_main_update_todo_status d todo_id status agent_id now :
  coupled d →
  coupled (Main.update_todo_status d todo_id status agent_id now).2.
Proof.
  intros Hd.
  destruct (Main.update_todo_status d todo_id status agent_id now) as [[e|u] d'] eqn:H.
  - apply main_update_todo_status_error in H as ->. done.
  - apply main_update_todo_status_inv in H as (_ & -> & Hitems & _).
    eapply coupled_ext; [exact Hitems|].
    apply coupled_update_status_where_id; [|done].
    cbn [upd_assigned_agent]. case_bool_decide; naive_solver.
Qed.

Lemma http_update_todo_status_inv d todo_id status agent_id now u d' :
  Http.update_todo_status d todo_id status agent_id now = (inr u, d') →
  status ∈ valid_statuses ∧
  u = mk_status_update todo_id status
        (if bool_decide (status = "in_progress") then Some agent_id else None) ∧
  d' = update_status_where_id d todo_id status (upd_assigned_agent u) now ∧
  ∃ row, todo_by_id d todo_id = Some row ∧
         (truthy (Todo.assigned_agent row) = false ∨
          Todo.assigned_agent row = Some agent_id).
Proof.
  unfold Http.update_todo_status.
  case_bool_decide as Hvalid; [|done]. cbn [negb].
  destruct (todo_by_id d todo_id) as [row|]; [|done].
  destruct (truthy _ && _) eqn:Hperm; [done|].
  intros [= <- <-].
  assert ((if bool_decide (status = "in_progress") then Some agent_id
           else if bool_decide (status ∈ ["completed"; "cancelled"]) then None
                else None)
          = if bool_decide (status = "in_progress") then Some agent_id else None)
    as -> by (by repeat case_bool_decide).
  do 3 (split; [done|]). exists row. split; [done|].
  apply andb_false_iff in Hperm as [Hperm|Hperm]; [by left|].
  right. by apply negb_false_iff, bool_decide_eq_true in Hperm.
Qed.

Lemma http_update_todo_status_error d todo_id status agent_id now e d' :
  Http.update_todo_status d todo_id status agent_id now = (inl e, d') → d' = d.
Proof.
  unfold Http.update_todo_status. intros H.
  repeat (case_match; simplify_eq); done.
Qed.

Lemma coupled_http_update_todo_status d todo_id status agent_id now :
  coupled d →
  coupled (Http.update_todo_status d todo_id status agent_id now).2.
Proof.
  intros Hd.
  destruct (Http.update_todo_status d todo_id status agent_id now) as [[e|u] d'] eqn:H.
  - apply http_update_todo_status_error in H as ->. done.
  - apply http_update_todo_status_inv in H as (_ & -> & -> & _).
    apply coupled_update_status_where_id; [|done].
    cbn [upd_assigned_agent]. case_bool_decide; naive_solver.
Qed.

Lemma coupled_http_get_next_todo_item d project_name agent_id now :
  coupled d →
  coupled (Http.get_next_todo_item d project_name agent_id now).2.
Proof.
  intros Hd. unfold Http.get_next_todo_item.
  repeat case_match; try done.
  by apply coupled_update_status_where_id.
Qed.

Lemma coupled_main_exec c now d : coupled d → coupled (Main.exec c now d).
Proof.
  intros Hd. destruct c; cbn [Main.exec].
  - eapply coupled_ext; [apply todo_items_create_project|done].
  - eapply coupled_ext; [apply todo_items_create_task|done].
  - unfold Main.create_todo_item. case_match; [|done].
    pose proof (coupled_insert_todo_row d task_id title description order
                  dependencies files now Hd) as H'.
    by destruct (insert_todo_row _ _ _ _ _ _ _ _).
  - unfold Main.insert_todo_item. case_match; [|done].
    case_match.
    + case_match; [|done]. case_match; [|done].
      match goal with
      | |- context [insert_todo_row ?d0 ?a ?b ?c ?e ?f ?g ?h] =>
          pose proof (coupled_insert_todo_row d0 a b c e f g h
                        (coupled_shift_from _ _ _ Hd)) as H';
          by destruct (insert_todo_row d0 a b c e f g h)
      end.
    + match goal with
      | |- context [insert_todo_row ?d0 ?a ?b ?c ?e ?f ?g ?h] =>
          pose proof (coupled_insert_todo_row d0 a b c e f g h
                        (coupled_shift_all _ _ Hd)) as H';
          by destruct (insert_todo_row d0 a b c e f g h)
      end.
  - unfold Main.get_next_todo_item. by repeat case_match.
  - by apply coupled_main_update_todo_status.
  - eapply coupled_ext; [apply todo_items_lock_files|done].
  - eapply coupled_ext; [apply todo_items_unlock_files|done].
Qed.

Lemma coupled_http_exec c now d : coupled d → coupled (Http.exec c now d).
Proof.
  intros Hd. destruct c; cbn [Http.exec].
  - eapply coupled_ext; [apply todo_items_create_project|done].
  - eapply coupled_ext; [apply todo_items_create_task|done].
  - unfold Http.create_todo_item. case_match; [|done].
    pose proof (coupled_insert_todo_row d task_id title description order
                  dependencies files now Hd) as H'.
    by destruct (insert_todo_row _ _ _ _ _ _ _ _).
  - unfold Http.insert_todo_item. case_match; [|done].
    case_match.
    + case_match; [|done]. case_match; [|done].
      match goal with
      | |- context [insert_todo_row ?d0 ?a ?b ?c ?e ?f ?g ?h] =>
          pose proof (coupled_insert_todo_row d0 a b c e f g h
                        (coupled_shift_from _ _ _ Hd)) as H';
          by destruct (insert_todo_row d0 a b c e f g h)
      end.
    + match goal with
      | |- context [insert_todo_row ?d0 ?a ?b ?c ?e ?f ?g ?h] =>
          pose proof (coupled_insert_todo_row d0 a b c e f g h
                        (coupled_shift_all _ _ Hd)) as H';
          by destruct (insert_todo_row d0 a b c e f g h)
      end.
  - by apply coupled_http_get_next_todo_item.
  - by apply coupled_http_update_todo_status.
  - eapply coupled_ext; [apply todo_items_lock_files|done].
  - eapply coupled_ext; [apply todo_items_unlock_files|done].
Qed.

End coupling.

Lemma main_reachable_foldl now cs d :
  Main.reachable d → Main.reachable (foldl (λ d c, Main.exec c now d) d cs).
Proof.
  revert d. induction cs as [|c cs IH]; intros d Hd; [done|].
  cbn [foldl]. apply IH. by constructor.
Qed.

Lemma http_reachable_foldl now cs d :
  Http.reachable d → Http.reachable (foldl (λ d c, Http.exec c now d) d cs).
Proof.
  revert d. induction cs as [|c cs IH]; intros d Hd; [done|].
  cbn [foldl]. apply IH. by constructor.
Qed.

Lemma main_reachable_coupled d : Main.reachable d → coupled d.
Proof.
  induction 1 as [|d c now _ IH]; [apply coupled_empty|].
  by apply coupled_main_exec.
Qed.

Lemma http_reachable_coupled d : Http.reachable d → coupled d.
Proof.
  induction 1 as [|d c now _ IH]; [apply coupled_empty|].
  by apply coupled_http_exec.
Qed.

(** C3: in every store main.py or http_server.py can reach, a todo row is
    in progress exactly when it has an assigned agent.  Every successful
    update_todo_status keeps it so: it stores the caller as the agent when
    the new status is in_progress and no agent for every other status, in
    every row with the given id; and so does the assignment made by
    get_next_todo_item of http_server.py. *)
Theorem status_agent_coupling d :
  Main.reachable d ∨ Http.reachable d →
  coupled d ∧
  (∀ todo_id status agent_id now u d',
     Main.update_todo_status d todo_id status agent_id now = (inr u, d') ∨
     Http.update_todo_status d todo_id status agent_id now = (inr u, d') →
     upd_assigned_agent u
       = (if bool_decide (status = "in_progress") then Some agent_id else None) ∧
     (∀ t, t ∈ todo_items d' → Todo.id t = todo_id →
           Todo.status t = status ∧
           Todo.assigned_agent t = upd_assigned_agent u) ∧
     coupled d') ∧
  (∀ project_name agent_id now,
     coupled (Http.get_next_todo_item d project_name agent_id now).2).
Proof.
  intros Hreach.
  assert (coupled d) as Hd.
  { destruct Hreach; [by apply main_reachable_coupled|by apply http_reachable_coupled]. }
  split; [done|]. split.
  - intros todo_id status agent_id now u d' [H|H].
    + pose proof (coupled_main_update_todo_status d todo_id status agent_id now Hd) as Hc.
      rewrite H in Hc.
      apply main_update_todo_status_inv in H as (_ & -> & Hitems & _).
      split; [done|]. split; [|done].
      intros t Ht Hid. rewrite Hitems in Ht.
      by eapply update_status_where_id_at.
    + pose proof (coupled_http_update_todo_status d todo_id status agent_id now Hd) as Hc.
      rewrite H in Hc.
      apply http_update_todo_status_inv in H as (_ & -> & -> & _).
      split; [done|]. split; [|done].
      intros t Ht Hid. by eapply update_status_where_id_at.
  - intros. by apply coupled_http_get_next_todo_item.
Qed.

(** The coupling in the store where item "A" is in progress. *)
Lemma status_agent_coupling_witness :
  Main.reachable main_started_db ∧ coupled main_started_db.
Proof.
  assert (Main.reachable main_started_db) as H.
  { apply (Main.reachable_exec _ (UpdateTodoStatus 1 "in_progress" "agent1") 1).
    apply main_reachable_foldl. constructor. }
  split; [exact H|].
  exact (proj1 (status_agent_coupling main_started_db (or_introl H))).
Defined.

(** * Ownership and transitions in update_todo_status *)

Lemma with_file_locks_same d : with_file_locks d (file_locks d) = d.
Proof. by destruct d. Qed.

Lemma files_of_update_status_where_id d todo_id st ag now id :
  files_of (update_status_where_id d todo_id st ag now) id = files_of d id.
Proof. done. Qed.

Lemma file_locks_update_status_where_id d todo_id st ag now :
  file_locks (update_status_where_id d todo_id st ag now) = file_locks d.
Proof. done. Qed.

Lemma valid_statuses_cases status :
  status ∈ valid_statuses →
  status = "pending" ∨ status = "in_progress" ∨ status = "completed" ∨
  status = "cancelled".
Proof.
  unfold valid_statuses. rewrite !elem_of_cons, elem_of_nil. tauto.
Qed.

Lemma valid_check status :
  status ∈ valid_statuses → negb (bool_decide (status ∈ valid_statuses)) = false.
Proof. intros H. by rewrite bool_decide_eq_true_2. Qed.

Lemma not_pending_check status :
  status ≠ "pending" → negb (bool_decide (status ∈ ["pending"])) = true.
Proof.
  intros H. rewrite bool_decide_eq_false_2; [done|].
  by rewrite list_elem_of_singleton.
Qed.

(** C6 (as stated, refuted on http_server.py): item 1 is in progress under
    agent1; the request of agent2 to put it back to pending is refused by
    http_server.py and by mcp_server_fixed.py, and the store stays as it
    was.  main.py accepts the same request. *)
Lemma http_update_todo_status_refuses_release :
  Todo.assigned_agent <$> todo_by_id http_started_db 1 = Some (Some "agent1") ∧
  Http.update_todo_status http_started_db 1 "pending" "agent2" 9
    = (inl (AssignedToDifferentAgent (Some "agent1")), http_started_db) ∧
  Fixed.update_todo_status http_started_db 1 "pending" "agent2" 9
    = (inl (AssignedToDifferentAgent (Some "agent1")), http_started_db) ∧
  (Main.update_todo_status main_started_db 1 "pending" "agent2" 9).1
    = inr (mk_status_update 1 "pending" None).
Proof. vm_compute. done. Qed.

(** C6 (amended): let the todo item have a non-empty assigned agent other
    than the caller, and let the new status be a valid one.  In main.py the
    call fails with the ownership error and leaves the store unchanged,
    unless the new status is pending, in which case it succeeds and clears
    the agent.  In http_server.py and mcp_server_fixed.py the call fails
    with the ownership error and leaves the store unchanged for every new
    status, pending included. *)
Theorem update_todo_status_ownership d todo_id status agent_id now row owner :
  status ∈ valid_statuses →
  Todo.assigned_agent row = Some owner → owner ≠ "" → owner ≠ agent_id →
  (Main.todo_with_names d todo_id = Some row →
   (status ≠ "pending" →
    Main.update_todo_status d todo_id status agent_id now
      = (inl (AssignedToDifferentAgent (Some owner)), d)) ∧
   (status = "pending" →
    Main.update_todo_status d todo_id status agent_id now
      = (inr (mk_status_update todo_id "pending" None),
         update_status_where_id d todo_id "pending" None now))) ∧
  (todo_by_id d todo_id = Some row →
   Http.update_todo_status d todo_id status agent_id now
     = (inl (AssignedToDifferentAgent (Some owner)), d) ∧
   Fixed.update_todo_status d todo_id status agent_id now
     = (inl (AssignedToDifferentAgent (Some owner)), d)).
Proof.
  intros Hvalid Hag Hne Hother.
  assert (truthy (Todo.assigned_agent row) = true) as Htruthy.
  { rewrite Hag. cbn [truthy]. by rewrite bool_decide_eq_false_2. }
  assert (bool_decide (Todo.assigned_agent row = Some agent_id) = false) as Hdiff.
  { rewrite Hag. apply bool_decide_eq_false_2. congruence. }
  split.
  - intros Hrow. unfold Main.update_todo_status.
    rewrite (valid_check _ Hvalid), Hrow, Htruthy, Hdiff. cbn [negb andb].
    split.
    + intros Hnp. rewrite (not_pending_check _ Hnp). by rewrite Hag.
    + intros ->.
      rewrite (bool_decide_eq_true_2 ("pending" ∈ ["pending"]))
        by (by apply list_elem_of_singleton).
      rewrite !(bool_decide_eq_false_2 ("pending" = "in_progress")) by done.
      rewrite !(bool_decide_eq_true_2 ("pending" = "pending")) by done.
      rewrite !(bool_decide_eq_false_2 ("pending" ∈ ["completed"; "cancelled"]))
        by (rewrite !elem_of_cons, elem_of_nil; intros [?|[?|[]]]; done).
      cbn [negb]. by destruct d.
  - intros Hrow. unfold Http.update_todo_status, Fixed.update_todo_status.
    rewrite (valid_check _ Hvalid), Hrow, Htruthy, Hdiff. cbn [negb andb].
    by rewrite Hag.
Qed.

(** agent2 is refused on the item that agent1 has in progress. *)
Lemma update_todo_status_ownership_witness :
  Main.update_todo_status main_started_db 1 "completed" "agent2" 9
    = (inl (AssignedToDifferentAgent (Some "agent1")), main_started_db) ∧
  Http.update_todo_status http_started_db 1 "pending" "agent2" 9
    = (inl (AssignedToDifferentAgent (Some "agent1")), http_started_db).
Proof.
  pose (row := Todo.mk 1 1 "A" "" 0 "in_progress" (Some "agent1") 0 1).
  assert ("completed" ∈ valid_statuses) as Hv1
    by (unfold valid_statuses; rewrite !elem_of_cons; tauto).
  assert ("pending" ∈ valid_statuses) as Hv2
    by (unfold valid_statuses; rewrite !elem_of_cons; tauto).
  assert ("agent1" ≠ "") as Hne by done.
  assert ("agent1" ≠ "agent2") as Hother by done.
  split.
  - refine (proj1 (proj1 (update_todo_status_ownership main_started_db 1
              "completed" "agent2" 9 row "agent1" Hv1 eq_refl Hne Hother) _) _).
    + vm_compute. reflexivity.
    + done.
  - refine (proj1 (proj2 (update_todo_status_ownership http_started_db 1
              "pending" "agent2" 9 row "agent1" Hv2 eq_refl Hne Hother) _)).
    vm_compute. reflexivity.
Defined.

(** C8 (as stated, refuted): item 1 is completed; agent2 sets it to
    in_progress with update_todo_status of main.py, and the call succeeds. *)
Lemma main_update_todo_status_reopens_completed :
  let d' := Main.exec (UpdateTodoStatus 1 "in_progress" "agent2") 9 main_completed_db in
  Todo.status <$> todo_by_id main_completed_db 1 = Some "completed" ∧
  (Main.update_todo_status main_completed_db 1 "in_progress" "agent2" 9).1
    = inr (mk_status_update 1 "in_progress" (Some "agent2")) ∧
  Todo.status <$> todo_by_id d' 1 = Some "in_progress".
Proof. vm_compute. done. Qed.

(** C8 (amended): update_todo_status does not look at the current status
    of the item.  For a completed or cancelled item, which has no assigned
    agent, the call of any agent with any valid status succeeds in main.py
    and in http_server.py, and every row with the given id has the new
    status afterwards. *)
Theorem update_todo_status_from_terminal d todo_id status agent_id now row :
  status ∈ valid_statuses →
  Todo.status row = "completed" ∨ Todo.status row = "cancelled" →
  Todo.assigned_agent row = None →
  (Main.todo_with_names d todo_id = Some row →
   ∃ u d', Main.update_todo_status d todo_id status agent_id now = (inr u, d') ∧
           upd_status u = status ∧
           ∀ t, t ∈ todo_items d' → Todo.id t = todo_id → Todo.status t = status) ∧
  (todo_by_id d todo_id = Some row →
   ∃ u d', Http.update_todo_status d todo_id status agent_id now = (inr u, d') ∧
           upd_status u = status ∧
           ∀ t, t ∈ todo_items d' → Todo.id t = todo_id → Todo.status t = status).
Proof.
  intros Hvalid _ Hag. split; intros Hrow.
  - destruct (Main.update_todo_status d todo_id status agent_id now)
      as [[e|u] d'] eqn:H.
    + exfalso. revert H. unfold Main.update_todo_status.
      rewrite (valid_check _ Hvalid), Hrow, Hag. done.
    + exists u, d'. split; [done|].
      apply main_update_todo_status_inv in H as (_ & -> & Hitems & _).
      split; [done|]. intros t Ht Hid. rewrite Hitems in Ht.
      by eapply update_status_where_id_at.
  - destruct (Http.update_todo_status d todo_id status agent_id now)
      as [[e|u] d'] eqn:H.
    + exfalso. revert H. unfold Http.update_todo_status.
      rewrite (valid_check _ Hvalid), Hrow, Hag. done.
    + exists u, d'. split; [done|].
      apply http_update_todo_status_inv in H as (_ & -> & -> & _).
      split; [done|]. intros t Ht Hid.
      by eapply update_status_where_id_at.
Qed.

(** agent2 reopens the item that agent1 completed. *)
Lemma update_todo_status_from_terminal_witness :
  ∃ u d', Main.update_todo_status main_completed_db 1 "pending" "agent2" 9 = (inr u, d') ∧
          upd_status u = "pending" ∧
          ∀ t, t ∈ todo_items d' → Todo.id t = 1 → Todo.status t = "pending".
Proof.
  pose (row := Todo.mk 1 1 "A" "" 0 "completed" None 0 2).
  assert ("pending" ∈ valid_statuses) as Hv
    by (unfold valid_statuses; rewrite !elem_of_cons; tauto).
  refine (proj1 (update_todo_status_from_terminal main_completed_db 1 "pending"
            "agent2" 9 row Hv (or_introl eq_refl) eq_refl) _).
  vm_compute. reflexivity.
Defined.

(** * File locks *)

Lemma if_bool_decide_ext {A} (P Q : Prop) `{Decision P, Decision Q} (x y : A) :
  (P ↔ Q) →
  (if bool_decide P then x else y) = (if bool_decide Q then x else y).
Proof. intros HPQ. by rewrite (bool_decide_ext P Q HPQ). Qed.

Section locks.

Implicit Types (locks : gmap string FileLock.row) (files : list string).

Lemma lookup_lock_all agent_id now files locks p :
  lock_all agent_id now files locks !! p =
  if bool_decide (p ∈ files) then Some (FileLock.mk agent_id now)
  else locks !! p.
Proof.
  unfold lock_all. revert locks.
  induction files as [|q files IH] using rev_ind; intros locks.
  - cbn [foldl]. rewrite bool_decide_eq_false_2; [done|]. apply not_elem_of_nil.
  - rewrite foldl_app. cbn [foldl].
    destruct (decide (q = p)) as [->|Hne].
    + rewrite lookup_insert_eq, bool_decide_eq_true_2; [done|].
      apply elem_of_app. right. by apply list_elem_of_singleton.
    + rewrite lookup_insert_ne by done. rewrite IH.
      apply (if_bool_decide_ext (p ∈ files) (p ∈ files ++ [q])).
      rewrite elem_of_app, list_elem_of_singleton. naive_solver.
Qed.

Lemma lookup_delete_lock_of agent_id locks q p :
  delete_lock_of agent_id locks q !! p =
  if bool_decide (p = q ∧ FileLock.locked_by <$> locks !! p = Some agent_id)
  then None else locks !! p.
Proof.
  unfold delete_lock_of.
  destruct (decide (p = q)) as [->|Hne].
  - destruct (locks !! q) as [row|] eqn:Hq.
    + cbn [fmap option_fmap option_map].
      destruct (decide (FileLock.locked_by row = agent_id)) as [Heq|Hneq].
      * rewrite (bool_decide_eq_true_2 (FileLock.locked_by row = agent_id)) by done.
        rewrite lookup_delete_eq, bool_decide_eq_true_2; [done|].
        split; [done|]. by rewrite Heq.
      * rewrite (bool_decide_eq_false_2 (FileLock.locked_by row = agent_id)) by done.
        rewrite Hq, bool_decide_eq_false_2; [done|]. intros [_ [=]]. done.
    + rewrite Hq, bool_decide_eq_false_2; [done|]. by intros [_ ?].
  - rewrite (bool_decide_eq_false_2 (p = q ∧ _)) by (by intros [? _]).
    destruct (locks !! q) as [row|]; [|done].
    case_bool_decide; [|done]. by rewrite lookup_delete_ne.
Qed.

Lemma lookup_foldl_delete_lock_of agent_id files locks p :
  foldl (delete_lock_of agent_id) locks files !! p =
  if bool_decide (p ∈ files ∧ FileLock.locked_by <$> locks !! p = Some agent_id)
  then None else locks !! p.
Proof.
  revert locks. induction files as [|q files IH]; intros locks.
  - cbn [foldl]. rewrite bool_decide_eq_false_2; [done|].
    intros [[]%not_elem_of_nil _].
  - cbn [foldl]. rewrite IH, lookup_delete_lock_of.
    destruct (decide (p = q ∧ FileLock.locked_by <$> locks !! p = Some agent_id))
      as [[-> Hown]|Hno].
    + rewrite (bool_decide_eq_true_2 (q = q ∧ _)) by done.
      rewrite (bool_decide_eq_true_2 (q ∈ q :: files ∧ _)).
      * by case_bool_decide.
      * split; [apply elem_of_cons; by left|done].
    + rewrite (bool_decide_eq_false_2 (p = q ∧ _)) by done.
      apply if_bool_decide_ext. rewrite elem_of_cons. naive_solver.
Qed.

End locks.

Lemma main_update_todo_status_file_locks d todo_id status agent_id now u d' :
  Main.update_todo_status d todo_id status agent_id now = (inr u, d') →
  file_locks d' =
    if bool_decide (status = "in_progress")
    then lock_all agent_id now (files_of d todo_id) (file_locks d)
    else if bool_decide (status ∈ ["completed"; "cancelled"])
         then foldl (delete_lock_of agent_id) (file_locks d) (files_of d todo_id)
         else file_locks d.
Proof.
  unfold Main.update_todo_status.
  destruct (negb _); [done|].
  destruct (Main.todo_with_names d todo_id) as [row|]; [|done].
  destruct (truthy _ && _ && _); [done|].
  by intros [= <- <-].
Qed.

(** C9: in main.py a successful update_todo_status to "pending" clears the
    assigned agent and leaves the table of file locks as it was.  Whatever
    the call, a path whose lock row differs after it is a file of the todo
    item, and either the new status is in_progress and the row now belongs
    to the caller, or the new status is completed or cancelled and the row,
    which belonged to the caller, is gone. *)
Theorem main_update_todo_status_locks d todo_id status agent_id now r d' :
  Main.update_todo_status d todo_id status agent_id now = (r, d') →
  (status = "pending" →
   file_locks d' = file_locks d ∧
   ∀ u, r = inr u →
        upd_assigned_agent u = None ∧
        ∀ t, t ∈ todo_items d' → Todo.id t = todo_id →
             Todo.assigned_agent t = None) ∧
  (∀ p, file_locks d' !! p ≠ file_locks d !! p →
        p ∈ files_of d todo_id ∧
        ((status = "in_progress" ∧
          file_locks d' !! p = Some (FileLock.mk agent_id now)) ∨
         ((status = "completed" ∨ status = "cancelled") ∧
          file_locks d' !! p = None ∧ holder d p = Some agent_id))).
Proof.
  intros H. destruct r as [e|u].
  { apply main_update_todo_status_error in H as ->. split; [|done].
    intros _. split; [done|]. by intros u [=]. }
  pose proof (main_update_todo_status_file_locks _ _ _ _ _ _ _ H) as Hlocks.
  apply main_update_todo_status_inv in H as (Hvalid & -> & Hitems & _).
  split.
  - intros ->. split; [by rewrite Hlocks|].
    intros u [= <-]. split; [done|].
    intros t Ht Hid. rewrite Hitems in Ht.
    by destruct (update_status_where_id_at _ _ _ _ _ _ Ht Hid).
  - intros p Hp. rewrite Hlocks in Hp |- *.
    destruct (decide (status = "in_progress")) as [->|Hnot].
    + rewrite (bool_decide_eq_true_2 ("in_progress" = "in_progress")) in Hp |- * by done.
      rewrite lookup_lock_all in Hp |- *.
      case_bool_decide as Hin; [|done]. split; [done|]. by left.
    + rewrite (bool_decide_eq_false_2 (status = "in_progress")) in Hp |- * by done.
      case_bool_decide as Hterm; [|done].
      rewrite lookup_foldl_delete_lock_of in Hp |- *.
      case_bool_decide as Hdel; [|done]. destruct Hdel as [Hin Hown].
      split; [done|]. right. split; [|done].
      revert Hterm. rewrite !elem_of_cons, elem_of_nil. tauto.
Qed.

(** Putting item "A" back to pending keeps the lock of f1.txt. *)
Lemma main_update_todo_status_locks_witness :
  let d' := Main.exec (UpdateTodoStatus 1 "pending" "agent1") 9 main_started_db in
  Main.update_todo_status main_started_db 1 "pending" "agent1" 9
    = (inr (mk_status_update 1 "pending" None), d') ∧
  file_locks d' = file_locks main_started_db ∧
  holder d' "f1.txt" = Some "agent1".
Proof.
  assert (Main.update_todo_status main_started_db 1 "pending" "agent1" 9
          = (inr (mk_status_update 1 "pending" None),
             Main.exec (UpdateTodoStatus 1 "pending" "agent1") 9 main_started_db))
    as H by (vm_compute; reflexivity).
  split; [exact H|]. split.
  - exact (proj1 (proj1 (main_update_todo_status_locks _ _ _ _ _ _ _ H) eq_refl)).
  - vm_compute. reflexivity.
Defined.

(** * lock_files and unlock_files of main.py, http_server.py and
    mcp_server_fixed.py *)

Lemma lock_files_conflict d files agent_id now :
  (∃ p, p ∈ files ∧ locked_by_other (file_locks d) agent_id p = true) →
  ∃ paths, lock_files d files agent_id now = (inl (LockedByAnother paths), d) ∧
           paths = filter (λ p, locked_by_other (file_locks d) agent_id p = true) files ∧
           paths ≠ [].
Proof.
  intros (p & Hin & Hother). unfold lock_files.
  destruct (filter _ files) as [|q paths] eqn:Hf.
  - assert (p ∈ filter (λ p, locked_by_other (file_locks d) agent_id p = true) files)
      as Hp by (by apply list_elem_of_filter).
    rewrite Hf in Hp. by apply not_elem_of_nil in Hp.
  - by eexists.
Qed.


Lemma locked_by_other_true locks agent_id p :
  locked_by_other locks agent_id p = true ↔
  ∃ other, FileLock.locked_by <$> locks !! p = Some other ∧ other ≠ agent_id.
Proof.
  unfold locked_by_other. destruct (locks !! p) as [row|]; cbn.
  - rewrite negb_true_iff, bool_decide_eq_false. naive_solver.
  - naive_solver.
Qed.

Lemma locked_by_other_false locks agent_id p :
  locked_by_other locks agent_id p = false ↔
  FileLock.locked_by <$> locks !! p = None ∨
  FileLock.locked_by <$> locks !! p = Some agent_id.
Proof.
  unfold locked_by_other. destruct (locks !! p) as [row|]; cbn.
  - rewrite negb_false_iff, bool_decide_eq_true. naive_solver.
  - naive_solver.
Qed.

(** * _lock_files of server.py *)

Section server_locks.

Import Server.

Implicit Types (fs : list file_row).

Lemma file_by_path_set_lock_where_id fs id l by_ p :
  file_by_path (set_lock_where_id fs id l by_) p =
  (λ f, if bool_decide (f_id f = id)
        then mk_file (f_id f) (f_path f) l by_ else f) <$> file_by_path fs p.
Proof.
  unfold file_by_path, set_lock_where_id.
  induction fs as [|f fs IH]; [done|].
  cbn [fmap list_fmap find].
  assert (f_path (if bool_decide (f_id f = id)
                  then mk_file (f_id f) (f_path f) l by_ else f) = f_path f)
    as -> by (by case_bool_decide).
  destruct (bool_decide (f_path f = p)); [done|]. apply IH.
Qed.

Lemma file_by_path_snoc fs r p :
  file_by_path (fs ++ [r]) p =
  match file_by_path fs p with
  | Some f => Some f
  | None => if bool_decide (f_path r = p) then Some r else None
  end.
Proof.
  unfold file_by_path. induction fs as [|f fs IH]; [done|].
  cbn [app find]. destruct (bool_decide (f_path f = p)); [done|]. apply IH.
Qed.

Lemma file_by_path_path fs p f : file_by_path fs p = Some f → f_path f = p.
Proof.
  unfold file_by_path. intros H. apply find_some in H as [_ H].
  by apply bool_decide_eq_true in H.
Qed.

Lemma lock_one_held agent_id fs ls fl q p :
  held_by fs p agent_id →
  held_by (lock_one agent_id (fs, ls, fl) q).1.1 p agent_id.
Proof.
  intros (f & Hf & Hlocked & Hby). unfold lock_one.
  destruct (file_by_path fs q) as [r|] eqn:Hq.
  - destruct (f_locked r) eqn:Hr; cbn [negb fst].
    + by exists f.
    + unfold held_by. rewrite file_by_path_set_lock_where_id, Hf.
      cbn [fmap option_fmap option_map].
      case_bool_decide; eexists; (split; [done|]); done.
  - cbn [fst]. exists f. by rewrite file_by_path_snoc, Hf.
Qed.

Lemma lock_one_free agent_id fs ls fl q p :
  free fs p →
  let fs' := (lock_one agent_id (fs, ls, fl) q).1.1 in
  (q = p → held_by fs' p agent_id) ∧ (free fs' p ∨ held_by fs' p agent_id).
Proof.
  intros Hfree. unfold lock_one.
  destruct (file_by_path fs q) as [r|] eqn:Hq.
  - destruct (f_locked r) eqn:Hr; cbn [negb fst].
    + split; [|by left]. intros ->. rewrite (Hfree r Hq) in Hr. done.
    + split.
      * intros ->. unfold held_by.
        rewrite file_by_path_set_lock_where_id, Hq.
        cbn [fmap option_fmap option_map].
        rewrite bool_decide_eq_true_2 by done. by eexists.
      * destruct (file_by_path fs p) as [f|] eqn:Hp.
        -- destruct (decide (f_id f = f_id r)) as [Hid|Hid].
           ++ right. unfold held_by.
              rewrite file_by_path_set_lock_where_id, Hp.
              cbn [fmap option_fmap option_map].
              rewrite bool_decide_eq_true_2 by done. by eexists.
           ++ left. intros f'.
              rewrite file_by_path_set_lock_where_id, Hp.
              cbn [fmap option_fmap option_map].
              rewrite bool_decide_eq_false_2 by done.
              intros [= <-]. by apply Hfree.
        -- left. intros f'.
           rewrite file_by_path_set_lock_where_id, Hp. done.
  - cbn [fst]. split.
    + intros ->. unfold held_by. rewrite file_by_path_snoc, Hq.
      cbn [f_path]. rewrite bool_decide_eq_true_2 by done. by eexists.
    + destruct (decide (q = p)) as [->|Hne].
      * right. unfold held_by. rewrite file_by_path_snoc, Hq.
        cbn [f_path]. rewrite bool_decide_eq_true_2 by done. by eexists.
      * left. intros f'. rewrite file_by_path_snoc.
        destruct (file_by_path fs p) as [f|] eqn:Hp.
        -- intros [= <-]. by apply Hfree.
        -- cbn [f_path]. by rewrite bool_decide_eq_false_2.
Qed.

Lemma foldl_lock_one_held agent_id paths fs ls fl p :
  held_by fs p agent_id →
  held_by (foldl (lock_one agent_id) (fs, ls, fl) paths).1.1 p agent_id.
Proof.
  revert fs ls fl. induction paths as [|q paths IH]; intros fs ls fl H; [done|].
  cbn [foldl].
  pose proof (lock_one_held agent_id fs ls fl q p H) as H'.
  destruct (lock_one agent_id (fs, ls, fl) q) as [[fs' ls'] fl']. by apply IH.
Qed.

Lemma foldl_lock_one_free agent_id paths fs ls fl p :
  p ∈ paths → free fs p →
  held_by (foldl (lock_one agent_id) (fs, ls, fl) paths).1.1 p agent_id.
Proof.
  revert fs ls fl. induction paths as [|q paths IH]; intros fs ls fl Hin Hfree.
  { by apply not_elem_of_nil in Hin. }
  cbn [foldl].
  pose proof (lock_one_free agent_id fs ls fl q p Hfree) as [Hq Hstep].
  destruct (lock_one agent_id (fs, ls, fl) q) as [[fs' ls'] fl'].
  cbn [fst] in Hq, Hstep.
  destruct (decide (q = p)) as [Heq|Hne].
  - by apply foldl_lock_one_held, Hq.
  - apply elem_of_cons in Hin as [->|Hin]; [done|].
    destruct Hstep as [Hfree'|Hheld]; [by apply IH|by apply foldl_lock_one_held].
Qed.

(** _lock_files locks every requested path that is free, whatever the
    other requested paths are. *)
Lemma server_lock_files_free d paths agent_id p :
  p ∈ paths → free (files d) p →
  held_by (files (_lock_files d paths agent_id).2) p agent_id.
Proof.
  intros Hin Hfree. unfold _lock_files.
  pose proof (foldl_lock_one_free agent_id paths (files d) [] [] p Hin Hfree) as H.
  by destruct (foldl _ _ _) as [[fs ls] fl].
Qed.

End server_locks.

Lemma holder_other d agent_id p :
  locked_by_other (file_locks d) agent_id p = true ↔
  ∃ other, holder d p = Some other ∧ other ≠ agent_id.
Proof. apply locked_by_other_true. Qed.

Lemma holder_free d agent_id p :
  locked_by_other (file_locks d) agent_id p = false ↔
  holder d p = None ∨ holder d p = Some agent_id.
Proof. apply locked_by_other_false. Qed.





(** * unlock_files *)

Section unlock.

Implicit Types (locks : gmap string FileLock.row) (files : list string).

Lemma foldl_unlock_one agent_id files locks unlocked not_owned :
  ∃ released,
    foldl (unlock_one agent_id) (locks, unlocked, not_owned) files
    = (foldl (delete_lock_of agent_id) locks files,
       unlocked ++ released,
       not_owned ++ filter (λ p, locked_by_other locks agent_id p = true) files) ∧
    ∀ p, p ∈ released ↔
         p ∈ files ∧ FileLock.locked_by <$> locks !! p = Some agent_id.
Proof.
  revert locks unlocked not_owned.
  induction files as [|q files IH]; intros locks unlocked not_owned.
  { exists []. cbn [foldl]. rewrite !app_nil_r. split; [done|].
    intros p. rewrite !elem_of_nil. tauto. }
  cbn [foldl]. unfold unlock_one at 2, delete_lock_of at 2.
  destruct (locks !! q) as [row|] eqn:Hq.
  - destruct (decide (FileLock.locked_by row = agent_id)) as [Heq|Hne].
    + rewrite !(bool_decide_eq_true_2 (FileLock.locked_by row = agent_id)) by done.
      destruct (IH (delete q locks) (unlocked ++ [q]) not_owned)
        as (released & -> & Hrel).
      exists (q :: released). split.
      * rewrite <-app_assoc. cbn [app]. do 2 f_equal.
        rewrite filter_cons_False.
        2:{ unfold locked_by_other. rewrite Hq.
            rewrite bool_decide_eq_true_2 by done. done. }
        apply list_filter_iff. intros p. unfold locked_by_other.
        destruct (decide (p = q)) as [->|Hpq].
        -- rewrite lookup_delete_eq, Hq.
           rewrite bool_decide_eq_true_2 by done. done.
        -- by rewrite lookup_delete_ne.
      * intros p. rewrite !elem_of_cons, Hrel.
        destruct (decide (p = q)) as [->|Hpq].
        -- rewrite lookup_delete_eq, Hq. cbn. naive_solver.
        -- rewrite lookup_delete_ne by done. naive_solver.
    + rewrite !(bool_decide_eq_false_2 (FileLock.locked_by row = agent_id)) by done.
      destruct (IH locks unlocked (not_owned ++ [q])) as (released & -> & Hrel).
      exists released. split.
      * rewrite <-app_assoc. cbn [app]. do 2 f_equal.
        rewrite filter_cons_True; [done|].
        unfold locked_by_other. rewrite Hq.
        by rewrite bool_decide_eq_false_2.
      * intros p. rewrite elem_of_cons, Hrel.
        split; [naive_solver|]. intros [[->|Hin] Hown]; [|done].
        rewrite Hq in Hown. cbn in Hown. congruence.
  - destruct (IH locks unlocked not_owned) as (released & -> & Hrel).
    exists released. split.
    + do 2 f_equal. rewrite filter_cons_False; [done|].
      unfold locked_by_other. by rewrite Hq.
    + intros p. rewrite elem_of_cons, Hrel.
      split; [naive_solver|]. intros [[->|Hin] Hown]; [|done].
      rewrite Hq in Hown. done.
Qed.

End unlock.

(** * _unlock_files of server.py *)

Section server_unlock.

Import Server.

Implicit Types (fs : list file_row).

Lemma NoDup_fmap_eq {A B} (g : A → B) (l : list A) x y :
  NoDup (g <$> l) → x ∈ l → y ∈ l → g x = g y → x = y.
Proof.
  induction l as [|z l IH]; intros Hnd Hx Hy Hg.
  { by apply not_elem_of_nil in Hx. }
  rewrite fmap_cons in Hnd. apply NoDup_cons in Hnd as [Hz Hnd].
  apply elem_of_cons in Hx as [->|Hx]; apply elem_of_cons in Hy as [->|Hy].
  - done.
  - exfalso. apply Hz. rewrite Hg. by apply list_elem_of_fmap_2.
  - exfalso. apply Hz. rewrite <-Hg. by apply list_elem_of_fmap_2.
  - by apply IH.
Qed.

Lemma fmap_ext_in {A B} (g h : A → B) (l : list A) :
  (∀ x, x ∈ l → g x = h x) → g <$> l = h <$> l.
Proof.
  intros H. apply list_fmap_ext. intros i x Hi. apply H.
  by eapply list_elem_of_lookup_2.
Qed.

Lemma f_id_release agent_id paths f : f_id (release agent_id paths f) = f_id f.
Proof. unfold release. by case_bool_decide. Qed.

Lemma f_path_release agent_id paths f :
  f_path (release agent_id paths f) = f_path f.
Proof. unfold release. by case_bool_decide. Qed.

Lemma find_locked fs q r :
  NoDup (f_path <$> fs) →
  find (λ f, bool_decide (f_path f = q) && f_locked f) fs = Some r ↔
  r ∈ fs ∧ f_path r = q ∧ f_locked r = true.
Proof.
  intros Hnd. split.
  - intros [Hin H]%find_some. apply andb_true_iff in H as [Hp Hl].
    apply bool_decide_eq_true in Hp. by rewrite list_elem_of_In.
  - intros (Hin & Hp & Hl).
    destruct (find _ fs) as [r'|] eqn:Hfind.
    + apply find_some in Hfind as [Hin' H].
      apply andb_true_iff in H as [Hp' _]. apply bool_decide_eq_true in Hp'.
      f_equal. apply (NoDup_fmap_eq f_path fs); [done| |done|congruence].
      by apply list_elem_of_In.
    + exfalso. eapply find_none in Hfind; [|by apply list_elem_of_In].
      cbn beta in Hfind. rewrite Hl, bool_decide_eq_true_2 in Hfind; done.
Qed.

(** One turn of the loop releases the requested path when the agent
    holds it, and reports it when another agent does. *)
Lemma server_unlock_one agent_id fs us fl q :
  NoDup (f_id <$> fs) → NoDup (f_path <$> fs) →
  ∃ us' fl',
    unlock_one agent_id (fs, us, fl) q
    = (release agent_id [q] <$> fs, us ++ us', fl ++ fl') ∧
    (∀ p, p ∈ us' ↔
          p = q ∧ ∃ f, f ∈ fs ∧ f_path f = p ∧ f_locked f = true ∧
                       f_locked_by f = Some agent_id) ∧
    (∀ p o, (p, o) ∈ fl' ↔
            p = q ∧ ∃ f, f ∈ fs ∧ f_path f = p ∧ f_locked f = true ∧
                         f_locked_by f = o ∧ o ≠ Some agent_id).
Proof.
  intros Hids Hpaths. unfold unlock_one.
  destruct (find _ fs) as [r|] eqn:Hfind.
  - pose proof Hfind as (Hin & Hp & Hl)%find_locked; [|done].
    destruct (decide (f_locked_by r = Some agent_id)) as [Hown|Hother].
    + rewrite bool_decide_eq_true_2 by done.
      exists [q], []. rewrite app_nil_r. split; [|split].
      * do 2 f_equal. unfold set_lock_where_id.
        apply fmap_ext_in. intros f Hf. unfold release.
        destruct (decide (f_id f = f_id r)) as [Hid|Hid].
        -- assert (f = r) as -> by (by apply (NoDup_fmap_eq f_id fs)).
           rewrite !bool_decide_eq_true_2; [done| |done].
           split; [by apply list_elem_of_singleton|done].
        -- rewrite !bool_decide_eq_false_2; [done| |done].
           intros [Hq _]. apply list_elem_of_singleton in Hq.
           apply Hid. f_equal.
           apply (NoDup_fmap_eq f_path fs); [done..|congruence].
      * intros p. rewrite list_elem_of_singleton. split; [|tauto].
        intros ->. split; [done|]. by exists r.
      * intros p o. rewrite elem_of_nil. split; [done|].
        intros (-> & f & Hf & Hfp & _ & Ho & Hneq).
        assert (f = r) as -> by
          (apply (NoDup_fmap_eq f_path fs); [done..|congruence]).
        congruence.
    + rewrite bool_decide_eq_false_2 by done.
      exists [], [(q, f_locked_by r)]. rewrite app_nil_r. split; [|split].
      * do 2 f_equal. rewrite <-(list_fmap_id fs) at 1.
        apply fmap_ext_in. intros f Hf. unfold release.
        rewrite bool_decide_eq_false_2; [done|].
        intros (Hq & _ & Hown). apply list_elem_of_singleton in Hq.
        assert (f = r) as -> by
          (apply (NoDup_fmap_eq f_path fs); [done..|congruence]).
        done.
      * intros p. rewrite elem_of_nil. split; [done|].
        intros (-> & f & Hf & Hfp & _ & Hown).
        assert (f = r) as -> by
          (apply (NoDup_fmap_eq f_path fs); [done..|congruence]).
        done.
      * intros p o. rewrite list_elem_of_singleton. split.
        -- intros [= -> ->]. split; [done|]. by exists r.
        -- intros (-> & f & Hf & Hfp & _ & <- & _).
           assert (f = r) as -> by
             (apply (NoDup_fmap_eq f_path fs); [done..|congruence]).
           done.
  - exists [], []. rewrite !app_nil_r.
    assert (∀ f, f ∈ fs → f_path f = q → f_locked f = true → False) as Hnone.
    { intros f Hf Hfp Hl. eapply find_none in Hfind; [|by apply list_elem_of_In].
      cbn beta in Hfind. rewrite Hl, bool_decide_eq_true_2 in Hfind; done. }
    split; [|split].
    + do 2 f_equal. rewrite <-(list_fmap_id fs) at 1.
      apply fmap_ext_in. intros f Hf. unfold release.
      rewrite bool_decide_eq_false_2; [done|].
      intros (Hq & Hl & _). apply list_elem_of_singleton in Hq. eauto.
    + intros p. rewrite elem_of_nil. split; [done|].
      intros (-> & f & Hf & Hfp & Hl & _). eauto.
    + intros p o. rewrite elem_of_nil. split; [done|].
      intros (-> & f & Hf & Hfp & Hl & _). eauto.
Qed.

Lemma release_release agent_id q paths f :
  release agent_id paths (release agent_id [q] f)
  = release agent_id (q :: paths) f.
Proof.
  unfold release at 2.
  case_bool_decide as Hq.
  - destruct Hq as (Hq & Hl & Hown). apply list_elem_of_singleton in Hq.
    unfold release. cbn [f_path f_locked f_locked_by f_id].
    rewrite bool_decide_eq_false_2 by (by intros (_ & ? & _)).
    rewrite bool_decide_eq_true_2; [done|].
    split; [|done]. apply elem_of_cons. by left.
  - unfold release. apply if_bool_decide_ext.
    rewrite elem_of_cons. rewrite list_elem_of_singleton in Hq. naive_solver.
Qed.

Lemma release_nil agent_id fs : release agent_id [] <$> fs = fs.
Proof.
  rewrite <-(list_fmap_id fs) at 2. apply list_fmap_ext. intros i f _.
  unfold release. rewrite bool_decide_eq_false_2; [done|].
  by intros [?%not_elem_of_nil _].
Qed.

Lemma elem_of_released agent_id q fs f1 :
  f1 ∈ release agent_id [q] <$> fs → f_locked f1 = true →
  f1 ∈ fs ∧ (f_locked_by f1 = Some agent_id → f_path f1 ≠ q).
Proof.
  intros (f & -> & Hf)%list_elem_of_fmap. unfold release.
  case_bool_decide as Hc; [done|]. intros Hl. split; [done|].
  intros Hown Hq. apply Hc. split; [by apply list_elem_of_singleton|done].
Qed.

Lemma elem_of_released_2 agent_id q fs f :
  f ∈ fs → ¬ (f_path f = q ∧ f_locked f = true ∧ f_locked_by f = Some agent_id) →
  f ∈ release agent_id [q] <$> fs.
Proof.
  intros Hf Hc. apply list_elem_of_fmap. exists f. split; [|done].
  unfold release. rewrite bool_decide_eq_false_2; [done|].
  rewrite list_elem_of_singleton. done.
Qed.

Lemma foldl_server_unlock_one agent_id paths fs us fl :
  NoDup (f_id <$> fs) → NoDup (f_path <$> fs) →
  ∃ us' fl',
    foldl (unlock_one agent_id) (fs, us, fl) paths
    = (release agent_id paths <$> fs, us ++ us', fl ++ fl') ∧
    (∀ p, p ∈ us' ↔
          p ∈ paths ∧ ∃ f, f ∈ fs ∧ f_path f = p ∧ f_locked f = true ∧
                           f_locked_by f = Some agent_id) ∧
    (∀ p o, (p, o) ∈ fl' ↔
            p ∈ paths ∧ ∃ f, f ∈ fs ∧ f_path f = p ∧ f_locked f = true ∧
                             f_locked_by f = o ∧ o ≠ Some agent_id).
Proof.
  revert fs us fl. induction paths as [|q paths IH]; intros fs us fl Hids Hpaths.
  { exists [], []. cbn [foldl]. rewrite release_nil, !app_nil_r.
    split; [done|]. split; intros; rewrite !elem_of_nil; tauto. }
  cbn [foldl].
  destruct (server_unlock_one agent_id fs us fl q Hids Hpaths)
    as (us1 & fl1 & -> & Hus1 & Hfl1).
  destruct (IH (release agent_id [q] <$> fs) (us ++ us1) (fl ++ fl1))
    as (us2 & fl2 & -> & Hus2 & Hfl2).
  { rewrite <-list_fmap_compose.
    rewrite (list_fmap_ext (f_id ∘ release agent_id [q]) f_id fs); [done|].
    intros i f _. apply f_id_release. }
  { rewrite <-list_fmap_compose.
    rewrite (list_fmap_ext (f_path ∘ release agent_id [q]) f_path fs); [done|].
    intros i f _. apply f_path_release. }
  exists (us1 ++ us2), (fl1 ++ fl2). rewrite !app_assoc. split; [|split].
  - do 2 f_equal. rewrite <-list_fmap_compose. apply list_fmap_ext.
    intros i f _. apply release_release.
  - intros p. rewrite elem_of_app, Hus1, Hus2, elem_of_cons. split.
    + intros [(-> & f & Hf)|(Hin & f1 & Hf1 & Hp & Hl & Hown)].
      * split; [by left|by exists f].
      * apply elem_of_released in Hf1 as [Hf1 _]; [|done].
        split; [by right|by exists f1].
    + intros ([->|Hin] & f & Hf & Hp & Hl & Hown).
      * left. split; [done|by exists f].
      * destruct (decide (p = q)) as [->|Hne].
        -- left. split; [done|by exists f].
        -- right. split; [done|]. exists f. split; [|done].
           apply elem_of_released_2; [done|]. intros [? _]. congruence.
  - intros p o. rewrite elem_of_app, Hfl1, Hfl2, elem_of_cons. split.
    + intros [(-> & f & Hf)|(Hin & f1 & Hf1 & Hp & Hl & Ho)].
      * split; [by left|by exists f].
      * apply elem_of_released in Hf1 as [Hf1 _]; [|done].
        split; [by right|by exists f1].
    + intros ([->|Hin] & f & Hf & Hp & Hl & Ho & Hne).
      * left. split; [done|by exists f].
      * right. split; [done|]. exists f. split; [|done].
        apply elem_of_released_2; [done|]. intros (_ & _ & ?). congruence.
Qed.

(** _unlock_files releases the rows the agent holds among the requested
    paths and reports the requested paths another agent holds; no other
    row changes and a path that is not locked is passed over. *)
Lemma server_unlock_files d paths agent_id :
  NoDup (f_id <$> files d) → NoDup (f_path <$> files d) →
  let r := (_unlock_files d paths agent_id).1 in
  let d' := (_unlock_files d paths agent_id).2 in
  d' = with_files d (release agent_id paths <$> files d) ∧
  (∀ p, p ∈ unlocked r ↔
        p ∈ paths ∧ ∃ f, f ∈ files d ∧ f_path f = p ∧ f_locked f = true ∧
                         f_locked_by f = Some agent_id) ∧
  (∀ p o, (p, o) ∈ unlock_failed r ↔
          p ∈ paths ∧ ∃ f, f ∈ files d ∧ f_path f = p ∧ f_locked f = true ∧
                           f_locked_by f = o ∧ o ≠ Some agent_id).
Proof.
  intros Hids Hpaths. unfold _unlock_files.
  destruct (foldl_server_unlock_one agent_id paths (files d) [] [] Hids Hpaths)
    as (us & fl & -> & Hus & Hfl).
  cbn [fst snd unlocked unlock_failed app]. done.
Qed.

End server_unlock.

(** * The keys of the table [files] of server.py *)

Lemma lastrowid_fresh ids : lastrowid ids ∉ ids.
Proof.
  assert (∀ x, x ∈ ids → x ≤ foldr Z.max 0 ids) as Hmax.
  { induction ids as [|y ids IH]; intros x Hx.
    - by apply not_elem_of_nil in Hx.
    - cbn [foldr]. apply elem_of_cons in Hx as [->|Hx]; [lia|].
      specialize (IH x Hx). lia. }
  intros Hin. apply Hmax in Hin. unfold lastrowid in Hin. lia.
Qed.

Section server_files_wf.

Import Server.

Implicit Types (fs : list file_row).

Lemma file_by_path_None fs p :
  file_by_path fs p = None → p ∉ f_path <$> fs.
Proof.
  unfold file_by_path. intros Hnone (f & -> & Hf)%list_elem_of_fmap.
  eapply find_none in Hnone; [|by apply list_elem_of_In].
  cbn beta in Hnone. by rewrite bool_decide_eq_true_2 in Hnone.
Qed.

Lemma files_wf_snoc fs p locked_ by_ :
  files_wf fs → file_by_path fs p = None →
  files_wf (fs ++ [mk_file (lastrowid (f_id <$> fs)) p locked_ by_]).
Proof.
  intros [Hids Hpaths] Hnone. unfold files_wf. rewrite !fmap_app.
  cbn [fmap list_fmap f_id f_path]. split.
  - apply NoDup_app. split; [done|]. split; [|apply NoDup_singleton].
    intros x Hx ->%list_elem_of_singleton. by apply lastrowid_fresh in Hx.
  - apply NoDup_app. split; [done|]. split; [|apply NoDup_singleton].
    intros x Hx ->%list_elem_of_singleton. by apply file_by_path_None in Hx.
Qed.

Lemma files_wf_fmap (g : file_row → file_row) fs :
  (∀ f, f_id (g f) = f_id f) → (∀ f, f_path (g f) = f_path f) →
  files_wf fs → files_wf (g <$> fs).
Proof.
  intros Hid Hpath [Hids Hpaths]. unfold files_wf.
  rewrite <-!list_fmap_compose.
  rewrite (list_fmap_ext (f_id ∘ g) f_id fs) by (intros; apply Hid).
  by rewrite (list_fmap_ext (f_path ∘ g) f_path fs) by (intros; apply Hpath).
Qed.

Lemma files_wf_set_lock_where_id fs id locked_ by_ :
  files_wf fs → files_wf (set_lock_where_id fs id locked_ by_).
Proof. apply files_wf_fmap; intros f; by case_bool_decide. Qed.

Lemma files_wf_create_todo_item d task_id title description order deps paths :
  files_wf (files d) →
  files_wf (files (_create_todo_item d task_id title description order deps paths).2).
Proof.
  intros Hwf. unfold _create_todo_item. case_match; [|done].
  assert (∀ st, files_wf st.1 →
                files_wf (foldl (add_file (lastrowid (ti_id <$> todo_items d)))
                            st paths).1) as Hfold.
  { induction paths as [|p paths IH]; intros st Hst; [done|].
    cbn [foldl]. apply IH. destruct st as [fs links]. unfold add_file.
    destruct (file_by_path fs p) eqn:Hp; [done|]. by apply files_wf_snoc. }
  specialize (Hfold (files d, todo_item_files d) Hwf).
  by destruct (foldl _ _ paths).
Qed.

Lemma files_wf_lock_files d paths agent_id :
  files_wf (files d) → files_wf (files (_lock_files d paths agent_id).2).
Proof.
  intros Hwf. unfold _lock_files.
  assert (∀ st, files_wf st.1.1 →
                files_wf (foldl (lock_one agent_id) st paths).1.1) as Hfold.
  { induction paths as [|p paths IH]; intros st Hst; [done|].
    cbn [foldl]. apply IH. destruct st as [[fs ls] fl]. unfold lock_one.
    destruct (file_by_path fs p) as [r|] eqn:Hp.
    - destruct (f_locked r); cbn [negb fst]; [done|].
      by apply files_wf_set_lock_where_id.
    - by apply files_wf_snoc. }
  specialize (Hfold (files d, [], []) Hwf).
  by destruct (foldl _ _ paths) as [[fs ls] fl].
Qed.

Lemma files_wf_unlock_files d paths agent_id :
  files_wf (files d) → files_wf (files (_unlock_files d paths agent_id).2).
Proof.
  intros Hwf.
  destruct (server_unlock_files d paths agent_id) as (-> & _); [apply Hwf..|].
  apply files_wf_fmap; [apply f_id_release|apply f_path_release|done].
Qed.

End server_files_wf.

Lemma unlock_files_inv d files agent_id :
  ∃ released,
    unlock_files d files agent_id
    = (mk_unlock_result released
         (match filter (λ p, locked_by_other (file_locks d) agent_id p = true) files with
          | [] => None
          | q :: rejected => Some (q :: rejected)
          end),
       with_file_locks d (foldl (delete_lock_of agent_id) (file_locks d) files)) ∧
    ∀ p, p ∈ released ↔ p ∈ files ∧ holder d p = Some agent_id.
Proof.
  unfold unlock_files.
  destruct (foldl_unlock_one agent_id files (file_locks d) [] [])
    as (released & -> & Hrel).
  exists released. cbn [app]. split; [|done].
  by destruct (filter _ files).
Qed.

Lemma with_file_locks_id d locks :
  (∀ p, locks !! p = file_locks d !! p) → with_file_locks d locks = d.
Proof. intros H. apply map_eq in H as ->. apply with_file_locks_same. Qed.

(** C7: unlock_files (main.py, http_server.py, mcp_server_fixed.py) deletes
    the lock row of exactly the requested paths the caller holds and lists
    those paths as unlocked; the requested paths another agent holds are
    listed under the error and keep their rows; every other row, and every
    other table, is as before.  A requested path without a lock row changes
    nothing and causes no error: when no requested path is locked, the call
    returns an empty list, no error, and the store as it was.  The same
    holds of _unlock_files of server.py, where releasing a row means
    resetting its columns [locked] and [locked_by], on a table [files]
    whose identifiers and paths are keys. *)
Theorem unlock_files_releases_own_locks d sd files agent_id :
  (let r := (unlock_files d files agent_id).1 in
   let d' := (unlock_files d files agent_id).2 in
   d' = with_file_locks d (file_locks d') ∧
   (∀ p, file_locks d' !! p =
         if bool_decide (p ∈ files ∧ holder d p = Some agent_id)
         then None else file_locks d !! p) ∧
   (∀ p, p ∈ unlocked_files r ↔ p ∈ files ∧ holder d p = Some agent_id) ∧
   (∀ p, p ∈ default [] (unlock_error r) ↔
         p ∈ files ∧ ∃ other, holder d p = Some other ∧ other ≠ agent_id) ∧
   (unlock_error r = None ↔
    ∀ p, p ∈ files → holder d p = None ∨ holder d p = Some agent_id) ∧
   ((∀ p, p ∈ files → holder d p = None) →
    r = mk_unlock_result [] None ∧ d' = d)) ∧
  (Server.files_wf (Server.files sd) →
   let r := (Server._unlock_files sd files agent_id).1 in
   let sd' := (Server._unlock_files sd files agent_id).2 in
   sd' = Server.with_files sd (Server.release agent_id files <$> Server.files sd) ∧
   (∀ p, p ∈ Server.unlocked r ↔
         p ∈ files ∧
         ∃ f, f ∈ Server.files sd ∧ Server.f_path f = p ∧
              Server.f_locked f = true ∧ Server.f_locked_by f = Some agent_id) ∧
   (∀ p o, (p, o) ∈ Server.unlock_failed r ↔
           p ∈ files ∧
           ∃ f, f ∈ Server.files sd ∧ Server.f_path f = p ∧
                Server.f_locked f = true ∧ Server.f_locked_by f = o ∧
                o ≠ Some agent_id)).
Proof.
  split; [|intros [Hids Hpaths]; by apply server_unlock_files].
  destruct (unlock_files_inv d files agent_id) as (released & -> & Hrel).
  cbn [fst snd with_file_locks file_locks unlocked_files unlock_error].
  assert (∀ p, p ∈ filter (λ p, locked_by_other (file_locks d) agent_id p = true) files ↔
               p ∈ files ∧ ∃ other, holder d p = Some other ∧ other ≠ agent_id)
    as Hrej.
  { intros p. rewrite list_elem_of_filter, holder_other. tauto. }
  split; [done|]. split; [|split; [done|split; [|split]]].
  - intros p. apply lookup_foldl_delete_lock_of.
  - intros p. rewrite <-Hrej. by destruct (filter _ files).
  - split.
    + intros Hnone p Hin. apply holder_free.
      destruct (locked_by_other (file_locks d) agent_id p) eqn:Hp; [|done].
      assert (p ∈ filter (λ p, locked_by_other (file_locks d) agent_id p = true) files)
        as Hf by (by apply list_elem_of_filter).
      destruct (filter _ files); [by apply not_elem_of_nil in Hf|done].
    + intros Hfree. destruct (filter _ files) as [|q rejected] eqn:Hf; [done|].
      assert (q ∈ files ∧ ∃ other, holder d q = Some other ∧ other ≠ agent_id)
        as (Hin & other & Hq & Hne) by (apply Hrej, elem_of_cons; by left).
      destruct (Hfree q Hin); congruence.
  - intros Hnone.
    assert (released = []) as ->.
    { apply elem_of_nil_inv. intros p (Hin & Hp)%Hrel.
      rewrite (Hnone p Hin) in Hp. done. }
    assert (filter (λ p, locked_by_other (file_locks d) agent_id p = true) files = [])
      as ->.
    { apply elem_of_nil_inv. intros p (Hin & other & Hp & _)%Hrej.
      rewrite (Hnone p Hin) in Hp. done. }
    split; [done|]. apply with_file_locks_id. intros p.
    rewrite lookup_foldl_delete_lock_of. rewrite bool_decide_eq_false_2; [done|].
    intros [Hin Hp]. specialize (Hnone p Hin). unfold holder in Hnone. congruence.
Qed.

(** agent1 asks server.py to unlock a path of agent2 and a free path. *)
Lemma unlock_files_releases_own_locks_witness :
  let r := (Server._unlock_files server_held_db ["a"; "b"] "agent1").1 in
  Server.unlock_failed r = [("b", Some "agent2")] ∧
  ∀ p, p ∈ Server.unlocked r ↔
       p ∈ ["a"; "b"] ∧
       ∃ f, f ∈ Server.files server_held_db ∧ Server.f_path f = p ∧
            Server.f_locked f = true ∧ Server.f_locked_by f = Some "agent1".
Proof.
  split; [vm_compute; reflexivity|].
  refine (proj1 (proj2 (proj2 (unlock_files_releases_own_locks empty_db
            server_held_db ["a"; "b"] "agent1") _))).
  split; vm_compute; apply NoDup_singleton.
Defined.

(** * Eligibility: dependencies and locks *)

Lemma has_foreign_lock_true d agent_id t :
  has_foreign_lock d agent_id t = true ↔
  ∃ p other, (Todo.id t, p) ∈ todo_files d ∧
             holder d p = Some other ∧ other ≠ agent_id.
Proof.
  unfold has_foreign_lock. rewrite existsb_exists. split.
  - intros ([id p] & Hin & H). apply andb_true_iff in H as [Hid Hother].
    apply bool_decide_eq_true in Hid. cbn [fst snd] in *. subst id.
    apply holder_other in Hother as (other & Hp & Hne).
    exists p, other. by rewrite list_elem_of_In.
  - intros (p & other & Hin & Hp & Hne). exists (Todo.id t, p).
    split; [by apply list_elem_of_In|]. cbn [fst snd].
    rewrite bool_decide_eq_true_2 by done. apply holder_other. eauto.
Qed.

Lemma has_foreign_lock_false d agent_id t :
  has_foreign_lock d agent_id t = false ↔
  ∀ p, (Todo.id t, p) ∈ todo_files d →
       holder d p = None ∨ holder d p = Some agent_id.
Proof.
  rewrite <-not_true_iff_false, has_foreign_lock_true. split.
  - intros Hno p Hin. apply holder_free.
    destruct (locked_by_other (file_locks d) agent_id p) eqn:Hp; [|done].
    exfalso. apply Hno. apply holder_other in Hp as (other & Hp & Hne). eauto.
  - intros Hfree (p & other & Hin & Hp & Hne).
    destruct (Hfree p Hin); congruence.
Qed.

Lemma has_incomplete_dependency_false d t :
  has_incomplete_dependency d t = false ↔
  ∀ dep, (Todo.id t, Todo.id dep) ∈ todo_dependencies d → dep ∈ todo_items d →
         Todo.status dep = "completed".
Proof.
  rewrite <-not_true_iff_false. unfold has_incomplete_dependency.
  rewrite existsb_exists. split.
  - intros Hno dep Hin Hdep.
    destruct (decide (Todo.status dep = "completed")) as [|Hst]; [done|].
    exfalso. apply Hno. exists (Todo.id t, Todo.id dep).
    split; [by apply list_elem_of_In|]. cbn [fst snd].
    rewrite bool_decide_eq_true_2 by done. cbn [andb].
    apply existsb_exists. exists dep. split; [by apply list_elem_of_In|].
    rewrite bool_decide_eq_true_2 by done.
    by rewrite bool_decide_eq_false_2.
  - intros Hall ([id dep_id] & Hin & H). apply andb_true_iff in H as [Hid H].
    apply bool_decide_eq_true in Hid. cbn [fst snd] in *. subst id.
    apply existsb_exists in H as (dep & Hdep & H).
    apply andb_true_iff in H as [Hdid Hst].
    apply bool_decide_eq_true in Hdid. subst dep_id.
    apply negb_true_iff, bool_decide_eq_false in Hst. apply Hst.
    apply Hall; by apply list_elem_of_In.
Qed.

Lemma next_available_is_Some d project_id agent_id r :
  r ∈ todo_join_tasks d → available d project_id agent_id r = true →
  is_Some (next_available d project_id agent_id).
Proof.
  intros Hin Hav. unfold next_available.
  apply fmap_is_Some, head_is_Some. intros Hnil.
  assert (r ∈ merge_sort order_le
                (filter (λ r, available d project_id agent_id r = true)
                        (todo_join_tasks d))) as Hr.
  { rewrite merge_sort_Permutation. by apply list_elem_of_filter. }
  rewrite Hnil in Hr. by apply not_elem_of_nil in Hr.
Qed.

Lemma server_item_available sd completed_ids item :
  Server.item_available sd completed_ids item = true →
  Server.ti_status item.1 = "pending" ∧
  (∀ t, t ∈ Server.tasks sd → Server.t_id t ∈ Server.t_dependencies item.2 →
        Server.t_status t = "completed") ∧
  (∀ dep_id, dep_id ∈ Server.ti_dependencies item.1 → dep_id ∈ completed_ids) ∧
  (∀ f, f ∈ Server.files_of sd (Server.ti_id item.1) → Server.f_locked f = false).
Proof.
  unfold Server.item_available.
  case_bool_decide as Hst; [|done]. cbn [negb].
  destruct (match Server.t_dependencies item.2 with [] => false | _ :: _ => _ end)
    eqn:Htasks; [done|].
  destruct (forallb _ _) eqn:Hdeps; [|done]. cbn [negb].
  destruct (filter (λ f, Server.f_locked f = true)
              (Server.files_of sd (Server.ti_id item.1)))
    as [|f0 fs0] eqn:Hlocked; [|done].
  intros _. split; [done|]. split; [|split].
  - intros t Ht Hdep.
    destruct (Server.t_dependencies item.2) as [|x deps] eqn:Hd.
    { by apply not_elem_of_nil in Hdep. }
    apply bool_decide_eq_false in Htasks.
    destruct (decide (Server.t_status t = "completed")) as [|Hne]; [done|].
    exfalso. apply Htasks. unfold Server.incomplete_tasks.
    assert (t ∈ filter (λ t, Server.t_id t ∈ x :: deps ∧
                             Server.t_status t ≠ "completed") (Server.tasks sd))
      as Hf by (by apply list_elem_of_filter).
    destruct (filter _ (Server.tasks sd)); [by apply not_elem_of_nil in Hf|].
    cbn [length]. lia.
  - intros dep_id Hin. rewrite forallb_forall in Hdeps.
    apply list_elem_of_In, Hdeps in Hin. by apply bool_decide_eq_true in Hin.
  - intros f Hf. destruct (Server.f_locked f) eqn:Hl; [|done].
    assert (f ∈ filter (λ f, Server.f_locked f = true)
                  (Server.files_of sd (Server.ti_id item.1))) as Hin
      by (by apply list_elem_of_filter).
    rewrite Hlocked in Hin. by apply not_elem_of_nil in Hin.
Qed.

(** C5 (as stated, refuted on server.py): the todo item "A" is pending and
    has no dependency, and its only file is locked by agent1 itself; yet
    _get_next_todo_item of server.py has no item for agent1. *)
Lemma server_self_lock_blocks :
  Server.todo_items server_self_lock_db
    = [Server.mk_todo 1 "A" "" 1 "pending" 0 []] ∧
  Server.files server_self_lock_db
    = [Server.mk_file 1 "f1.txt" true (Some "agent1")] ∧
  Server._get_next_todo_item server_self_lock_db "P" "agent1"
    = (Server.NoAvailable, server_self_lock_db).
Proof. vm_compute. done. Qed.

(** C5 (amended): in the query of main.py and http_server.py a file locked
    by the requesting agent does not block.  If every file of a todo item
    is unlocked or locked by the requester, the lock clause of the query
    holds, the item is available as soon as it is a pending, unassigned
    item of the project without incomplete dependency, and
    get_next_todo_item then returns an item.  The lock clause fails exactly
    when a file of the item is locked by another agent.  In server.py any
    lock blocks: an item the loop of _get_next_todo_item accepts has no
    locked file at all. *)
Theorem self_lock_does_not_block d project_name project_row agent_id t task :
  ((∀ p, (Todo.id t, p) ∈ todo_files d →
         holder d p = None ∨ holder d p = Some agent_id) →
   has_foreign_lock d agent_id t = false ∧
   (project_by_name d project_name = Some project_row →
    (t, task) ∈ todo_join_tasks d →
    Task.project_id task = Project.id project_row →
    Todo.status t = "pending" → Todo.assigned_agent t = None →
    has_incomplete_dependency d t = false →
    available d (Project.id project_row) agent_id (t, task) = true ∧
    ∃ row files,
      Main.get_next_todo_item d project_name agent_id = (NextItem row files, d))) ∧
  (has_foreign_lock d agent_id t = true ↔
   ∃ p other, (Todo.id t, p) ∈ todo_files d ∧
              holder d p = Some other ∧ other ≠ agent_id) ∧
  (∀ sd completed_ids item,
     Server.item_available sd completed_ids item = true →
     ∀ f, f ∈ Server.files_of sd (Server.ti_id item.1) →
          Server.f_locked f = false).
Proof.
  split; [|split].
  - intros Hfree. apply has_foreign_lock_false in Hfree. split; [done|].
    intros Hproj Hin Hpid Hst Hag Hdeps.
    assert (available d (Project.id project_row) agent_id (t, task) = true) as Hav
      by (by apply available_spec).
    split; [done|].
    destruct (next_available_is_Some _ _ _ _ Hin Hav) as [row Hrow].
    exists row, (files_of d (Todo.id row)).
    unfold Main.get_next_todo_item. by rewrite Hproj, Hrow.
  - apply has_foreign_lock_true.
  - intros sd completed_ids item Hav.
    by destruct (server_item_available _ _ _ Hav) as (_ & _ & _ & ?).
Qed.

(** Item "B" is on a file that agent1 itself holds. *)
Lemma self_lock_does_not_block_witness :
  has_foreign_lock main_started_db "agent1" (Todo.mk 2 1 "B" "" 1 "pending" None 0 0)
  = false.
Proof.
  refine (proj1 (proj1 (self_lock_does_not_block main_started_db "P"
            (Project.mk 1 "P" "demo" "pending" 0 0) "agent1"
            (Todo.mk 2 1 "B" "" 1 "pending" None 0 0)
            (Task.mk 1 1 "T" "" 0 "pending" 0 0)) _)).
  intros p Hin. right.
  assert (p = "f1.txt") as ->.
  { change (todo_files main_started_db) with [(1, "f1.txt"); (2, "f1.txt")] in Hin.
    apply elem_of_cons in Hin as [[=]|Hin].
    apply list_elem_of_singleton in Hin. congruence. }
  vm_compute. reflexivity.
Defined.

(** C2: main.py returns a todo item of a task whose prerequisite task is
    not completed.  In the store below, which the tools of main.py produce,
    task 2 depends on task 1, task 1 is pending, and get_next_todo_item
    returns item "X" of task 2.  _get_next_todo_item of server.py, on the
    same plan, returns no item. *)
Theorem main_get_next_todo_item_ignores_task_dependencies :
  Main.reachable task_dependency_db ∧
  (2, 1) ∈ task_dependencies task_dependency_db ∧
  Task.status <$> task_by_id task_dependency_db 1 = Some "pending" ∧
  Main.get_next_todo_item task_dependency_db "P" "agent1"
    = (NextItem (Todo.mk 1 2 "X" "" 0 "pending" None 0 0) [], task_dependency_db) ∧
  Server._get_next_todo_item server_task_dependency_db "P" "agent1"
    = (Server.NoAvailable, server_task_dependency_db).
Proof.
  split; [apply main_reachable_foldl; constructor|].
  split; [apply list_elem_of_singleton; reflexivity|].
  vm_compute. done.
Qed.

(** * Dependency gating *)

(** What main.py and http_server.py do guarantee: every dependency of the
    returned item that names a row of todo_items is completed. *)
Lemma main_get_next_todo_item_dependencies d project_name agent_id row files d' :
  Main.get_next_todo_item d project_name agent_id = (NextItem row files, d') →
  ∀ dep, (Todo.id row, Todo.id dep) ∈ todo_dependencies d → dep ∈ todo_items d →
         Todo.status dep = "completed".
Proof.
  intros (p & _ & Hnext & _)%main_get_next_todo_item_inv.
  apply next_available_Some in Hnext as (task & _ & Hav).
  apply available_spec in Hav as (_ & _ & _ & Hdeps & _).
  by apply has_incomplete_dependency_false.
Qed.

Section server_gating.

Import Server.

Lemma elem_of_project_items d project_id ti t :
  (ti, t) ∈ project_items d project_id ↔
  ti ∈ todo_items d ∧ t ∈ tasks d ∧ ti_task_id ti = t_id t ∧
  t_project_id t = project_id.
Proof.
  unfold project_items. rewrite list_elem_of_bind. split.
  - intros (ti' & Hin & Hti).
    apply list_elem_of_bind in Hin as (t' & Hs & Ht).
    apply list_elem_of_singleton in Hs. apply list_elem_of_filter in Ht.
    naive_solver.
  - intros (Hti & Ht & Heq & Hp). exists ti. split; [|done].
    apply list_elem_of_bind. exists t.
    split; [by apply list_elem_of_singleton|]. by apply list_elem_of_filter.
Qed.

(** server.py gates on both kinds of dependency: the item it returns is
    pending, every task its task depends on is completed, and each of
    its own dependencies is a completed item of the project. *)
Lemma server_get_next_todo_item_gated d project_name agent_id item task_name paths d' :
  _get_next_todo_item d project_name agent_id = (NextItem item task_name paths, d') →
  ∃ task,
    item ∈ todo_items d ∧ task ∈ tasks d ∧ ti_task_id item = t_id task ∧
    ti_status item = "pending" ∧
    (∀ t, t ∈ tasks d → t_id t ∈ t_dependencies task →
          t_status t = "completed") ∧
    (∀ dep_id, dep_id ∈ ti_dependencies item →
               ∃ dep, dep ∈ todo_items d ∧ ti_id dep = dep_id ∧
                      ti_status dep = "completed").
Proof.
  unfold _get_next_todo_item.
  destruct (project_by_name d project_name) as [project|]; [|done].
  destruct (find _ _) as [[ti t]|] eqn:Hfind; [|done].
  intros [= <- <- <- <-].
  apply find_some in Hfind as [Hin Hav].
  apply list_elem_of_In in Hin. rewrite merge_sort_Permutation in Hin.
  apply elem_of_project_items in Hin as (Hti & Ht & Heq & _).
  apply server_item_available in Hav as (Hst & Htasks & Hdeps & _).
  exists t. do 5 (split; [done|]).
  intros dep_id Hdep. apply Hdeps in Hdep.
  apply list_elem_of_fmap in Hdep as ([dep tdep] & -> & Hin).
  apply list_elem_of_filter in Hin as [Hc Hin].
  apply elem_of_project_items in Hin as (Hdep & _).
  by exists dep.
Qed.

End server_gating.

(** * Rounding to integers and to binary64 numbers *)

Lemma round_half_even_lower (a : Z) (q : Q) :
  (inject_Z a <= q)%Q → a ≤ round_half_even q.
Proof.
  intros Ha.
  assert (a ≤ Qfloor q) as Hlow.
  { rewrite <-(Qfloor_Z a). by apply Qfloor_resp_le. }
  unfold round_half_even.
  destruct ((q - inject_Z (Qfloor q)) ?= 1 # 2)%Q;
    [destruct (Z.even (Qfloor q))|..]; lia.
Qed.

Lemma round_half_even_upper (b : Z) (q : Q) :
  (q <= inject_Z b)%Q → round_half_even q ≤ b.
Proof.
  intros Hb.
  assert (Qfloor q ≤ b) as Hhigh.
  { rewrite <-(Qfloor_Z b). by apply Qfloor_resp_le. }
  assert (Qfloor q = b → ((q - inject_Z (Qfloor q)) ?= 1 # 2)%Q = Lt) as Htop.
  { intros Heq. apply (proj1 (Qlt_alt _ _)). rewrite Heq.
    apply Qle_lt_trans with (y := 0%Q); [|done].
    apply (Qplus_le_l _ _ (inject_Z b)). ring_simplify. exact Hb. }
  unfold round_half_even.
  destruct ((q - inject_Z (Qfloor q)) ?= 1 # 2)%Q eqn:Hc.
  - destruct (Z.even (Qfloor q)); [lia|].
    destruct (decide (Qfloor q = b)) as [Heq|]; [|lia].
    specialize (Htop Heq). congruence.
  - lia.
  - destruct (decide (Qfloor q = b)) as [Heq|]; [|lia].
    specialize (Htop Heq). congruence.
Qed.

Lemma round_half_even_bounds (a b : Z) (q : Q) :
  (inject_Z a <= q)%Q → (q <= inject_Z b)%Q →
  a ≤ round_half_even q ∧ round_half_even q ≤ b.
Proof.
  intros Ha Hb.
  split; [by apply round_half_even_lower|by apply round_half_even_upper].
Qed.

Lemma round_half_even_Z (n : Z) (q : Q) :
  (q == inject_Z n)%Q → round_half_even q = n.
Proof.
  intros Hq. unfold round_half_even.
  rewrite (Qfloor_comp _ _ Hq), Qfloor_Z.
  assert (((q - inject_Z n) ?= 1 # 2)%Q = Lt) as ->; [|done].
  apply (proj1 (Qlt_alt _ _)). rewrite Hq.
  apply Qle_lt_trans with (y := 0%Q); [|done].
  apply (Qplus_le_l _ _ (inject_Z n)). ring_simplify. apply Qle_refl.
Qed.

Lemma inject_Z_pow2 (n : Z) : 0 ≤ n → (inject_Z (2 ^ n) == 2 ^ n)%Q.
Proof. intros Hn. by rewrite (Zpower_Qpower 2 n Hn). Qed.

Lemma Qnum_pos (q : Q) : (0 < q)%Q ↔ 0 < Qnum q.
Proof. unfold Qlt. cbn [Qnum Qden]. lia. Qed.

(** [ilog2] does not exceed the binary logarithm. *)
Lemma ilog2_le (q : Q) : (0 < q)%Q → (2 ^ ilog2 q <= q)%Q.
Proof.
  intros Hq. unfold ilog2.
  set (k := Z.log2 (Qnum q) - Z.log2 (Z.pos (Qden q))).
  destruct (Qle_bool (2 ^ k) q) eqn:Hle; [by apply Qle_bool_iff|].
  destruct q as [a b]. cbn [Qnum Qden] in *.
  apply Qnum_pos in Hq. cbn [Qnum] in Hq.
  destruct (Z.log2_spec a Hq) as [Ha _].
  destruct (Z.log2_spec (Z.pos b)) as [_ Hb]; [done|].
  pose proof (Z.log2_nonneg a) as Hla.
  pose proof (Z.log2_nonneg (Z.pos b)) as Hlb.
  replace (k - 1) with (Z.log2 a - Z.succ (Z.log2 (Z.pos b))) by (unfold k; lia).
  rewrite Qpower_minus by done.
  rewrite <-!inject_Z_pow2 by lia.
  set (X := 2 ^ Z.log2 a) in *. set (P := 2 ^ Z.succ (Z.log2 (Z.pos b))) in *.
  apply Qle_shift_div_r.
  - change 0%Q with (inject_Z 0). rewrite <-Zlt_Qlt. lia.
  - unfold Qle, Qmult, inject_Z. cbn [Qnum Qden]. nia.
Qed.

(** Below 2^53 the exponent of the last place is not positive. *)
Lemma exponent_nonpos (q : Q) :
  (0 < q)%Q → (q < inject_Z (2 ^ 53))%Q → ilog2 q - 52 ≤ 0.
Proof.
  intros Hq Hlt. pose proof (ilog2_le q Hq) as Hle.
  assert (2 ^ ilog2 q < 2 ^ 53)%Q as Hpow.
  { eapply Qle_lt_trans; [exact Hle|]. by rewrite <-inject_Z_pow2. }
  apply Qpower_lt_compat_l_inv in Hpow; [lia|done].
Qed.

Lemma scale_nonpos (e : Z) (x : Q) :
  e ≤ 0 →
  (x / 2 ^ e == x * inject_Z (2 ^ (- e)))%Q ∧
  (x * 2 ^ e == x / inject_Z (2 ^ (- e)))%Q ∧
  0 < 2 ^ (- e).
Proof.
  intros He.
  assert (2 ^ e == / inject_Z (2 ^ (- e)))%Q as Hpow.
  { rewrite inject_Z_pow2 by lia. rewrite <-Qpower_opp.
    by replace (- - e) with e by lia. }
  assert (0 < 2 ^ (- e)) as Hpos by (apply Z.pow_pos_nonneg; lia).
  split; [|split; [|done]].
  - rewrite Hpow. unfold Qdiv. by rewrite Qinv_involutive.
  - by rewrite Hpow.
Qed.

Lemma round_binary64_pos (q : Q) :
  (0 < q)%Q →
  (round_binary64 q
   == inject_Z (round_half_even (q / 2 ^ (ilog2 q - 52))) * 2 ^ (ilog2 q - 52))%Q.
Proof.
  intros Hq%Qnum_pos. unfold round_binary64.
  destruct (Qnum q); [lia| |lia]. apply Qred_correct.
Qed.

Lemma round_binary64_nonneg (q : Q) : (0 <= q)%Q → (0 <= round_binary64 q)%Q.
Proof.
  intros Hq. destruct (Qlt_le_dec 0 q) as [Hpos|Hle].
  - rewrite (round_binary64_pos q Hpos).
    apply Qmult_le_0_compat; [|apply Qlt_le_weak, Qpower_0_lt; done].
    change 0%Q with (inject_Z 0). rewrite <-Zle_Qle.
    apply round_half_even_lower.
    apply Qle_shift_div_l; [by apply Qpower_0_lt|].
    change (inject_Z 0) with 0%Q. rewrite Qmult_0_l. exact Hq.
  - assert (Qnum q = 0) as Hzero.
    { unfold Qle in Hq, Hle. cbn [Qnum Qden] in Hq, Hle. lia. }
    unfold round_binary64. by rewrite Hzero.
Qed.

(** An integer below 2^53 is a binary64 number: rounding does not cross
    it, and leaves it as it is. *)
Lemma round_binary64_le_Z (B : Z) (q : Q) :
  (0 <= q)%Q → (q <= inject_Z B)%Q → B < 2 ^ 53 →
  (round_binary64 q <= inject_Z B)%Q.
Proof.
  intros Hq HB Hsmall. destruct (Qlt_le_dec 0 q) as [Hpos|Hle].
  - rewrite (round_binary64_pos q Hpos).
    assert (ilog2 q - 52 ≤ 0) as He.
    { apply exponent_nonpos; [done|].
      eapply Qle_lt_trans; [exact HB|]. rewrite <-Zlt_Qlt. lia. }
    set (e := ilog2 q - 52) in *.
    destruct (scale_nonpos e q He) as (Hdiv & _ & HP).
    destruct (scale_nonpos e (inject_Z (round_half_even (q / 2 ^ e))) He)
      as (_ & -> & _).
    apply Qle_shift_div_r.
    { change 0%Q with (inject_Z 0). by rewrite <-Zlt_Qlt. }
    rewrite <-inject_Z_mult, <-Zle_Qle.
    apply round_half_even_upper. rewrite Hdiv, inject_Z_mult.
    apply Qmult_le_compat_r; [done|].
    change 0%Q with (inject_Z 0). rewrite <-Zle_Qle. lia.
  - assert (Qnum q = 0) as Hzero.
    { unfold Qle in Hq, Hle. cbn [Qnum Qden] in Hq, Hle. lia. }
    unfold round_binary64. rewrite Hzero.
    eapply Qle_trans; [exact Hq|exact HB].
Qed.

Lemma round_binary64_Z (n : Z) (q : Q) :
  (q == inject_Z n)%Q → 0 ≤ n → n < 2 ^ 53 →
  (round_binary64 q == inject_Z n)%Q.
Proof.
  intros Hq Hn Hsmall. destruct (decide (n = 0)) as [->|Hnz].
  - assert (Qnum q = 0) as Hzero.
    { unfold Qeq in Hq. cbn [Qnum Qden inject_Z] in Hq. lia. }
    unfold round_binary64. by rewrite Hzero.
  - assert (0 < q)%Q as Hpos.
    { rewrite Hq. change 0%Q with (inject_Z 0). rewrite <-Zlt_Qlt. lia. }
    rewrite (round_binary64_pos q Hpos).
    assert (ilog2 q - 52 ≤ 0) as He.
    { apply exponent_nonpos; [done|]. rewrite Hq, <-Zlt_Qlt. lia. }
    set (e := ilog2 q - 52) in *.
    destruct (scale_nonpos e q He) as (Hdiv & _ & HP).
    destruct (scale_nonpos e (inject_Z (round_half_even (q / 2 ^ e))) He)
      as (_ & -> & _).
    rewrite (round_half_even_Z (n * 2 ^ (- e)))
      by (by rewrite Hdiv, Hq, inject_Z_mult).
    rewrite inject_Z_mult. apply Qdiv_mult_l.
    change 0%Q with (inject_Z 0). rewrite inject_Z_injective. lia.
Qed.

(** The exact ratio of two counts, as a percentage. *)
Lemma ratio_bounds (c t : Z) :
  0 ≤ c → c ≤ t →
  (0 <= inject_Z c / inject_Z (Z.max t 1) * 100)%Q ∧
  (inject_Z c / inject_Z (Z.max t 1) * 100 <= 100)%Q ∧
  (0 < t → c = t → (inject_Z c / inject_Z (Z.max t 1) * 100 == 100)%Q).
Proof.
  intros Hc Hct.
  assert (0 < inject_Z (Z.max t 1))%Q as Hpos.
  { change 0%Q with (inject_Z 0). rewrite <-Zlt_Qlt. lia. }
  split; [|split].
  - apply Qmult_le_0_compat; [|done].
    apply Qle_shift_div_l; [done|]. rewrite Qmult_0_l.
    change 0%Q with (inject_Z 0). rewrite <-Zle_Qle. lia.
  - rewrite <-(Qmult_1_l 100) at 2. apply Qmult_le_compat_r; [|done].
    apply Qle_shift_div_r; [done|]. rewrite Qmult_1_l.
    rewrite <-Zle_Qle. lia.
  - intros Ht ->. rewrite Z.max_l by lia.
    rewrite <-(Qmult_1_l (inject_Z t)) at 1.
    rewrite Qdiv_mult_l; [done|].
    intros Heq. apply Qlt_not_eq in Hpos. rewrite Z.max_l in Hpos by lia.
    apply Hpos. by symmetry.
Qed.

(** The value of [round((c / max(t, 1)) * 100, 1)] for counts
    [0 <= c <= t]. *)
Lemma percentage_bounds (c t : Z) :
  0 ≤ c → c ≤ t →
  let p := py_round1
             (float_mul (round_binary64 (inject_Z c / inject_Z (Z.max t 1))) 100) in
  (0 <= p)%Q ∧ (p <= 100)%Q ∧ (0 < t → c = t → (p == 100)%Q).
Proof.
  intros Hc Hct.
  assert (0 < inject_Z (Z.max t 1))%Q as Hpos.
  { change 0%Q with (inject_Z 0). rewrite <-Zlt_Qlt. lia. }
  set (x0 := (inject_Z c / inject_Z (Z.max t 1))%Q) in *.
  assert (0 <= x0)%Q as Hx0.
  { apply Qle_shift_div_l; [done|]. rewrite Qmult_0_l.
    change 0%Q with (inject_Z 0). rewrite <-Zle_Qle. lia. }
  assert (x0 <= 1)%Q as Hx1.
  { apply Qle_shift_div_r; [done|]. rewrite Qmult_1_l.
    rewrite <-Zle_Qle. lia. }
  set (x := round_binary64 x0).
  assert (0 <= x)%Q as Hx by by apply round_binary64_nonneg.
  assert (x <= 1)%Q as Hx' by by apply (round_binary64_le_Z 1).
  unfold float_mul. set (y := round_binary64 (x * 100)).
  assert (0 <= x * 100)%Q as Hy0 by by apply Qmult_le_0_compat.
  assert (x * 100 <= inject_Z 100)%Q as Hy1.
  { change (inject_Z 100) with (1 * 100)%Q. by apply Qmult_le_compat_r. }
  assert (0 <= y)%Q as Hy by by apply round_binary64_nonneg.
  assert (y <= 100)%Q as Hy' by by apply (round_binary64_le_Z 100).
  unfold py_round1.
  destruct (round_half_even_bounds 0 1000 (y * 10)) as [Hz0 Hz1].
  { change (inject_Z 0) with (0 * 10)%Q. by apply Qmult_le_compat_r. }
  { change (inject_Z 1000) with (100 * 10)%Q. by apply Qmult_le_compat_r. }
  set (z := (round_half_even (y * 10) # 10)%Q).
  assert (0 <= z)%Q as Hz by (unfold z, Qle; cbn [Qnum Qden]; lia).
  assert (z <= inject_Z 100)%Q as Hz'
    by (unfold z, Qle; cbn [Qnum Qden inject_Z]; lia).
  split; [by apply round_binary64_nonneg|].
  split; [by apply (round_binary64_le_Z 100)|].
  intros Ht ->.
  assert (x0 == inject_Z 1)%Q as Hone.
  { unfold x0. rewrite Z.max_l by lia.
    rewrite <-(Qmult_1_l (inject_Z t)) at 1. apply Qdiv_mult_l.
    change 0%Q with (inject_Z 0). rewrite inject_Z_injective. lia. }
  assert (x == inject_Z 1)%Q as Hxone by by apply round_binary64_Z.
  assert (y == inject_Z 100)%Q as Hyall.
  { apply round_binary64_Z; [|done..]. by rewrite Hxone. }
  apply (round_binary64_Z 100); [|done..].
  unfold z. rewrite (round_half_even_Z 1000) by (by rewrite Hyall). done.
Qed.

(** 23 of 80: the quotient 0.2875 is not a binary64 number, the product
    with 100 falls below 28.75, and the percentage is the float of 28.7
    where exact arithmetic would give 28.8. *)
Example percentage_23_of_80 :
  float_truediv 23 80 = Some (2589569785738035 # 9007199254740992)%Q ∧
  (float_mul (2589569785738035 # 9007199254740992) 100 < 2875 # 100)%Q ∧
  completion_percentage (mk_counts 80 23 0 0)
  = Some (round_binary64 (287 # 10)) ∧
  round_half_even ((23 # 80) * 100 * 10) = 288.
Proof. by vm_compute. Qed.

(** * Completion percentages *)

Lemma completion_percentage_Some c :
  completion_percentage c
  = Some (py_round1
            (float_mul
               (round_binary64 (inject_Z (completed_todos c)
                                / inject_Z (Z.max (total_todos c) 1)))
               100)).
Proof.
  unfold completion_percentage, float_truediv.
  rewrite bool_decide_eq_false_2 by lia. done.
Qed.

Lemma count_todos_total_0 l :
  total_todos (count_todos l) = 0 → count_todos l = mk_counts 0 0 0 0.
Proof. destruct l; [done|]. cbn [count_todos total_todos length]. lia. Qed.

Lemma completion_percentage_count_todos l :
  ∃ q, completion_percentage (count_todos l) = Some q ∧
       (total_todos (count_todos l) = 0 →
        (q == 0)%Q ∧ unguarded_percentage (count_todos l) = None).
Proof.
  eexists. split; [apply completion_percentage_Some|].
  intros H. rewrite (count_todos_total_0 l H). by vm_compute.
Qed.

(** The select of the overall counts in http_server.py names a column
    that both joined tables have. *)
Lemma http_status_ambiguous : Http.resolve_unqualified "status" = None.
Proof. by vm_compute. Qed.

(** C10: get_project_status on an existing project.  On main.py it
    returns: the percentage of the project and of each of its tasks is the
    value of the guarded expression, which never divides by zero; when the
    number of todo items is zero the percentage is zero, where the same
    expression without [max(..., 1)] would raise ZeroDivisionError.  On
    http_server.py it does not return: the select of the overall counts
    over [todo_items JOIN tasks] names [status] without a table, both
    tables have that column, and the statement raises before any
    percentage is computed. *)
Theorem get_project_status_total d project_name project_row :
  project_by_name d project_name = Some project_row →
  (∃ st,
     Main.get_project_status d project_name = Some (inr st) ∧
     status_project st = project_row ∧
     completion_percentage (overall_stats st) = Some (overall_percentage st) ∧
     (total_todos (overall_stats st) = 0 →
      (overall_percentage st == 0)%Q ∧
      unguarded_percentage (overall_stats st) = None) ∧
     Forall (λ ts,
               completion_percentage (summary_counts ts)
               = Some (summary_percentage ts) ∧
               (total_todos (summary_counts ts) = 0 →
                (summary_percentage ts == 0)%Q ∧
                unguarded_percentage (summary_counts ts) = None))
            (status_tasks st)) ∧
  Http.get_project_status d project_name = None.
Proof.
  intros Hproj. split.
  - unfold Main.get_project_status. rewrite Hproj.
    set (f := λ task_row : Task.row,
           completion_percentage (count_todos (todos_of_task d (Task.id task_row)))
           ≫= λ pct, Some (mk_task_summary task_row
                              (count_todos (todos_of_task d (Task.id task_row))) pct)).
    set (l := merge_sort task_id_le _).
    destruct (mapM f l) as [tasks|] eqn:Htasks.
    + destruct (completion_percentage_count_todos
                  (todos_of_project d (Project.id project_row)))
        as (q & Hq & Hzero).
      cbn [mbind option_bind]. rewrite Hq. cbn [mbind option_bind].
      eexists. split; [done|]. cbn.
      do 3 (split; [done|]).
      apply mapM_Some in Htasks. clear -Htasks.
      induction Htasks as [|x y l k Hxy _ IH]; constructor; [|done].
      unfold f in Hxy.
      destruct (completion_percentage_count_todos (todos_of_task d (Task.id x)))
        as (q & Hq & Hzero).
      rewrite Hq in Hxy. cbn in Hxy. injection Hxy as <-.
      cbn [summary_counts summary_percentage]. done.
    + exfalso.
      assert (is_Some (mapM f l)) as [? Hs]; [|congruence].
      apply mapM_is_Some. apply Forall_forall. intros x _. unfold f. cbn.
      rewrite completion_percentage_Some. done.
  - unfold Http.get_project_status. rewrite Hproj.
    by rewrite http_status_ambiguous.
Qed.

(** The plan with two tasks, of which the first has no todo item: main.py
    answers with 0 for both tasks, http_server.py raises. *)
Lemma get_project_status_total_witness :
  Http.get_project_status
    (foldl (λ d c, Http.exec c 0 d) empty_db task_dependency_calls) "P"
  = None ∧
  ∃ st,
    Main.get_project_status task_dependency_db "P" = Some (inr st) ∧
    total_todos <$> (summary_counts <$> status_tasks st) = [0; 1] ∧
    summary_percentage <$> status_tasks st = [0%Q; 0%Q] ∧
    Forall (λ ts,
              completion_percentage (summary_counts ts)
              = Some (summary_percentage ts) ∧
              (total_todos (summary_counts ts) = 0 →
               (summary_percentage ts == 0)%Q ∧
               unguarded_percentage (summary_counts ts) = None))
           (status_tasks st).
Proof.
  split.
  - exact (proj2 (get_project_status_total
                    (foldl (λ d c, Http.exec c 0 d) empty_db
                           task_dependency_calls) "P"
                    (Project.mk 1 "P" "demo" "pending" 0 0) eq_refl)).
  - destruct (get_project_status_total task_dependency_db "P"
                (Project.mk 1 "P" "demo" "pending" 0 0) eq_refl)
      as [(st & Hst & _ & _ & _ & Htasks) _].
    exists st. split; [done|]. split; [|split; [|done]].
    + revert Hst. vm_compute. by intros [= <-].
    + revert Hst. vm_compute. by intros [= <-].
Defined.

(** get_project_status of main.py raises for no store and no name. *)
Lemma main_get_project_status_returns d project_name :
  is_Some (Main.get_project_status d project_name).
Proof.
  unfold Main.get_project_status.
  destruct (project_by_name d project_name) as [project_row|]; [|done].
  match goal with
  | |- is_Some (mapM ?f ?l ≫= _) =>
      assert (is_Some (mapM f l)) as [tasks ->]
  end.
  { apply mapM_is_Some, Forall_forall. intros x _. cbn.
    by rewrite completion_percentage_Some. }
  cbn [mbind option_bind]. by rewrite completion_percentage_Some.
Qed.

(** * Keys and references of the stores of main.py and http_server.py *)

Section well_formed.

Lemma find_snoc_fresh {A} (P : A → bool) (l : list A) x :
  (∀ y, y ∈ l → P y = false) → P x = true → find P (l ++ [x]) = Some x.
Proof.
  intros Hl Hx. induction l as [|y l IH]; cbn [app find].
  - by rewrite Hx.
  - rewrite (Hl y) by (apply elem_of_cons; by left).
    apply IH. intros z Hz. apply Hl, elem_of_cons. by right.
Qed.

Lemma find_snoc_other {A} (P : A → bool) (l : list A) x :
  P x = false → find P (l ++ [x]) = find P l.
Proof.
  intros Hx. induction l as [|y l IH]; cbn [app find].
  - by rewrite Hx.
  - by destruct (P y).
Qed.

Lemma find_elem_of {A} (P : A → bool) (l : list A) x :
  find P l = Some x → x ∈ l ∧ P x = true.
Proof. intros [H1 H2]%find_some. by rewrite list_elem_of_In. Qed.

Lemma find_is_Some {A} (P : A → bool) (l : list A) x :
  x ∈ l → P x = true → is_Some (find P l).
Proof.
  intros Hin HP. destruct (find P l) eqn:Hf; [done|].
  eapply find_none in Hf; [|by apply list_elem_of_In]. congruence.
Qed.

Lemma well_formed_empty : well_formed empty_db.
Proof.
  split.
  - repeat split; apply NoDup_nil_2.
  - repeat split; intros t Ht; by apply elem_of_nil in Ht.
Qed.

Lemma well_formed_same_items d d' :
  same_items d d' → well_formed d → well_formed d'.
Proof.
  intros (Hp & Ht & Hf & Hdep & g & Hi & Hid & Htask)
         [(K1 & K2 & K3 & K4) (L1 & L2 & L3 & L4)].
  assert (Todo.id <$> (g <$> todo_items d) = Todo.id <$> todo_items d) as Hids.
  { rewrite <-list_fmap_compose.
    apply list_fmap_ext. intros _ t _. apply Hid. }
  unfold well_formed, keyed, linked. rewrite Hp, Ht, Hi, Hf, Hdep, Hids.
  repeat split; try done.
  intros ti (t0 & -> & Hin)%list_elem_of_fmap. rewrite Htask. by apply L2.
Qed.

Lemma same_items_update_status_where_id d todo_id st ag now :
  same_items d (update_status_where_id d todo_id st ag now).
Proof.
  do 4 (split; [done|]). eexists. split; [reflexivity|].
  split; intros t; by case_bool_decide.
Qed.

Lemma same_items_shift_from d task_id order_index :
  same_items d (shift_from d task_id order_index).
Proof.
  do 4 (split; [done|]). eexists. split; [reflexivity|].
  split; intros t; by case_bool_decide.
Qed.

Lemma same_items_shift_all d task_id :
  same_items d (shift_all d task_id).
Proof.
  do 4 (split; [done|]). eexists. split; [reflexivity|].
  split; intros t; by case_bool_decide.
Qed.

Lemma same_items_refl d : same_items d d.
Proof.
  do 4 (split; [done|]). exists id. by rewrite list_fmap_id.
Qed.

Lemma same_items_main_update_todo_status d todo_id status agent_id now :
  same_items d (Main.update_todo_status d todo_id status agent_id now).2.
Proof.
  unfold Main.update_todo_status.
  destruct (negb _); [apply same_items_refl|].
  destruct (Main.todo_with_names d todo_id) as [row|]; [|apply same_items_refl].
  destruct (_ && _); [apply same_items_refl|].
  apply (same_items_update_status_where_id d todo_id).
Qed.

Lemma same_items_http_update_todo_status d todo_id status agent_id now :
  same_items d (Http.update_todo_status d todo_id status agent_id now).2.
Proof.
  unfold Http.update_todo_status.
  destruct (negb _); [apply same_items_refl|].
  destruct (todo_by_id d todo_id) as [row|]; [|apply same_items_refl].
  destruct (_ && _); [apply same_items_refl|].
  apply (same_items_update_status_where_id d todo_id).
Qed.

Lemma same_items_with_file_locks d m : same_items d (with_file_locks d m).
Proof.
  do 4 (split; [done|]). exists id. by rewrite list_fmap_id.
Qed.

Lemma same_items_lock_files d files agent_id now :
  same_items d (lock_files d files agent_id now).2.
Proof.
  unfold lock_files.
  case_match; [apply same_items_with_file_locks|apply same_items_refl].
Qed.

Lemma same_items_unlock_files d files agent_id :
  same_items d (unlock_files d files agent_id).2.
Proof.
  unfold unlock_files.
  destruct (foldl _ _ _) as [[locks unlocked] not_owned].
  apply same_items_with_file_locks.
Qed.

Lemma well_formed_create_project d name description now :
  well_formed d → well_formed (create_project d name description now).2.
Proof.
  intros Hd. unfold create_project.
  destruct (existsb _ _) eqn:Hex; [done|].
  destruct Hd as [(K1 & K2 & K3 & K4) (L1 & L2 & L3 & L4)].
  split; [|split; [|done]].
  - unfold keyed. cbn [snd projects tasks todo_items]. rewrite !fmap_app.
    cbn [fmap list_fmap Project.id Project.name].
    split; [|split; [|done]].
    + apply NoDup_app. split; [done|]. split; [|apply NoDup_singleton].
      intros x Hx ->%list_elem_of_singleton. by apply lastrowid_fresh in Hx.
    + apply NoDup_app. split; [done|]. split; [|apply NoDup_singleton].
      intros x (p & -> & Hp)%list_elem_of_fmap Heq%list_elem_of_singleton.
      apply not_true_iff_false in Hex. apply Hex, existsb_exists.
      exists p. split; [by apply list_elem_of_In|].
      by apply bool_decide_eq_true.
  - cbn [snd projects tasks]. intros t Ht.
    destruct (L1 t Ht) as (p & Hp & Heq). exists p.
    split; [|done]. apply elem_of_app. by left.
Qed.

Lemma well_formed_create_task d project_name name description order deps now :
  well_formed d →
  well_formed (create_task d project_name name description order deps now).2.
Proof.
  intros Hd. unfold create_task.
  destruct (project_by_name d project_name) as [p|] eqn:Hp; [|done].
  apply find_elem_of in Hp as [Hp _].
  destruct Hd as [(K1 & K2 & K3 & K4) (L1 & L2 & L3 & L4)].
  split; [|split; [|split; [|done]]].
  - unfold keyed. cbn [snd projects tasks todo_items]. rewrite !fmap_app.
    cbn [fmap list_fmap Task.id].
    do 2 (split; [done|]). split; [|done].
    apply NoDup_app. split; [done|]. split; [|apply NoDup_singleton].
    intros x Hx ->%list_elem_of_singleton. by apply lastrowid_fresh in Hx.
  - cbn [snd projects tasks]. intros t [Ht| ->%list_elem_of_singleton]%elem_of_app.
    + by apply L1.
    + by exists p.
  - cbn [snd tasks todo_items]. intros ti Hti.
    destruct (L2 ti Hti) as (t & Ht & Heq). exists t.
    split; [|done]. apply elem_of_app. by left.
Qed.

Lemma well_formed_insert_todo_row d task_id title description order deps files now :
  (∃ t, t ∈ tasks d ∧ Task.id t = task_id) →
  well_formed d →
  well_formed (insert_todo_row d task_id title description order deps files now).2.
Proof.
  intros (t & Ht & Hid) [(K1 & K2 & K3 & K4) (L1 & L2 & L3 & L4)].
  split; [|split; [|split; [|split]]].
  - unfold keyed. cbn [insert_todo_row snd projects tasks todo_items].
    rewrite !fmap_app. cbn [fmap list_fmap Todo.id].
    do 3 (split; [done|]).
    apply NoDup_app. split; [done|]. split; [|apply NoDup_singleton].
    intros x Hx ->%list_elem_of_singleton. by apply lastrowid_fresh in Hx.
  - done.
  - cbn [insert_todo_row snd tasks todo_items].
    intros ti [Hti| ->%list_elem_of_singleton]%elem_of_app; [by apply L2|].
    by exists t.
  - cbn [insert_todo_row snd todo_files todo_items]. rewrite fmap_app.
    intros tf [Htf|(f & -> & _)%list_elem_of_fmap]%elem_of_app;
      apply elem_of_app; [left; by apply L3|right].
    apply list_elem_of_singleton. done.
  - cbn [insert_todo_row snd todo_dependencies todo_items]. rewrite fmap_app.
    intros td [Htd|(f & -> & _)%list_elem_of_fmap]%elem_of_app;
      apply elem_of_app; [left; by apply L4|right].
    apply list_elem_of_singleton. done.
Qed.

Lemma task_by_id_elem_of d task_id t :
  task_by_id d task_id = Some t → t ∈ tasks d ∧ Task.id t = task_id.
Proof.
  intros [Hin H]%find_elem_of. by apply bool_decide_eq_true in H.
Qed.

Lemma well_formed_main_exec c now d :
  well_formed d → well_formed (Main.exec c now d).
Proof.
  intros Hd. destruct c; cbn [Main.exec].
  - by apply well_formed_create_project.
  - by apply well_formed_create_task.
  - unfold Main.create_todo_item.
    destruct (Main.task_with_project d task_id) as [t|] eqn:Ht; [|done].
    apply find_elem_of in Ht as [Ht Hid].
    apply andb_true_iff in Hid as [Hid%bool_decide_eq_true _].
    pose proof (well_formed_insert_todo_row d task_id title description order
                  dependencies files now (ex_intro _ t (conj Ht Hid)) Hd) as H'.
    by destruct (insert_todo_row _ _ _ _ _ _ _ _).
  - unfold Main.insert_todo_item.
    destruct (task_by_id d task_id) as [t|] eqn:Ht; [|done].
    apply task_by_id_elem_of in Ht.
    case_match.
    + case_match; [|done]. case_match; [|done].
      match goal with
      | |- context [insert_todo_row ?d0 ?a ?b ?c ?e ?f ?g ?h] =>
          pose proof (well_formed_insert_todo_row d0 a b c e f g h
                        (ex_intro _ t Ht)
                        (well_formed_same_items _ _
                           (same_items_shift_from d task_id _) Hd)) as H';
          by destruct (insert_todo_row d0 a b c e f g h)
      end.
    + match goal with
      | |- context [insert_todo_row ?d0 ?a ?b ?c ?e ?f ?g ?h] =>
          pose proof (well_formed_insert_todo_row d0 a b c e f g h
                        (ex_intro _ t Ht)
                        (well_formed_same_items _ _
                           (same_items_shift_all d task_id) Hd)) as H';
          by destruct (insert_todo_row d0 a b c e f g h)
      end.
  - unfold Main.get_next_todo_item. by repeat case_match.
  - eapply well_formed_same_items; [apply same_items_main_update_todo_status|done].
  - eapply well_formed_same_items; [apply same_items_lock_files|done].
  - eapply well_formed_same_items; [apply same_items_unlock_files|done].
Qed.

Lemma well_formed_http_exec c now d :
  well_formed d → well_formed (Http.exec c now d).
Proof.
  intros Hd. destruct c; cbn [Http.exec].
  - by apply well_formed_create_project.
  - by apply well_formed_create_task.
  - unfold Http.create_todo_item.
    destruct (task_by_id d task_id) as [t|] eqn:Ht; [|done].
    apply task_by_id_elem_of in Ht.
    pose proof (well_formed_insert_todo_row d task_id title description order
                  dependencies files now (ex_intro _ t Ht) Hd) as H'.
    by destruct (insert_todo_row _ _ _ _ _ _ _ _).
  - unfold Http.insert_todo_item.
    destruct (task_by_id d task_id) as [t|] eqn:Ht; [|done].
    apply task_by_id_elem_of in Ht.
    case_match.
    + case_match; [|done]. case_match; [|done].
      match goal with
      | |- context [insert_todo_row ?d0 ?a ?b ?c ?e ?f ?g ?h] =>
          pose proof (well_formed_insert_todo_row d0 a b c e f g h
                        (ex_intro _ t Ht)
                        (well_formed_same_items _ _
                           (same_items_shift_from d task_id _) Hd)) as H';
          by destruct (insert_todo_row d0 a b c e f g h)
      end.
    + match goal with
      | |- context [insert_todo_row ?d0 ?a ?b ?c ?e ?f ?g ?h] =>
          pose proof (well_formed_insert_todo_row d0 a b c e f g h
                        (ex_intro _ t Ht)
                        (well_formed_same_items _ _
                           (same_items_shift_all d task_id) Hd)) as H';
          by destruct (insert_todo_row d0 a b c e f g h)
      end.
  - unfold Http.get_next_todo_item. repeat case_match; try done.
    eapply well_formed_same_items;
      [apply same_items_update_status_where_id|done].
  - eapply well_formed_same_items; [apply same_items_http_update_todo_status|done].
  - eapply well_formed_same_items; [apply same_items_lock_files|done].
  - eapply well_formed_same_items; [apply same_items_unlock_files|done].
Qed.

Lemma reachable_well_formed d :
  Main.reachable d ∨ Http.reachable d → well_formed d.
Proof.
  intros [H|H].
  - induction H as [|d c now _ IH]; [apply well_formed_empty|].
    by apply well_formed_main_exec.
  - induction H as [|d c now _ IH]; [apply well_formed_empty|].
    by apply well_formed_http_exec.
Qed.

End well_formed.

(** * Lookups in the stores the tools build *)

Lemma find_ext_in {A} (P Q : A → bool) (l : list A) :
  (∀ x, x ∈ l → P x = Q x) → find P l = find Q l.
Proof.
  induction l as [|x l IH]; intros H; [done|]. cbn [find].
  rewrite (H x) by (apply elem_of_cons; by left).
  rewrite IH; [done|]. intros y Hy. apply H, elem_of_cons. by right.
Qed.

Lemma find_key `{EqDecision K} {A} (f : A → K) (l : list A) x :
  NoDup (f <$> l) → x ∈ l → find (λ y, bool_decide (f y = f x)) l = Some x.
Proof.
  induction l as [|y l IH]; intros Hnd Hin; [by apply elem_of_nil in Hin|].
  rewrite fmap_cons in Hnd. apply NoDup_cons in Hnd as [Hy Hnd].
  cbn [find]. case_bool_decide as Heq.
  - apply elem_of_cons in Hin as [->|Hin]; [done|].
    destruct Hy. rewrite Heq. apply list_elem_of_fmap. by exists x.
  - apply elem_of_cons in Hin as [->|Hin]; [done|]. by apply IH.
Qed.

Lemma find_key_None `{EqDecision K} {A} (f : A → K) (l : list A) k :
  k ∉ f <$> l → find (λ y, bool_decide (f y = k)) l = None.
Proof.
  intros Hk. destruct (find _ l) as [x|] eqn:Hf; [|done].
  apply find_elem_of in Hf as [Hin Heq%bool_decide_eq_true].
  destruct Hk. apply list_elem_of_fmap. by exists x.
Qed.

(** X1: in every store built from the empty one with the tools of main.py
    or of http_server.py, the ids of the projects, of the tasks and of the
    todo items, and the names of the projects, are pairwise distinct. *)
Theorem reachable_keys_unique d :
  Main.reachable d ∨ Http.reachable d →
  NoDup (Project.id <$> projects d) ∧ NoDup (Project.name <$> projects d) ∧
  NoDup (Task.id <$> tasks d) ∧ NoDup (Todo.id <$> todo_items d).
Proof. intros H. by destruct (reachable_well_formed d H). Qed.

(** The keys of the store of the scenario. *)
Lemma reachable_keys_unique_witness :
  Main.reachable main_scenario_db ∧
  NoDup (Todo.id <$> todo_items main_scenario_db).
Proof.
  assert (Main.reachable main_scenario_db) as H.
  { apply main_reachable_foldl. constructor. }
  split; [exact H|].
  exact (proj2 (proj2 (proj2
           (reachable_keys_unique main_scenario_db (or_introl H))))).
Defined.

(** X2: in every such store no row is orphaned, and every lookup finds the
    row that is there: a task has its project and a todo item its task,
    file and dependency rows belong to a todo item of the table, the joins
    of main.py (task with project, todo item with task and project) find
    what the plain lookups by id find, and the lookup by id or by name of a
    row of the table returns that row. *)
Theorem reachable_lookups d :
  Main.reachable d ∨ Http.reachable d →
  linked d ∧
  (∀ id, Main.task_with_project d id = task_by_id d id) ∧
  (∀ id, Main.todo_with_names d id = todo_by_id d id) ∧
  (∀ p, p ∈ projects d → project_by_name d (Project.name p) = Some p) ∧
  (∀ t, t ∈ tasks d → task_by_id d (Task.id t) = Some t) ∧
  (∀ ti, ti ∈ todo_items d → todo_by_id d (Todo.id ti) = Some ti).
Proof.
  intros H. destruct (reachable_well_formed d H)
    as [(K1 & K2 & K3 & K4) (L1 & L2 & L3 & L4)].
  assert (∀ t, t ∈ tasks d →
    existsb (λ p, bool_decide (Task.project_id t = Project.id p))
            (projects d) = true) as Hjoin.
  { intros t (p & Hp & Heq)%L1. apply existsb_exists. exists p.
    split; [by apply list_elem_of_In|by apply bool_decide_eq_true]. }
  split; [done|]. split; [|split; [|split; [|split]]].
  - intros id. apply find_ext_in. intros t Ht.
    by rewrite (Hjoin t Ht), andb_true_r.
  - intros id. apply find_ext_in. intros ti (t & Ht & Heq)%L2.
    rewrite <-(andb_true_r (bool_decide (Todo.id ti = id))) at 2. f_equal.
    apply existsb_exists. exists t. split; [by apply list_elem_of_In|].
    rewrite (Hjoin t Ht), andb_true_r. by apply bool_decide_eq_true.
  - intros p Hp. by apply (find_key Project.name).
  - intros t Ht. by apply (find_key Task.id).
  - intros ti Hti. by apply (find_key Todo.id).
Qed.

(** The lookups of the store of the scenario. *)
Lemma reachable_lookups_witness :
  Main.reachable main_scenario_db ∧
  ∀ id, Main.todo_with_names main_scenario_db id = todo_by_id main_scenario_db id.
Proof.
  assert (Main.reachable main_scenario_db) as H.
  { apply main_reachable_foldl. constructor. }
  split; [exact H|].
  exact (proj1 (proj2 (proj2 (reachable_lookups main_scenario_db (or_introl H))))).
Defined.

(** X3: create_project followed by get_project.  When create_project
    succeeds there was no project of that name, get_project then returns the
    created row, which carries the name and the description given and the
    status pending, and the answer of get_project for every other name is
    unchanged.  When it fails the error is "already exists", the store is
    unchanged and get_project finds the existing project of that name. *)
Theorem create_project_get_project d name description now :
  match create_project d name description now with
  | (inr row, d') =>
      get_project d name = inl (ProjectNotFound name) ∧
      get_project d' name = inr row ∧
      Project.name row = name ∧ Project.description row = description ∧
      Project.status row = "pending" ∧
      ∀ other, other ≠ name → get_project d' other = get_project d other
  | (inl e, d') =>
      e = ProjectExists name ∧ d' = d ∧
      ∃ row, get_project d name = inr row ∧ Project.name row = name
  end.
Proof.
  unfold create_project, get_project, project_by_name.
  destruct (existsb _ _) eqn:Hex.
  - do 2 (split; [done|]).
    apply existsb_exists in Hex as (p & Hp%list_elem_of_In & Hname).
    destruct (find_is_Some (λ p, bool_decide (Project.name p = name)) _ p Hp Hname)
      as [row Hrow]. rewrite Hrow.
    exists row. split; [done|].
    apply find_elem_of in Hrow as [_ H]. by apply bool_decide_eq_true in H.
  - assert (∀ p, p ∈ projects d → bool_decide (Project.name p = name) = false)
      as Hnone.
    { intros p Hp. apply not_true_iff_false. intros Hname.
      apply not_true_iff_false in Hex. apply Hex, existsb_exists.
      exists p. split; [by apply list_elem_of_In|done]. }
    cbn [projects]. split; [|split; [|split; [done|split; [done|split; [done|]]]]].
    + destruct (find _ (projects d)) as [p|] eqn:Hf; [|done].
      apply find_elem_of in Hf as [Hp Hname]. by rewrite (Hnone p Hp) in Hname.
    + rewrite find_snoc_fresh; [done|done|]. by apply bool_decide_eq_true.
    + intros other Hother. rewrite find_snoc_other; [done|].
      apply bool_decide_eq_false. cbn [Project.name]. congruence.
Qed.

(** * Creating and inserting todo items *)

Lemma filter_nil_not {A} (P : A → Prop) `{∀ x, Decision (P x)} (l : list A) :
  (∀ x, x ∈ l → ¬ P x) → filter P l = [].
Proof.
  induction l as [|x l IH]; intros Hl; [done|].
  rewrite filter_cons_False by (apply Hl, elem_of_cons; by left).
  apply IH. intros y Hy. apply Hl, elem_of_cons. by right.
Qed.

Lemma filter_all {A} (P : A → Prop) `{∀ x, Decision (P x)} (l : list A) :
  (∀ x, x ∈ l → P x) → filter P l = l.
Proof.
  induction l as [|x l IH]; intros Hl; [done|].
  rewrite filter_cons_True by (apply Hl, elem_of_cons; by left).
  f_equal. apply IH. intros y Hy. apply Hl, elem_of_cons. by right.
Qed.

Lemma insert_todo_row_lookup d task_id title description order deps files now :
  linked d →
  let row := (insert_todo_row d task_id title description order deps files now).1 in
  let d' := (insert_todo_row d task_id title description order deps files now).2 in
  row = Todo.mk (Todo.id row) task_id title description order "pending" None
          now now ∧
  todo_by_id d (Todo.id row) = None ∧
  todo_by_id d' (Todo.id row) = Some row ∧
  files_of d' (Todo.id row) = files ∧
  (∀ id, id ≠ Todo.id row →
         todo_by_id d' id = todo_by_id d id ∧ files_of d' id = files_of d id) ∧
  file_locks d' = file_locks d.
Proof.
  intros (_ & _ & L3 & _). cbn [insert_todo_row fst snd Todo.id].
  pose proof (lastrowid_fresh (Todo.id <$> todo_items d)) as Hfresh.
  set (new := lastrowid (Todo.id <$> todo_items d)) in *.
  split; [done|]. split; [by apply (find_key_None Todo.id)|].
  unfold todo_by_id, files_of. cbn [todo_items todo_files file_locks].
  split; [|split; [|split; [|done]]].
  - apply find_snoc_fresh; [|by apply bool_decide_eq_true].
    intros y Hy. apply bool_decide_eq_false. intros Heq. apply Hfresh.
    rewrite <-Heq. apply list_elem_of_fmap. by exists y.
  - rewrite filter_app, filter_nil_not, filter_all.
    + cbn [app]. rewrite <-list_fmap_compose.
      rewrite <-(list_fmap_id files) at 2. by apply list_fmap_ext.
    + by intros tf (f & -> & _)%list_elem_of_fmap.
    + intros tf Htf Heq. apply Hfresh. rewrite <-Heq. by apply L3.
  - intros id Hid. split.
    + apply find_snoc_other. by apply bool_decide_eq_false.
    + rewrite filter_app, (filter_nil_not _ (_ <$> files)), app_nil_r; [done|].
      by intros tf (f & -> & _)%list_elem_of_fmap.
Qed.

(** X4: create_todo_item of main.py and of http_server.py, then the reads.
    On a store whose rows are linked, a successful call returns a pending,
    unassigned row of the task with the title, description and order given;
    its id was not in use; the lookup by that id now returns the row and its
    file list is the list given, in order; the lookups and file lists of all
    other ids and the table of file locks are as before. *)
Theorem create_todo_item_round_trip
    d task_id title description order deps files now row d' :
  linked d →
  Main.create_todo_item d task_id title description order deps files now
    = (inr row, d') ∨
  Http.create_todo_item d task_id title description order deps files now
    = (inr row, d') →
  is_Some (task_by_id d task_id) ∧
  row = Todo.mk (Todo.id row) task_id title description order "pending" None
          now now ∧
  todo_by_id d (Todo.id row) = None ∧
  todo_by_id d' (Todo.id row) = Some row ∧
  files_of d' (Todo.id row) = files ∧
  (∀ id, id ≠ Todo.id row →
         todo_by_id d' id = todo_by_id d id ∧ files_of d' id = files_of d id) ∧
  file_locks d' = file_locks d.
Proof.
  intros Hd H.
  pose proof (insert_todo_row_lookup d task_id title description order deps
                files now Hd) as Hspec.
  assert (is_Some (task_by_id d task_id) ∧
          insert_todo_row d task_id title description order deps files now
          = (row, d')) as [Htask Hrow].
  { destruct H as [H|H].
    - unfold Main.create_todo_item in H.
      destruct (Main.task_with_project d task_id) as [t|] eqn:Ht; [|done].
      apply find_elem_of in Ht as [Ht [Hid _]%andb_true_iff].
      split; [by apply (find_is_Some _ _ t)|].
      destruct (insert_todo_row _ _ _ _ _ _ _ _). congruence.
    - unfold Http.create_todo_item in H.
      destruct (task_by_id d task_id) as [t|] eqn:Ht; [|done].
      split; [done|].
      destruct (insert_todo_row _ _ _ _ _ _ _ _). congruence. }
  rewrite Hrow in Hspec. split; [done|]. exact Hspec.
Qed.

(** Item "B" of the scenario, created on f1.txt after item "A". *)
Lemma create_todo_item_round_trip_witness :
  files_of main_scenario_db 2 = ["f1.txt"] ∧
  files_of main_scenario_db 1 = ["f1.txt"].
Proof.
  pose (d := foldl (λ d c, Main.exec c 0 d) empty_db
               [CreateProject "P" "demo"; CreateTask "P" "T" "" 0 [];
                CreateTodoItem 1 "A" "" 0 [] ["f1.txt"]]).
  assert (linked d) as Hd.
  { apply reachable_well_formed. left. apply main_reachable_foldl. constructor. }
  destruct (create_todo_item_round_trip d 1 "B" "" 1 [1] ["f1.txt"] 0
              (Todo.mk 2 1 "B" "" 1 "pending" None 0 0) main_scenario_db Hd)
    as (_ & _ & _ & _ & Hfiles & Hother & _).
  - left. vm_compute. reflexivity.
  - split; [exact Hfiles|]. vm_compute. reflexivity.
Defined.

(** ** Order indices at the end of the 64-bit range *)

Lemma sql_add1_small v : v < max_int64 → sql_add1 v = v + 1.
Proof. intros Hv. unfold sql_add1. by rewrite bool_decide_eq_true_2. Qed.

Lemma sql_add1_ge v : v ≤ sql_add1 v.
Proof. unfold sql_add1. case_bool_decide; lia. Qed.

Lemma sql_add1_mono v w : v ≤ w → sql_add1 v ≤ sql_add1 w.
Proof.
  unfold sql_add1, max_int64. intros Hvw.
  repeat case_bool_decide; lia.
Qed.

Lemma sql_add1_pos v : 0 ≤ v → 0 < sql_add1 v.
Proof. unfold sql_add1, max_int64. case_bool_decide; lia. Qed.

Lemma py_add1_Some v r :
  py_add1 v = Some r →
  v ≤ r ∧ v ≠ max_int64 ∧ (v < max_int64 → r = v + 1) ∧
  (max_int64 < v → r = v).
Proof.
  unfold py_add1. repeat case_bool_decide; intros [= <-]; lia.
Qed.

Lemma insert_todo_item_inv (main : bool) d task_id title description
    after_todo_id deps files now row d' :
  (if main
   then Main.insert_todo_item d task_id title description after_todo_id deps
          files now
   else Http.insert_todo_item d task_id title description after_todo_id deps
          files now) = (inr row, d') →
  ∃ d0, insert_todo_row d0 task_id title description (Todo.order_index row)
          deps files now = (row, d') ∧
    if truthy_int after_todo_id then
      ∃ a, a ∈ todo_items d ∧ Todo.id a = default 0 after_todo_id ∧
           py_add1 (Todo.order_index a) = Some (Todo.order_index row) ∧
           d0 = shift_from d task_id (Todo.order_index row) ∧
           (main = true → Todo.task_id a = task_id)
    else Todo.order_index row = 0 ∧ d0 = shift_all d task_id.
Proof.
  unfold Main.insert_todo_item, Http.insert_todo_item, todo_by_id.
  destruct (task_by_id d task_id) as [t|]; [|by destruct main].
  destruct (truthy_int after_todo_id).
  - destruct main.
    + destruct (find _ (todo_items d)) as [a|] eqn:Ha; [|done].
      destruct (py_add1 (Todo.order_index a)) as [r|] eqn:Hr; [|done].
      cbn [insert_todo_row]. intros [= <- <-].
      exists (shift_from d task_id r). split; [reflexivity|].
      apply find_elem_of in Ha as (Hin & [Hid%bool_decide_eq_true
        Htask%bool_decide_eq_true]%andb_true_iff). by exists a.
    + destruct (find _ (todo_items d)) as [a|] eqn:Ha; [|done].
      destruct (py_add1 (Todo.order_index a)) as [r|] eqn:Hr; [|done].
      cbn [insert_todo_row]. intros [= <- <-].
      exists (shift_from d task_id r). split; [reflexivity|].
      apply find_elem_of in Ha as [Hin Hid%bool_decide_eq_true].
      by exists a.
  - cbn [insert_todo_row]. destruct main; intros [= <- <-];
      by exists (shift_all d task_id).
Qed.

(** X5: insert_todo_item after a given item, in main.py and http_server.py
    ([main] tells which of the two servers is called).  With a non-zero
    after_todo_id a successful call found an item [a] with that id, in
    main.py an item of the task, and returns a row of the task whose order
    index is what Python computes for the index of [a] plus one and SQLite
    accepts as a parameter.  The todo rows are the old ones followed by the
    new row; rows of other tasks and rows of the task below the new index
    are kept, rows of the task at or above it go through the
    [order_index + 1] of SQLite.  The order of the old rows of the task is
    never reversed.  When every order index of the store is below the
    largest 64-bit integer, the new index is the one of [a] plus one, the
    rows of the task after [a] move up by exactly one, the strict order
    among the old rows is kept and the new row lies strictly between the
    rows at or before [a] and the rows after it. *)
Theorem insert_todo_item_after (main : bool)
    d task_id title description after deps files now row d' :
  after ≠ 0 →
  (if main
   then Main.insert_todo_item d task_id title description (Some after) deps
          files now
   else Http.insert_todo_item d task_id title description (Some after) deps
          files now) = (inr row, d') →
  ∃ a g,
    a ∈ todo_items d ∧ Todo.id a = after ∧
    (main = true → Todo.task_id a = task_id) ∧
    Todo.task_id row = task_id ∧
    py_add1 (Todo.order_index a) = Some (Todo.order_index row) ∧
    todo_items d' = (g <$> todo_items d) ++ [row] ∧
    (∀ x, Todo.task_id x ≠ task_id → g x = x) ∧
    (∀ x, Todo.task_id x = task_id →
          Todo.order_index x < Todo.order_index row → g x = x) ∧
    (∀ x, Todo.task_id x = task_id →
          Todo.order_index row ≤ Todo.order_index x →
          g x = Todo.shift x ∧ Todo.order_index row ≤ Todo.order_index (g x)) ∧
    (∀ x y, Todo.task_id x = task_id → Todo.task_id y = task_id →
            Todo.order_index x ≤ Todo.order_index y →
            Todo.order_index (g x) ≤ Todo.order_index (g y)) ∧
    (Forall (λ x, Todo.order_index x < max_int64) (todo_items d) →
     Todo.order_index row = Todo.order_index a + 1 ∧
     (∀ x, x ∈ todo_items d → Todo.task_id x = task_id →
           Todo.order_index x ≤ Todo.order_index a →
           g x = x ∧ Todo.order_index (g x) < Todo.order_index row) ∧
     (∀ x, x ∈ todo_items d → Todo.task_id x = task_id →
           Todo.order_index a < Todo.order_index x →
           Todo.order_index (g x) = Todo.order_index x + 1 ∧
           Todo.order_index row < Todo.order_index (g x)) ∧
     (∀ x y, x ∈ todo_items d → y ∈ todo_items d →
             Todo.task_id x = task_id → Todo.task_id y = task_id →
             Todo.order_index x < Todo.order_index y →
             Todo.order_index (g x) < Todo.order_index (g y))).
Proof.
  intros Hafter H.
  destruct (insert_todo_item_inv main _ _ _ _ _ _ _ _ _ _ H) as (d0 & Hrow & Hpos).
  cbn [truthy_int] in Hpos.
  rewrite (bool_decide_eq_false_2 (after = 0)) in Hpos by done.
  destruct Hpos as (a & Hin & Hid & Horder & -> & Hmain). clear H.
  pose proof (f_equal fst Hrow) as Hr.
  pose proof (f_equal (λ r, todo_items r.2) Hrow) as Hitems.
  cbn [insert_todo_row fst snd todo_items shift_from with_todo_items]
    in Hr, Hitems.
  rewrite Hr in Hitems.
  set (r := Todo.order_index row) in *.
  set (g := λ t : Todo.row,
         if bool_decide (Todo.task_id t = task_id ∧ r ≤ Todo.order_index t)
         then Todo.shift t else t) in *.
  assert (∀ x, Todo.task_id x = task_id → Todo.order_index x < r → g x = x)
    as Hlow.
  { intros x Hx Hlt. unfold g. rewrite bool_decide_eq_false_2; [done|lia]. }
  assert (∀ x, Todo.task_id x = task_id → r ≤ Todo.order_index x →
               g x = Todo.shift x) as Hhigh.
  { intros x Hx Hle. unfold g. by rewrite bool_decide_eq_true_2. }
  exists a, g. do 3 (split; [done|]).
  split; [by rewrite <-Hr|]. split; [done|].
  split; [symmetry; exact Hitems|].
  split; [|split; [done|split; [|split]]].
  - intros x Hx. unfold g. rewrite bool_decide_eq_false_2; [done|].
    by intros [? _].
  - intros x Hx Hle. split; [by apply Hhigh|]. rewrite Hhigh by done.
    cbn [Todo.shift Todo.order_index].
    pose proof (sql_add1_ge (Todo.order_index x)). lia.
  - intros x y Hx Hy Hle.
    destruct (decide (r ≤ Todo.order_index x)) as [Hrx|Hrx].
    + rewrite !Hhigh by (done || lia). cbn [Todo.shift Todo.order_index].
      by apply sql_add1_mono.
    + rewrite (Hlow x) by (done || lia).
      destruct (decide (r ≤ Todo.order_index y)) as [Hry|Hry].
      * rewrite Hhigh by done. cbn [Todo.shift Todo.order_index].
        pose proof (sql_add1_ge (Todo.order_index y)). lia.
      * rewrite Hlow by (done || lia). done.
  - intros Hbound. rewrite Forall_forall in Hbound.
    destruct (py_add1_Some _ _ Horder) as (_ & _ & Hsmall & _).
    specialize (Hsmall (Hbound a Hin)). fold r in Hsmall.
    split; [done|]. split; [|split].
    + intros x Hxin Hx Hle. rewrite Hlow by (done || lia). split; [done|lia].
    + intros x Hxin Hx Hlt. rewrite Hhigh by (done || lia).
      cbn [Todo.shift Todo.order_index].
      rewrite sql_add1_small by by apply Hbound. lia.
    + intros x y Hxin Hyin Hx Hy Hlt.
      destruct (decide (r ≤ Todo.order_index x)) as [Hrx|Hrx].
      * rewrite !Hhigh by (done || lia). cbn [Todo.shift Todo.order_index].
        rewrite !sql_add1_small by by apply Hbound. lia.
      * rewrite (Hlow x) by (done || lia).
        destruct (decide (r ≤ Todo.order_index y)) as [Hry|Hry].
        -- rewrite Hhigh by done. cbn [Todo.shift Todo.order_index].
           rewrite sql_add1_small by by apply Hbound. lia.
        -- rewrite Hlow by (done || lia). done.
Qed.

(** An item inserted after item "A" of the scenario: "B" moves from 1 to 2
    and the new item takes index 1. *)
Lemma insert_todo_item_after_witness :
  ∃ d',
    Main.insert_todo_item main_scenario_db 1 "C" "" (Some 1) [] [] 0
    = (inr (Todo.mk 3 1 "C" "" 1 "pending" None 0 0), d') ∧
    Todo.title <$> todo_items d' = ["A"; "B"; "C"] ∧
    Todo.order_index <$> todo_items d' = [0; 2; 1] ∧
    ∃ a g,
      a ∈ todo_items main_scenario_db ∧ Todo.id a = 1 ∧
      py_add1 (Todo.order_index a) = Some 1 ∧
      todo_items d'
      = (g <$> todo_items main_scenario_db)
        ++ [Todo.mk 3 1 "C" "" 1 "pending" None 0 0] ∧
      ∀ x, x ∈ todo_items main_scenario_db → Todo.task_id x = 1 →
           Todo.order_index a < Todo.order_index x →
           Todo.order_index (g x) = Todo.order_index x + 1 ∧
           1 < Todo.order_index (g x).
Proof.
  exists (Main.insert_todo_item main_scenario_db 1 "C" "" (Some 1) [] [] 0).2.
  split; [vm_compute; reflexivity|].
  split; [vm_compute; reflexivity|].
  split; [vm_compute; reflexivity|].
  destruct (insert_todo_item_after true main_scenario_db 1 "C" "" 1 [] [] 0
              (Todo.mk 3 1 "C" "" 1 "pending" None 0 0)
              (Main.insert_todo_item main_scenario_db 1 "C" "" (Some 1) [] [] 0).2)
    as (a & g & Hin & Hid & _ & _ & Horder & Hitems & _ & _ & _ & _ & Hbounded).
  - lia.
  - vm_compute. reflexivity.
  - destruct Hbounded as (_ & _ & Hup & _).
    { apply (bool_decide_unpack _). vm_compute. exact I. }
    exists a, g. split; [exact Hin|]. split; [exact Hid|].
    split; [exact Horder|]. split; [exact Hitems|exact Hup].
Defined.

(** X6: insert_todo_item without a position, in main.py and http_server.py.
    When after_todo_id is None or 0 (both falsy) a successful call returns a
    row of the task with order index 0, leaves the rows of other tasks as
    they were and sends every row of the task through the
    [order_index + 1] of SQLite: the new row comes before every row of the
    task whose index was not negative, and the order of the old rows is
    never reversed.  When every order index of the store is below the
    largest 64-bit integer, every row of the task moves up by exactly one
    and the strict order among the old rows is kept. *)
Theorem insert_todo_item_front
    d task_id title description after_todo_id deps files now row d' :
  truthy_int after_todo_id = false →
  Main.insert_todo_item d task_id title description after_todo_id deps files now
    = (inr row, d') ∨
  Http.insert_todo_item d task_id title description after_todo_id deps files now
    = (inr row, d') →
  Todo.task_id row = task_id ∧ Todo.order_index row = 0 ∧
  ∃ g,
    todo_items d' = (g <$> todo_items d) ++ [row] ∧
    (∀ x, Todo.task_id x ≠ task_id → g x = x) ∧
    (∀ x, Todo.task_id x = task_id → g x = Todo.shift x) ∧
    (∀ x, Todo.task_id x = task_id → 0 ≤ Todo.order_index x →
          Todo.order_index row < Todo.order_index (g x)) ∧
    (∀ x y, Todo.task_id x = task_id → Todo.task_id y = task_id →
            Todo.order_index x ≤ Todo.order_index y →
            Todo.order_index (g x) ≤ Todo.order_index (g y)) ∧
    (Forall (λ x, Todo.order_index x < max_int64) (todo_items d) →
     (∀ x, x ∈ todo_items d → Todo.task_id x = task_id →
           Todo.order_index (g x) = Todo.order_index x + 1) ∧
     (∀ x y, x ∈ todo_items d → y ∈ todo_items d →
             Todo.task_id x = task_id → Todo.task_id y = task_id →
             Todo.order_index x < Todo.order_index y →
             Todo.order_index (g x) < Todo.order_index (g y))).
Proof.
  intros Hfalsy H.
  assert (∃ main : bool,
    (if main
     then Main.insert_todo_item d task_id title description after_todo_id deps
            files now
     else Http.insert_todo_item d task_id title description after_todo_id deps
            files now) = (inr row, d')) as [main H'].
  { destruct H; [by exists true|by exists false]. }
  destruct (insert_todo_item_inv main _ _ _ _ _ _ _ _ _ _ H') as (d0 & Hrow & Hpos).
  rewrite Hfalsy in Hpos. destruct Hpos as [Horder ->]. clear H H'.
  pose proof (f_equal fst Hrow) as Hr.
  pose proof (f_equal (λ r, todo_items r.2) Hrow) as Hitems.
  cbn [insert_todo_row fst snd todo_items shift_all with_todo_items]
    in Hr, Hitems.
  rewrite Hr in Hitems.
  split; [by rewrite <-Hr|]. split; [done|].
  set (g := λ t : Todo.row,
         if bool_decide (Todo.task_id t = task_id) then Todo.shift t else t)
    in *.
  assert (∀ x, Todo.task_id x = task_id → g x = Todo.shift x) as Hshift.
  { intros x Hx. unfold g. by rewrite bool_decide_eq_true_2. }
  exists g. split; [symmetry; exact Hitems|]. rewrite Horder.
  split; [|split; [done|split; [|split]]].
  - intros x Hx. unfold g. by rewrite bool_decide_eq_false_2.
  - intros x Hx Hle. rewrite Hshift by done.
    cbn [Todo.shift Todo.order_index]. by apply sql_add1_pos.
  - intros x y Hx Hy Hle. rewrite !Hshift by done.
    cbn [Todo.shift Todo.order_index]. by apply sql_add1_mono.
  - intros Hbound. rewrite Forall_forall in Hbound. split.
    + intros x Hxin Hx. rewrite Hshift by done.
      cbn [Todo.shift Todo.order_index]. by apply sql_add1_small, Hbound.
    + intros x y Hxin Hyin Hx Hy Hlt. rewrite !Hshift by done.
      cbn [Todo.shift Todo.order_index].
      rewrite !sql_add1_small by by apply Hbound. lia.
Qed.

(** An item inserted in front of the items of the scenario, with 0 as
    after_todo_id, on http_server.py: "A" and "B" move to 1 and 2. *)
Lemma insert_todo_item_front_witness :
  ∃ d',
    Http.insert_todo_item http_scenario_db 1 "C" "" (Some 0) [] [] 0
    = (inr (Todo.mk 3 1 "C" "" 0 "pending" None 0 0), d') ∧
    Todo.title <$> todo_items d' = ["A"; "B"; "C"] ∧
    Todo.order_index <$> todo_items d' = [1; 2; 0] ∧
    ∃ g,
      todo_items d'
      = (g <$> todo_items http_scenario_db)
        ++ [Todo.mk 3 1 "C" "" 0 "pending" None 0 0] ∧
      ∀ x, x ∈ todo_items http_scenario_db → Todo.task_id x = 1 →
           Todo.order_index (g x) = Todo.order_index x + 1.
Proof.
  exists (Http.insert_todo_item http_scenario_db 1 "C" "" (Some 0) [] [] 0).2.
  split; [vm_compute; reflexivity|].
  split; [vm_compute; reflexivity|].
  split; [vm_compute; reflexivity|].
  destruct (insert_todo_item_front http_scenario_db 1 "C" "" (Some 0) [] [] 0
              (Todo.mk 3 1 "C" "" 0 "pending" None 0 0)
              (Http.insert_todo_item http_scenario_db 1 "C" "" (Some 0) [] [] 0).2)
    as (_ & _ & g & Hitems & _ & _ & _ & _ & Hbounded).
  - reflexivity.
  - right. vm_compute. reflexivity.
  - destruct Hbounded as [Hup _].
    { apply (bool_decide_unpack _). vm_compute. exact I. }
    exists g. split; [exact Hitems|exact Hup].
Defined.

(** Where the bound fails.  Items "A" and "B" of a task are created at
    2^63 - 2 and 2^63 - 1, the two largest 64-bit integers.  An insert after
    "B" is refused, because Python's successor of its index cannot be bound
    to the statement.  An insert in front turns the index of "B" into the
    REAL 2^63, and a second one that of "A" as well: the two rows, which
    were in strict order, have equal indices. *)
Example order_index_saturates :
  let d := foldl (λ d c, Main.exec c 0 d) empty_db
             [ CreateProject "P" "demo"; CreateTask "P" "T" "" 0 [];
               CreateTodoItem 1 "A" "" (2 ^ 63 - 2) [] [];
               CreateTodoItem 1 "B" "" (2 ^ 63 - 1) [] [] ] in
  let d1 := (Main.insert_todo_item d 1 "C" "" None [] [] 0).2 in
  let d2 := (Main.insert_todo_item d1 1 "D" "" None [] [] 0).2 in
  Main.insert_todo_item d 1 "C" "" (Some 2) [] [] 0 = (inl IntegerOverflow, d) ∧
  Todo.order_index <$> todo_items d1 = [2 ^ 63 - 1; 2 ^ 63; 0] ∧
  Todo.order_index <$> todo_items d2 = [2 ^ 63; 2 ^ 63; 1; 0].
Proof. by vm_compute. Qed.

(** * The order in which get_next_todo_item hands out work *)

Lemma order_le_transitive : Transitive order_le.
Proof. intros a b c. unfold order_le. lia. Qed.

Lemma order_le_total : Total order_le.
Proof. intros a b. unfold order_le. lia. Qed.

Lemma head_merge_sort_least {A} (R : relation A) `{∀ x y, Decision (R x y)}
    (l : list A) x :
  Transitive R → Total R → head (merge_sort R l) = Some x →
  x ∈ l ∧ ∀ y, y ∈ l → R x y.
Proof.
  intros Htrans Htotal Hhead.
  pose proof (@StronglySorted_merge_sort _ R _ Htrans Htotal l) as Hsorted.
  pose proof (merge_sort_Permutation R l) as Hperm.
  destruct (merge_sort R l) as [|x' s]; [done|]. injection Hhead as ->.
  apply StronglySorted_cons in Hsorted as [Hall _].
  split; [rewrite <-Hperm; apply elem_of_cons; by left|].
  intros y Hy. rewrite <-Hperm in Hy.
  apply elem_of_cons in Hy as [->|Hy].
  - by destruct (Htotal x x).
  - rewrite Forall_forall in Hall. by apply Hall.
Qed.

Lemma next_available_first d project_id agent_id row :
  next_available d project_id agent_id = Some row →
  ∃ task, (row, task) ∈ todo_join_tasks d ∧
          available d project_id agent_id (row, task) = true ∧
          ∀ r, r ∈ todo_join_tasks d →
               available d project_id agent_id r = true →
               order_le (row, task) r.
Proof.
  unfold next_available. intros Hnext.
  destruct (head _) as [[row' task]|] eqn:Hhead; [|done].
  injection Hnext as ->.
  apply (head_merge_sort_least order_le) in Hhead
    as [[Havail Hin]%list_elem_of_filter Hleast];
    [|apply order_le_transitive|apply order_le_total].
  exists task. do 2 (split; [done|]).
  intros r Hr Hav. apply Hleast. by apply list_elem_of_filter.
Qed.

Lemma next_available_None d project_id agent_id :
  next_available d project_id agent_id = None →
  ∀ r, r ∈ todo_join_tasks d → available d project_id agent_id r = false.
Proof.
  intros Hnone r Hr. apply not_true_iff_false. intros Hav.
  destruct (next_available_is_Some d project_id agent_id r Hr Hav) as [? H].
  congruence.
Qed.

(** X7: what get_next_todo_item of main.py answers, case by case.  It
    reports an error exactly when no project has the name.  It reports that
    no item is available exactly when no todo item of the project, joined
    with its task, passes the filter.  Otherwise the item it returns passes
    the filter and comes first: every other passing item is at or after it
    in the order by task order index, then todo order index; the files
    returned are the files of the item.  get_next_todo_item of
    http_server.py gives the same answer, with the item marked in progress
    for the caller. *)
Theorem get_next_todo_item_first d project_name agent_id now :
  match (Main.get_next_todo_item d project_name agent_id).1 with
  | NextError e =>
      e = ProjectNotFound project_name ∧ project_by_name d project_name = None
  | NoAvailable =>
      ∃ p, project_by_name d project_name = Some p ∧
           ∀ r, r ∈ todo_join_tasks d →
                available d (Project.id p) agent_id r = false
  | NextItem row files =>
      ∃ p task,
        project_by_name d project_name = Some p ∧
        (row, task) ∈ todo_join_tasks d ∧
        available d (Project.id p) agent_id (row, task) = true ∧
        files = files_of d (Todo.id row) ∧
        ∀ r, r ∈ todo_join_tasks d →
             available d (Project.id p) agent_id r = true →
             order_le (row, task) r
  end ∧
  (Http.get_next_todo_item d project_name agent_id now).1 =
    match (Main.get_next_todo_item d project_name agent_id).1 with
    | NextItem row files =>
        NextItem (Todo.set_status "in_progress" (Some agent_id)
                    (Todo.updated_at row) row) files
    | r => r
    end.
Proof.
  unfold Main.get_next_todo_item, Http.get_next_todo_item.
  destruct (project_by_name d project_name) as [p|]; [|done].
  destruct (next_available d (Project.id p) agent_id) as [row|] eqn:Hnext;
    cbn [fst].
  - split; [|by rewrite files_of_update_status_where_id].
    destruct (next_available_first _ _ _ _ Hnext) as (task & Hin & Hav & Hleast).
    by exists p, task.
  - split; [|done]. exists p. split; [done|].
    by apply next_available_None.
Qed.

(** * Checking, taking and releasing file locks *)

Lemma lookup_check_file_locks d files p :
  locked_files (check_file_locks d files) !! p =
  if bool_decide (p ∈ files) then file_locks d !! p else None.
Proof.
  unfold check_file_locks. cbn [locked_files].
  assert (∀ m : gmap string FileLock.row,
    foldl (λ locked_files file_path,
             match file_locks d !! file_path with
             | Some row => <[file_path := row]> locked_files
             | None => locked_files
             end) m files !! p =
    if bool_decide (p ∈ files)
    then match file_locks d !! p with Some row => Some row | None => m !! p end
    else m !! p) as Hfold.
  { induction files as [|q files IH]; intros m; cbn [foldl].
    - rewrite bool_decide_eq_false_2 by apply not_elem_of_nil. done.
    - rewrite IH. destruct (decide (p = q)) as [->|Hpq].
      + rewrite (bool_decide_eq_true_2 (q ∈ q :: files))
          by (apply elem_of_cons; by left).
        destruct (file_locks d !! q) as [row|] eqn:Hq.
        * case_bool_decide; [done|].
          rewrite lookup_insert. by rewrite decide_True.
        * by case_bool_decide.
      + rewrite (if_bool_decide_ext (p ∈ q :: files) (p ∈ files))
          by (rewrite elem_of_cons; naive_solver).
        destruct (file_locks d !! q) as [row|];
          [by rewrite lookup_insert_ne|done]. }
  rewrite Hfold, lookup_empty. case_bool_decide; [|done].
  by destruct (file_locks d !! p).
Qed.

Lemma all_available_check_file_locks d files :
  all_available (check_file_locks d files) = true ↔
  ∀ p, p ∈ files → holder d p = None.
Proof.
  change (all_available (check_file_locks d files))
    with (bool_decide (size (locked_files (check_file_locks d files)) = 0%nat)).
  rewrite bool_decide_eq_true, map_size_empty_iff, map_empty.
  unfold holder. split.
  - intros Hall p Hp. specialize (Hall p).
    rewrite lookup_check_file_locks, bool_decide_eq_true_2 in Hall by done.
    by rewrite Hall.
  - intros Hall p. rewrite lookup_check_file_locks.
    case_bool_decide as Hp; [|done].
    specialize (Hall p Hp). by apply fmap_None in Hall.
Qed.

(** X8: check_file_locks (one body in main.py, http_server.py and
    mcp_server_fixed.py).  The dictionary "locked_files" has an entry for a
    path exactly when the path was asked for and has a lock row, and the
    entry is that row; "all_available" is true exactly when none of the
    paths asked for is locked, by whatever agent. *)
Theorem check_file_locks_spec d files :
  checked_files (check_file_locks d files) = files ∧
  (∀ p, locked_files (check_file_locks d files) !! p =
        if bool_decide (p ∈ files) then file_locks d !! p else None) ∧
  (all_available (check_file_locks d files) = true ↔
   ∀ p, p ∈ files → holder d p = None).
Proof.
  split; [done|]. split; [apply lookup_check_file_locks|].
  apply all_available_check_file_locks.
Qed.

Lemma locked_by_other_holder d agent_id p :
  locked_by_other (file_locks d) agent_id p = true ↔
  ∃ other, holder d p = Some other ∧ other ≠ agent_id.
Proof.
  unfold locked_by_other, holder.
  destruct (file_locks d !! p) as [row|]; cbn [fmap option_fmap option_map].
  - rewrite negb_true_iff, bool_decide_eq_false. naive_solver.
  - naive_solver.
Qed.

Lemma lock_files_inv d files agent_id now r d' :
  lock_files d files agent_id now = (inr r, d') →
  r = (files, agent_id) ∧
  d' = with_file_locks d (lock_all agent_id now files (file_locks d)) ∧
  ∀ p, p ∈ files → locked_by_other (file_locks d) agent_id p = false.
Proof.
  unfold lock_files.
  destruct (filter (λ p, locked_by_other (file_locks d) agent_id p = true) files)
    as [|q l] eqn:Hf; [|done].
  intros [= <- <-]. do 2 (split; [done|]).
  intros p Hp. apply not_true_iff_false. intros Hl.
  assert (p ∈ filter (λ p, locked_by_other (file_locks d) agent_id p = true) files)
    as Hin by by apply list_elem_of_filter.
  rewrite Hf in Hin. by apply elem_of_nil in Hin.
Qed.


Lemma if_same {A} (b : bool) (x : A) : (if b then x else x) = x.
Proof. by destruct b. Qed.

Lemma with_file_locks_twice d m m' :
  with_file_locks (with_file_locks d m) m' = with_file_locks d m'.
Proof. done. Qed.

Lemma filter_ext_in {A} (P Q : A → Prop) `{∀ x, Decision (P x)}
    `{∀ x, Decision (Q x)} (l : list A) :
  (∀ x, x ∈ l → P x ↔ Q x) → filter P l = filter Q l.
Proof.
  induction l as [|x l IH]; intros Hl; [done|].
  assert (filter P l = filter Q l) as Htl.
  { apply IH. intros y Hy. apply Hl, elem_of_cons. by right. }
  assert (P x ↔ Q x) as Hx by (apply Hl, elem_of_cons; by left).
  destruct (decide (P x)) as [HP|HP].
  - rewrite !filter_cons_True by tauto. by rewrite Htl.
  - rewrite !filter_cons_False by tauto. done.
Qed.

(** X10: lock_files followed by unlock_files of the same agent on the same
    list.  After a successful lock_files the unlock reports no path as not
    owned, the paths it lists as unlocked are the requested ones, every
    requested path is then free and every other path has the lock it had
    before the two calls.  When the requested paths were all free before,
    the store after the two calls is the store before them. *)
Theorem lock_then_unlock_files d files agent_id now r d1 :
  lock_files d files agent_id now = (inr r, d1) →
  unlock_error (unlock_files d1 files agent_id).1 = None ∧
  (∀ p, p ∈ unlocked_files (unlock_files d1 files agent_id).1 ↔ p ∈ files) ∧
  (∀ p, file_locks (unlock_files d1 files agent_id).2 !! p =
        if bool_decide (p ∈ files) then None else file_locks d !! p) ∧
  (all_available (check_file_locks d files) = true →
   (unlock_files d1 files agent_id).2 = d).
Proof.
  intros (-> & -> & Hfree)%lock_files_inv.
  set (d1 := with_file_locks d (lock_all agent_id now files (file_locks d))).
  assert (∀ p, p ∈ files → file_locks d1 !! p = Some (FileLock.mk agent_id now))
    as Hlocked.
  { intros p Hp. unfold d1. cbn [with_file_locks file_locks].
    by rewrite lookup_lock_all, bool_decide_eq_true_2. }
  destruct (unlock_files_inv d1 files agent_id) as (released & Heq & Hreleased).
  assert (∀ p, file_locks (unlock_files d1 files agent_id).2 !! p =
               if bool_decide (p ∈ files) then None else file_locks d !! p)
    as Hlookup.
  { intros p. rewrite Heq. cbn [snd with_file_locks file_locks].
    rewrite lookup_foldl_delete_lock_of.
    case_bool_decide as Hp.
    - destruct Hp as [Hp _]. by rewrite bool_decide_eq_true_2.
    - case_bool_decide as Hin.
      + destruct Hp. split; [done|]. by rewrite (Hlocked p Hin).
      + unfold d1. cbn [with_file_locks file_locks].
        by rewrite lookup_lock_all, bool_decide_eq_false_2. }
  split; [|split; [|split; [exact Hlookup|]]].
  - rewrite Heq. cbn [fst unlock_error].
    rewrite (filter_nil_not _ files); [done|].
    intros p Hp. unfold locked_by_other. rewrite (Hlocked p Hp).
    cbn [FileLock.locked_by]. by rewrite bool_decide_eq_true_2.
  - intros p. rewrite Heq. cbn [fst unlocked_files]. rewrite Hreleased.
    split; [by intros [? _]|]. intros Hp. split; [done|].
    unfold holder. by rewrite (Hlocked p Hp).
  - intros Hall. rewrite all_available_check_file_locks in Hall.
    rewrite Heq in Hlookup |- *. cbn [snd] in Hlookup |- *.
    unfold d1 at 1. rewrite with_file_locks_twice.
    rewrite <-(with_file_locks_same d) at 2. f_equal.
    apply map_eq. intros p. specialize (Hlookup p).
    cbn [with_file_locks file_locks] in Hlookup. rewrite Hlookup.
    case_bool_decide as Hp; [|done].
    specialize (Hall p Hp). unfold holder in Hall.
    symmetry. by apply fmap_None in Hall.
Qed.

(** agent1 takes and gives back two free paths in the store of the
    scenario. *)
Lemma lock_then_unlock_files_witness :
  (unlock_files (lock_files main_scenario_db ["a"; "b"] "agent1" 5).2
                ["a"; "b"] "agent1").2 = main_scenario_db.
Proof.
  refine (proj2 (proj2 (proj2
    (lock_then_unlock_files main_scenario_db ["a"; "b"] "agent1" 5
       (["a"; "b"], "agent1") _ _))) _).
  - vm_compute. reflexivity.
  - vm_compute. reflexivity.
Defined.

(** X11: unlock_files is idempotent.  A second unlock_files with the same
    paths and agent, right after the first, unlocks nothing, reports the
    same paths as not owned and leaves the store as the first call left
    it. *)
Theorem unlock_files_idempotent d files agent_id :
  unlock_files (unlock_files d files agent_id).2 files agent_id
  = (mk_unlock_result [] (unlock_error (unlock_files d files agent_id).1),
     (unlock_files d files agent_id).2).
Proof.
  destruct (unlock_files_inv d files agent_id) as (released & Heq & Hreleased).
  rewrite Heq. cbn [fst snd unlock_error].
  set (d1 := with_file_locks d
               (foldl (delete_lock_of agent_id) (file_locks d) files)).
  destruct (unlock_files_inv d1 files agent_id) as (released' & Heq' & Hreleased').
  rewrite Heq'.
  assert (∀ p, file_locks d1 !! p =
    if bool_decide (p ∈ files ∧
                    FileLock.locked_by <$> file_locks d !! p = Some agent_id)
    then None else file_locks d !! p) as Hlookup.
  { intros p. unfold d1. cbn [with_file_locks file_locks].
    apply lookup_foldl_delete_lock_of. }
  assert (released' = []) as ->.
  { destruct released' as [|p l]; [done|].
    destruct (proj1 (Hreleased' p)) as [Hp Hheld];
      [apply elem_of_cons; by left|].
    unfold holder in Hheld. rewrite Hlookup in Hheld.
    case_bool_decide as Hc; [done|]. destruct Hc. by split. }
  f_equal; [f_equal|].
  - rewrite (filter_ext_in
               (λ p, locked_by_other (file_locks d1) agent_id p = true)
               (λ p, locked_by_other (file_locks d) agent_id p = true)); [done|].
    intros p Hp. unfold locked_by_other. rewrite Hlookup.
    case_bool_decide as Hc; [|done].
    destruct Hc as [_ Hc]. destruct (file_locks d !! p) as [row|]; [|done].
    injection Hc as Hc. by rewrite bool_decide_eq_true_2.
  - unfold d1 at 1. rewrite with_file_locks_twice.
    unfold d1. f_equal. apply map_eq. intros p.
    rewrite lookup_foldl_delete_lock_of. fold d1. rewrite Hlookup.
    rewrite (lookup_foldl_delete_lock_of agent_id files (file_locks d) p).
    destruct (bool_decide (p ∈ files ∧
                FileLock.locked_by <$> file_locks d !! p = Some agent_id))
      eqn:Hc; [apply if_same|].
    apply bool_decide_eq_false in Hc.
    case_bool_decide as Hc'; [by destruct Hc|done].
Qed.

(** * Status updates of main.py and the locks of the item's files *)

Lemma find_fmap {A B} (P : B → bool) (f : A → B) (l : list A) :
  find P (f <$> l) = f <$> find (λ x, P (f x)) l.
Proof.
  induction l as [|x l IH]; [done|]. cbn [fmap list_fmap find].
  destruct (P (f x)); [done|]. apply IH.
Qed.

Lemma main_update_todo_status_store d todo_id status agent_id now u d' :
  Main.update_todo_status d todo_id status agent_id now = (inr u, d') →
  d' = with_file_locks
         (update_status_where_id d todo_id status (upd_assigned_agent u) now)
         (file_locks d') ∧
  ∃ row, row ∈ todo_items d ∧ Todo.id row = todo_id.
Proof.
  unfold Main.update_todo_status.
  destruct (negb _); [done|].
  destruct (Main.todo_with_names d todo_id) as [row|] eqn:Hrow; [|done].
  destruct (truthy _ && _ && _); [done|].
  intros [= <- <-]. split.
  - cbn [upd_assigned_agent with_file_locks file_locks].
    by repeat case_bool_decide.
  - apply find_elem_of in Hrow as [Hin [Hid _]%andb_true_iff].
    exists row. split; [done|]. by apply bool_decide_eq_true in Hid.
Qed.

Lemma todo_with_names_update_status d todo_id st ag now m id :
  Main.todo_with_names
    (with_file_locks (update_status_where_id d todo_id st ag now) m) id
  = (λ t, if bool_decide (Todo.id t = todo_id)
          then Todo.set_status st ag now t else t)
    <$> Main.todo_with_names d id.
Proof.
  unfold Main.todo_with_names.
  cbn [with_file_locks update_status_where_id with_todo_items todo_items tasks
       projects].
  rewrite find_fmap. f_equal. apply find_ext_in. intros t _.
  by destruct (bool_decide (Todo.id t = todo_id)).
Qed.

(** X12: in main.py, starting an item takes the locks of all its files
    without a conflict check.  After a successful update_todo_status to
    in_progress every file of the item carries the lock row of the caller,
    also a file that another agent held: for such a file lock_files of the
    same caller on the item's files is refused. *)
Theorem main_start_takes_locks d todo_id agent_id now u d' :
  Main.update_todo_status d todo_id "in_progress" agent_id now = (inr u, d') →
  (∀ p, p ∈ files_of d todo_id →
        file_locks d' !! p = Some (FileLock.mk agent_id now)) ∧
  (∀ p other, p ∈ files_of d todo_id → holder d p = Some other →
              other ≠ agent_id →
     holder d' p = Some agent_id ∧
     ∃ paths, lock_files d (files_of d todo_id) agent_id now
              = (inl (LockedByAnother paths), d) ∧ p ∈ paths).
Proof.
  intros H. apply main_update_todo_status_file_locks in H.
  rewrite (bool_decide_eq_true_2 ("in_progress" = "in_progress")) in H by done.
  assert (∀ p, p ∈ files_of d todo_id →
               file_locks d' !! p = Some (FileLock.mk agent_id now)) as Hlocked.
  { intros p Hp. by rewrite H, lookup_lock_all, bool_decide_eq_true_2. }
  split; [done|]. intros p other Hp Hheld Hother. split.
  - unfold holder. by rewrite (Hlocked p Hp).
  - assert (locked_by_other (file_locks d) agent_id p = true) as Hblocked.
    { apply locked_by_other_holder. by exists other. }
    destruct (lock_files_conflict d (files_of d todo_id) agent_id now
                (ex_intro _ p (conj Hp Hblocked))) as (paths & Heq & -> & _).
    eexists. split; [exact Heq|]. by apply list_elem_of_filter.
Qed.

(** agent1 starts item "A" while agent2 holds f1.txt. *)
Lemma main_start_takes_locks_witness :
  holder (Main.update_todo_status
            (lock_files main_scenario_db ["f1.txt"] "agent2" 1).2
            1 "in_progress" "agent1" 2).2 "f1.txt" = Some "agent1".
Proof.
  refine (proj1 (proj2
    (main_start_takes_locks
       (lock_files main_scenario_db ["f1.txt"] "agent2" 1).2
       1 "agent1" 2 (mk_status_update 1 "in_progress" (Some "agent1")) _ _)
    "f1.txt" "agent2" _ _ _)).
  - vm_compute. reflexivity.
  - vm_compute. apply elem_of_cons. left. reflexivity.
  - vm_compute. reflexivity.
  - discriminate.
Defined.

Lemma files_of_with_file_locks d m id :
  files_of (with_file_locks d m) id = files_of d id.
Proof. done. Qed.

(** X13: in main.py, the agent that started an item can always finish it,
    and finishing gives the files back.  After a successful
    update_todo_status to in_progress, an update to completed or cancelled
    by the same agent succeeds; afterwards the rows of the item have the new
    status and no agent, no file of the item is locked, and every other
    path has the lock it had before the item was started. *)
Theorem main_start_then_finish d todo_id agent_id now now' status u d1 :
  Main.update_todo_status d todo_id "in_progress" agent_id now = (inr u, d1) →
  status = "completed" ∨ status = "cancelled" →
  ∃ d2,
    Main.update_todo_status d1 todo_id status agent_id now'
    = (inr (mk_status_update todo_id status None), d2) ∧
    (∀ t, t ∈ todo_items d2 → Todo.id t = todo_id →
          Todo.status t = status ∧ Todo.assigned_agent t = None) ∧
    (∀ p, file_locks d2 !! p =
          if bool_decide (p ∈ files_of d todo_id) then None
          else file_locks d !! p).
Proof.
  intros H1 Hst.
  assert (status ∈ valid_statuses) as Hvalid.
  { unfold valid_statuses. rewrite !elem_of_cons. tauto. }
  assert (status ≠ "in_progress") as Hnot by (destruct Hst; congruence).
  assert (status ∈ ["completed"; "cancelled"]) as Hfinal.
  { rewrite !elem_of_cons. tauto. }
  destruct (main_update_todo_status_store _ _ _ _ _ _ _ H1) as [Hd1 _].
  pose proof (main_update_todo_status_file_locks _ _ _ _ _ _ _ H1) as Hlocks1.
  rewrite (bool_decide_eq_true_2 ("in_progress" = "in_progress")) in Hlocks1
    by done.
  destruct (main_update_todo_status_inv _ _ _ _ _ _ _ H1)
    as (_ & Hu & _ & row & Hrow & _).
  rewrite (bool_decide_eq_true_2 ("in_progress" = "in_progress")) in Hu by done.
  assert (Todo.id row = todo_id) as Hid.
  { apply find_elem_of in Hrow as [_ [Hid _]%andb_true_iff].
    by apply bool_decide_eq_true in Hid. }
  assert (Main.todo_with_names d1 todo_id
          = Some (Todo.set_status "in_progress" (Some agent_id) now row))
    as Hfind.
  { rewrite Hd1, todo_with_names_update_status, Hrow, Hu.
    cbn [fmap option_fmap option_map upd_assigned_agent].
    by rewrite bool_decide_eq_true_2. }
  assert (∃ u2 d2, Main.update_todo_status d1 todo_id status agent_id now'
                   = (inr u2, d2)) as (u2 & d2 & H2).
  { unfold Main.update_todo_status. rewrite (valid_check status Hvalid), Hfind.
    cbn [Todo.set_status Todo.assigned_agent].
    rewrite (bool_decide_eq_true_2 (Some agent_id = Some agent_id)) by done.
    cbn [negb]. rewrite andb_false_r. cbn [andb]. by eexists _, _. }
  destruct (main_update_todo_status_inv _ _ _ _ _ _ _ H2)
    as (_ & Hu2 & Hitems & _).
  rewrite (bool_decide_eq_false_2 (status = "in_progress")) in Hu2 by done.
  pose proof (main_update_todo_status_file_locks _ _ _ _ _ _ _ H2) as Hlocks2.
  rewrite (bool_decide_eq_false_2 (status = "in_progress")) in Hlocks2 by done.
  rewrite (bool_decide_eq_true_2 (status ∈ ["completed"; "cancelled"]))
    in Hlocks2 by done.
  exists d2. split; [by rewrite H2, Hu2|]. split.
  - intros t Ht Htid. rewrite Hitems, Hu2 in Ht.
    cbn [upd_assigned_agent] in Ht.
    by apply (update_status_where_id_at d1 todo_id status None now').
  - assert (files_of d1 todo_id = files_of d todo_id) as Hfiles.
    { rewrite Hd1.
      by rewrite files_of_with_file_locks, files_of_update_status_where_id. }
    intros p. rewrite Hlocks2, lookup_foldl_delete_lock_of, Hfiles.
    rewrite Hlocks1, !lookup_lock_all.
    destruct (decide (p ∈ files_of d todo_id)) as [Hp|Hp].
    + rewrite !(bool_decide_eq_true_2 (p ∈ files_of d todo_id)) by done.
      by rewrite bool_decide_eq_true_2.
    + rewrite !(bool_decide_eq_false_2 (p ∈ files_of d todo_id)) by done.
      rewrite bool_decide_eq_false_2; [done|]. by intros [? _].
Qed.

(** agent1 starts and completes item "A" of the scenario. *)
Lemma main_start_then_finish_witness :
  ∃ d2, Main.update_todo_status main_started_db 1 "completed" "agent1" 2
        = (inr (mk_status_update 1 "completed" None), d2).
Proof.
  destruct (main_start_then_finish main_scenario_db 1 "agent1" 1 2 "completed"
              (mk_status_update 1 "in_progress" (Some "agent1")) main_started_db)
    as (d2 & Heq & _).
  - vm_compute. reflexivity.
  - left. reflexivity.
  - exists d2. exact Heq.
Defined.

(** * Counts and percentages of get_project_status *)

Lemma count_status_bounds (l : list Todo.row) :
  0 ≤ count_status "completed" l ∧ 0 ≤ count_status "in_progress" l ∧
  0 ≤ count_status "pending" l ∧
  count_status "completed" l + count_status "in_progress" l
    + count_status "pending" l ≤ Z.of_nat (length l).
Proof.
  unfold count_status. do 3 (split; [lia|]).
  induction l as [|t l IH]; [done|].
  destruct (decide (Todo.status t = "completed")) as [Hs|Hc];
    [|destruct (decide (Todo.status t = "in_progress")) as [Hs|Hi];
      [|destruct (decide (Todo.status t = "pending")) as [Hs|Hp]]].
  - rewrite (filter_cons_True (λ ti, Todo.status ti = "completed")) by done.
    rewrite !filter_cons_False by (rewrite Hs; discriminate).
    cbn [length]. lia.
  - rewrite (filter_cons_True (λ ti, Todo.status ti = "in_progress")) by done.
    rewrite !filter_cons_False by (rewrite Hs; discriminate).
    cbn [length]. lia.
  - rewrite (filter_cons_True (λ ti, Todo.status ti = "pending")) by done.
    rewrite !filter_cons_False by (rewrite Hs; discriminate).
    cbn [length]. lia.
  - rewrite !filter_cons_False by done. cbn [length]. lia.
Qed.

Lemma counts_in_range_count_todos l q :
  completion_percentage (count_todos l) = Some q →
  counts_in_range (count_todos l) q.
Proof.
  rewrite completion_percentage_Some. intros [= <-].
  destruct (count_status_bounds l) as (Hc & Hi & Hp & Hsum).
  cbn [count_todos completed_todos total_todos in_progress_todos pending_todos].
  destruct (percentage_bounds (count_status "completed" l)
              (Z.of_nat (length l))) as (Hlow & Hhigh & Hall); [done|lia|].
  do 4 (split; [done|]). split; [exact Hlow|]. split; [exact Hhigh|exact Hall].
Qed.

Lemma task_id_le_transitive : Transitive task_id_le.
Proof. intros a b c. unfold task_id_le. lia. Qed.

Lemma task_id_le_total : Total task_id_le.
Proof. intros a b. unfold task_id_le. lia. Qed.

Lemma main_get_project_status_inv d project_name st :
  Main.get_project_status d project_name = Some (inr st) →
  project_by_name d project_name = Some (status_project st) ∧
  summary_task <$> status_tasks st
  = merge_sort task_id_le
      (filter (λ t, Task.project_id t = Project.id (status_project st)) (tasks d)) ∧
  Forall (λ ts,
            summary_counts ts
            = count_todos (todos_of_task d (Task.id (summary_task ts))) ∧
            completion_percentage (summary_counts ts)
            = Some (summary_percentage ts))
         (status_tasks st) ∧
  overall_stats st
  = count_todos (todos_of_project d (Project.id (status_project st))) ∧
  completion_percentage (overall_stats st) = Some (overall_percentage st).
Proof.
  unfold Main.get_project_status.
  destruct (project_by_name d project_name) as [p|]; [|by intros [= ?]].
  set (f := λ task_row : Task.row,
         completion_percentage (count_todos (todos_of_task d (Task.id task_row)))
         ≫= λ pct, Some (mk_task_summary task_row
                            (count_todos (todos_of_task d (Task.id task_row))) pct)).
  set (l := merge_sort task_id_le _).
  destruct (mapM f l) as [tasks|] eqn:Htasks; cbn [mbind option_bind]; [|done].
  destruct (completion_percentage (count_todos (todos_of_project d (Project.id p))))
    as [q|] eqn:Hq; cbn [mbind option_bind]; [|done].
  cbn [mbind option_bind]. intros [= <-].
  cbn [status_project status_tasks overall_stats overall_percentage].
  split; [done|]. apply mapM_Some in Htasks.
  split; [|split; [|done]].
  - change (summary_task <$> tasks = l).
    clear -Htasks. induction Htasks as [|x y l k Hxy _ IH]; [done|].
    rewrite fmap_cons, IH. f_equal. unfold f in Hxy.
    destruct (completion_percentage _); [|done]. by injection Hxy as <-.
  - clear -Htasks. induction Htasks as [|x y l k Hxy _ IH]; constructor; [|done].
    unfold f in Hxy.
    destruct (completion_percentage _) as [pct|] eqn:Hpct; [|done].
    injection Hxy as <-. by cbn [summary_counts summary_task summary_percentage].
Qed.

(** X14: what get_project_status of main.py reports.  The task summaries are
    the tasks of the project, in the order of their ids.  The counts of
    each summary are those of the todo rows of its task.  For each task and
    for the project as a whole no count is negative, the completed, in
    progress and pending counts together do not exceed the total, the
    percentage lies between 0 and 100, and it is 100 when there are todo
    items and all are completed. *)
Theorem main_get_project_status_summary d project_name st :
  Main.get_project_status d project_name = Some (inr st) →
  project_by_name d project_name = Some (status_project st) ∧
  (∀ t, t ∈ summary_task <$> status_tasks st ↔
        t ∈ tasks d ∧ Task.project_id t = Project.id (status_project st)) ∧
  StronglySorted task_id_le (summary_task <$> status_tasks st) ∧
  Forall (λ ts,
            summary_counts ts
            = count_todos (todos_of_task d (Task.id (summary_task ts))) ∧
            counts_in_range (summary_counts ts) (summary_percentage ts))
         (status_tasks st) ∧
  counts_in_range (overall_stats st) (overall_percentage st).
Proof.
  intros (Hp & Htasks & Hsummaries & Hstats & Hpct)%main_get_project_status_inv.
  split; [done|]. split; [|split; [|split]].
  - intros t. rewrite Htasks, merge_sort_Permutation, list_elem_of_filter.
    tauto.
  - rewrite Htasks.
    apply (@StronglySorted_merge_sort _ task_id_le _ task_id_le_transitive
             task_id_le_total).
  - eapply Forall_impl; [exact Hsummaries|]. intros ts [Hc Hq].
    split; [done|]. rewrite Hc in Hq |- *.
    by apply counts_in_range_count_todos.
  - rewrite Hstats in Hpct |- *. by apply counts_in_range_count_todos.
Qed.

(** The summary of the store of the scenario. *)
Lemma main_get_project_status_summary_witness :
  ∃ st, Main.get_project_status main_completed_db "P" = Some (inr st) ∧
        counts_in_range (overall_stats st) (overall_percentage st).
Proof.
  destruct (Main.get_project_status main_completed_db "P") as [[e|st]|] eqn:H.
  - exfalso. revert H. vm_compute. discriminate.
  - exists st. split; [reflexivity|].
    exact (proj2 (proj2 (proj2 (proj2
             (main_get_project_status_summary main_completed_db "P" st H))))).
  - exfalso. revert H. vm_compute. discriminate.
Defined.

Lemma sum_list_Z_app l k : sum_list_Z (l ++ k) = sum_list_Z l + sum_list_Z k.
Proof.
  unfold sum_list_Z. induction l as [|x l IH]; cbn [app foldr] in *; lia.
Qed.

Lemma sum_list_Z_Permutation l k : l ≡ₚ k → sum_list_Z l = sum_list_Z k.
Proof.
  unfold sum_list_Z.
  induction 1 as [|x l k _ IH|x y l|l k m _ IH1 _ IH2];
    cbn [foldr] in *; lia.
Qed.

Lemma sum_list_Z_add {A} (f g : A → Z) (l : list A) :
  sum_list_Z ((λ x, f x + g x) <$> l)
  = sum_list_Z (f <$> l) + sum_list_Z (g <$> l).
Proof.
  unfold sum_list_Z.
  induction l as [|x l IH]; cbn [fmap list_fmap foldr] in *; lia.
Qed.

Lemma sum_list_Z_indicator {A} (Q : A → Prop) `{∀ x, Decision (Q x)}
    (n : Z) (l : list A) :
  sum_list_Z ((λ x, if decide (Q x) then n else 0) <$> l)
  = n * Z.of_nat (length (filter Q l)).
Proof.
  unfold sum_list_Z. induction l as [|x l IH]; [cbn; lia|].
  rewrite fmap_cons. cbn [foldr] in *.
  destruct (decide (Q x)).
  - rewrite filter_cons_True by done. cbn [length]. lia.
  - rewrite filter_cons_False by done. lia.
Qed.

Lemma bind_singleton_fmap {A B} (g : A → B) (l : list A) :
  l ≫= (λ x, [g x]) = g <$> l.
Proof.
  induction l as [|x l IH]; [done|]. by rewrite bind_cons, IH.
Qed.

Lemma filter_fmap_pair {A B} (P : A * B → Prop) `{∀ r, Decision (P r)}
    (a : A) (l : list B) :
  filter P ((λ b, (a, b)) <$> l) = (λ b, (a, b)) <$> filter (λ b, P (a, b)) l.
Proof.
  induction l as [|b l IH]; [done|]. rewrite fmap_cons.
  destruct (decide (P (a, b))).
  - rewrite !filter_cons_True by done. by rewrite fmap_cons, IH.
  - rewrite !filter_cons_False by done. exact IH.
Qed.

Lemma filter_const {A B} (P : A → Prop) `{∀ x, Decision (P x)} (a : A)
    (l : list B) :
  length (filter P ((λ _, a) <$> l))
  = if decide (P a) then length l else 0%nat.
Proof.
  induction l as [|b l IH]; [by destruct (decide (P a))|].
  rewrite fmap_cons. destruct (decide (P a)).
  - rewrite filter_cons_True by done. cbn [length]. by rewrite IH.
  - rewrite filter_cons_False by done. exact IH.
Qed.

Lemma count_todos_of_project (P : Todo.row → Prop) `{∀ t, Decision (P t)}
    (T : list Task.row) (project_id : Z) (L : list Todo.row) :
  Z.of_nat (length (filter P
    (fst <$> filter (λ r : Todo.row * Task.row, Task.project_id r.2 = project_id)
               (L ≫= λ t, filter (λ task, Todo.task_id t = Task.id task) T
                            ≫= λ task, [(t, task)]))))
  = sum_list_Z
      ((λ task, Z.of_nat (length (filter P
                  (filter (λ ti, Todo.task_id ti = Task.id task) L))))
       <$> filter (λ t, Task.project_id t = project_id) T).
Proof.
  set (PT := filter (λ t, Task.project_id t = project_id) T).
  induction L as [|t L IH].
  - cbn. clear. unfold sum_list_Z. induction PT as [|x PT IH]; [done|].
    rewrite fmap_cons. cbn [foldr] in *. lia.
  - rewrite bind_cons, bind_singleton_fmap, filter_app, fmap_app, filter_app,
      length_app, Nat2Z.inj_add, IH.
    rewrite (filter_fmap_pair (λ r, Task.project_id r.2 = project_id)).
    rewrite <-list_fmap_compose. cbn [fst snd compose].
    rewrite list_filter_filter.
    rewrite (filter_const P t).
    rewrite (list_fmap_ext
      (λ task, Z.of_nat (length (filter P
                 (filter (λ ti, Todo.task_id ti = Task.id task) (t :: L)))))
      (λ task, (if decide (Todo.task_id t = Task.id task)
                then (if decide (P t) then 1 else 0) else 0)
               + Z.of_nat (length (filter P
                   (filter (λ ti, Todo.task_id ti = Task.id task) L))))
      PT).
    2:{ intros _ task _.
        destruct (decide (Todo.task_id t = Task.id task)).
        - rewrite (filter_cons_True (λ ti, Todo.task_id ti = Task.id task))
            by done.
          destruct (decide (P t)).
          + rewrite filter_cons_True by done. cbn [length]. lia.
          + rewrite filter_cons_False by done. lia.
        - rewrite (filter_cons_False (λ ti, Todo.task_id ti = Task.id task))
            by done. lia. }
    rewrite (sum_list_Z_add
      (λ task, if decide (Todo.task_id t = Task.id task)
               then (if decide (P t) then 1 else 0) else 0)).
    rewrite (sum_list_Z_indicator (λ task, Todo.task_id t = Task.id task)).
    f_equal. unfold PT. rewrite list_filter_filter.
    rewrite (filter_ext_in
      (λ x, Todo.task_id t = Task.id x ∧ Task.project_id x = project_id)
      (λ x, Task.project_id (t, x).2 = project_id ∧ Todo.task_id t = Task.id x)
      T) by (intros; cbn; tauto).
    cbn [snd]. destruct (decide (P t)); lia.
Qed.

Lemma count_status_of_project (P : Todo.row → Prop) `{∀ t, Decision (P t)}
    d project_id (summaries : list task_summary) :
  summary_task <$> summaries
  = merge_sort task_id_le
      (filter (λ t, Task.project_id t = project_id) (tasks d)) →
  Z.of_nat (length (filter P (todos_of_project d project_id)))
  = sum_list_Z
      ((λ ts, Z.of_nat (length (filter P
                 (todos_of_task d (Task.id (summary_task ts))))))
       <$> summaries).
Proof.
  intros Hsummaries.
  transitivity (sum_list_Z
    ((λ task, Z.of_nat (length (filter P (todos_of_task d (Task.id task)))))
     <$> (summary_task <$> summaries)));
    [|by rewrite <-list_fmap_compose].
  rewrite Hsummaries.
  rewrite (sum_list_Z_Permutation _
             ((λ task, Z.of_nat (length (filter P (todos_of_task d (Task.id task)))))
              <$> filter (λ t, Task.project_id t = project_id) (tasks d)))
    by (apply fmap_Permutation, merge_sort_Permutation).
  apply (count_todos_of_project P).
Qed.

(** X15: the counts of the project are the sums of the counts of its tasks.
    In the answer of get_project_status of main.py, the total, completed, in
    progress and pending counts of the project each equal the sum of that
    count over the task summaries. *)
Theorem main_get_project_status_sums d project_name st :
  Main.get_project_status d project_name = Some (inr st) →
  total_todos (overall_stats st)
  = sum_list_Z ((λ ts, total_todos (summary_counts ts)) <$> status_tasks st) ∧
  completed_todos (overall_stats st)
  = sum_list_Z ((λ ts, completed_todos (summary_counts ts)) <$> status_tasks st) ∧
  in_progress_todos (overall_stats st)
  = sum_list_Z ((λ ts, in_progress_todos (summary_counts ts)) <$> status_tasks st) ∧
  pending_todos (overall_stats st)
  = sum_list_Z ((λ ts, pending_todos (summary_counts ts)) <$> status_tasks st).
Proof.
  intros (Hp & Htasks & Hsummaries & Hstats & Hpct)%main_get_project_status_inv.
  assert (∀ (g : todo_counts → Z) (P : Todo.row → Prop) `{∀ t, Decision (P t)},
    (∀ l, g (count_todos l) = Z.of_nat (length (filter P l))) →
    g (overall_stats st) = sum_list_Z ((λ ts, g (summary_counts ts)) <$> status_tasks st))
    as Hsum.
  { intros g P HP Hg. rewrite Hstats, Hg.
    rewrite (count_status_of_project P d _ _ Htasks).
    f_equal. apply Forall_fmap_ext.
    eapply Forall_impl; [exact Hsummaries|]. intros ts [-> _].
    by rewrite Hg. }
  split; [|split; [|split]].
  - apply (Hsum total_todos (λ _, True) _). intros l.
    cbn [count_todos total_todos]. by rewrite filter_all.
  - by apply (Hsum completed_todos (λ ti, Todo.status ti = "completed") _).
  - by apply (Hsum in_progress_todos (λ ti, Todo.status ti = "in_progress") _).
  - by apply (Hsum pending_todos (λ ti, Todo.status ti = "pending") _).
Qed.

(** The sums in the store of the plan with two tasks, of which the second
    has the one todo item. *)
Lemma main_get_project_status_sums_witness :
  ∃ st, Main.get_project_status task_dependency_db "P" = Some (inr st) ∧
        (λ ts, total_todos (summary_counts ts)) <$> status_tasks st = [0; 1] ∧
        (λ ts, pending_todos (summary_counts ts)) <$> status_tasks st = [0; 1] ∧
        total_todos (overall_stats st)
        = sum_list_Z ((λ ts, total_todos (summary_counts ts)) <$> status_tasks st) ∧
        pending_todos (overall_stats st)
        = sum_list_Z ((λ ts, pending_todos (summary_counts ts)) <$> status_tasks st).
Proof.
  destruct (Main.get_project_status task_dependency_db "P") as [[e|st]|] eqn:H.
  - exfalso. revert H. vm_compute. discriminate.
  - exists st. split; [reflexivity|].
    destruct (main_get_project_status_sums task_dependency_db "P" st H)
      as (Htotal & _ & _ & Hpending).
    split; [|split; [|split; [exact Htotal|exact Hpending]]].
    + revert H. vm_compute. by intros [= <-].
    + revert H. vm_compute. by intros [= <-].
  - exfalso. revert H. vm_compute. discriminate.
Defined.

(** * server.py: tasks, status updates and locks *)

Section server_tools.

Import Server.
Import ServerTools.

Lemma server_tasks_create_todo_item d task_id title description order deps paths :
  tasks (_create_todo_item d task_id title description order deps paths).2
  = tasks d.
Proof.
  unfold _create_todo_item. destruct (find _ (tasks d)); [|done].
  by destruct (foldl _ _ _).
Qed.

Lemma server_tasks_lock_files d paths agent_id :
  tasks (_lock_files d paths agent_id).2 = tasks d.
Proof. unfold _lock_files. by destruct (foldl _ _ _) as [[? ?] ?]. Qed.

Lemma server_tasks_unlock_files d paths agent_id :
  tasks (_unlock_files d paths agent_id).2 = tasks d.
Proof. unfold _unlock_files. by destruct (foldl _ _ _) as [[? ?] ?]. Qed.

Lemma server_tasks_update_todo_status d todo_id status agent_id :
  tasks (_update_todo_status d todo_id status agent_id).2 = tasks d.
Proof. unfold _update_todo_status. by destruct (find _ _). Qed.

Lemma server_tasks_get_next_todo_item d project_name agent_id :
  (_get_next_todo_item d project_name agent_id).2 = d.
Proof.
  unfold _get_next_todo_item. destruct (project_by_name _ _); [|done].
  by destruct (find _ _).
Qed.

Lemma server_reachable_tasks d :
  reachable d →
  NoDup (t_id <$> tasks d) ∧ ∀ t, t ∈ tasks d → t_status t = "pending".
Proof.
  induction 1 as [|d c _ [IHk IHp]].
  - split; [apply NoDup_nil_2|]. intros t Ht. by apply elem_of_nil in Ht.
  - destruct c; cbn [exec].
    + unfold _create_project. by destruct (project_by_name _ _).
    + unfold _create_task.
      destruct (project_by_name d project_name) as [p|]; [|done].
      cbn [snd tasks]. split.
      * rewrite fmap_app. apply NoDup_app. split; [done|].
        split; [|apply NoDup_singleton].
        intros x Hx ->%list_elem_of_singleton. by apply lastrowid_fresh in Hx.
      * intros t [Ht| ->%list_elem_of_singleton]%elem_of_app; [by apply IHp|done].
    + by rewrite server_tasks_create_todo_item.
    + by rewrite server_tasks_get_next_todo_item.
    + by rewrite server_tasks_update_todo_status.
    + by rewrite server_tasks_lock_files.
    + by rewrite server_tasks_unlock_files.
Qed.

(** X16: in server.py a task that depends on an existing task never gets
    work.  No statement of the tools of server.py writes the status of a
    task, so in every store built with them from the empty one the task
    ids are distinct and every task is pending; the loop of
    _get_next_todo_item skips an item while a task its task depends on is
    not completed, hence the task of an item it returns depends on no
    task of the table. *)
Theorem server_dependent_tasks_starve d :
  reachable d →
  NoDup (t_id <$> tasks d) ∧
  (∀ t, t ∈ tasks d → t_status t = "pending") ∧
  ∀ project_name agent_id item task_name paths d',
    _get_next_todo_item d project_name agent_id
      = (NextItem item task_name paths, d') →
    ∀ task, task ∈ tasks d → t_id task = ti_task_id item →
      ∀ dep, dep ∈ t_dependencies task → dep ∉ t_id <$> tasks d.
Proof.
  intros [Hkeys Hpending]%server_reachable_tasks. do 2 (split; [done|]).
  intros project_name agent_id item task_name paths d' Hnext task Htask Hid
         dep Hdep (t & -> & Ht)%list_elem_of_fmap.
  destruct (server_get_next_todo_item_gated _ _ _ _ _ _ _ Hnext)
    as (task0 & _ & Htask0 & Hid0 & _ & Hgate & _).
  assert (task = task0) as ->.
  { apply (NoDup_fmap_eq t_id (tasks d)); [done..|congruence]. }
  specialize (Hgate t Ht Hdep). rewrite (Hpending t Ht) in Hgate.
  discriminate.
Qed.

(** The plan with task "T2" depending on task "T1". *)
Lemma server_dependent_tasks_starve_witness :
  reachable server_task_dependency_db ∧
  ∀ t, t ∈ tasks server_task_dependency_db → t_status t = "pending".
Proof.
  assert (reachable server_task_dependency_db) as H.
  { apply (reachable_exec _ (CreateTodoItem 2 "X" "" 0 [] [])).
    apply (reachable_exec _ (CreateTask "P" "T2" "" 1 [1])).
    apply (reachable_exec _ (CreateTask "P" "T1" "" 0 [])).
    apply (reachable_exec _ (CreateProject "P" "demo")).
    constructor. }
  split; [exact H|].
  exact (proj1 (proj2 (server_dependent_tasks_starve _ H))).
Defined.

Lemma file_by_path_set_lock_where_id_in fs ids locked_ by_ p :
  file_by_path (set_lock_where_id_in fs ids locked_ by_) p =
  (λ f, if bool_decide (f_id f ∈ ids)
        then mk_file (f_id f) (f_path f) locked_ by_ else f)
  <$> file_by_path fs p.
Proof.
  unfold file_by_path, set_lock_where_id_in. rewrite find_fmap. f_equal.
  apply find_ext_in. intros f _. by destruct (bool_decide (f_id f ∈ ids)).
Qed.

(** X17: _update_todo_status of server.py.  It fails only when no todo
    item has the id, and then changes nothing.  Otherwise it accepts any
    status string from any agent, sets it on the item, and rewrites the
    lock of every file linked to the item without looking at its holder:
    for in_progress the file becomes locked by the caller, for completed
    or cancelled it becomes unlocked, whoever held it; for any other
    status, and for files not linked to the item, the row found for a
    path is the one found before. *)
Theorem server_update_todo_status_files d todo_id status agent_id :
  (∀ e d', _update_todo_status d todo_id status agent_id = (inl e, d') →
     e = TodoNotFound todo_id ∧ d' = d ∧ todo_id ∉ ti_id <$> todo_items d) ∧
  ∀ r d', _update_todo_status d todo_id status agent_id = (inr r, d') →
    r = (todo_id, status) ∧
    (∀ ti, ti ∈ todo_items d' → ti_id ti = todo_id → ti_status ti = status) ∧
    (∀ p f, file_by_path (files d) p = Some f →
       file_by_path (files d') p =
       Some (if bool_decide (f_id f ∈ file_ids_of d todo_id)
             then if bool_decide (status = "in_progress")
                  then mk_file (f_id f) (f_path f) true (Some agent_id)
                  else if bool_decide (status ∈ ["completed"; "cancelled"])
                       then mk_file (f_id f) (f_path f) false None
                       else f
             else f)) ∧
    (status ∈ ["completed"; "cancelled"] →
     ∀ p f, file_by_path (files d) p = Some f →
            f_id f ∈ file_ids_of d todo_id → free (files d') p).
Proof.
  unfold _update_todo_status.
  destruct (find (λ ti, bool_decide (ti_id ti = todo_id)) (todo_items d))
    as [row|] eqn:Hrow.
  - split; [done|]. intros r d' [= <- <-]. split; [done|].
    cbn [todo_items files].
    assert (∀ p f, file_by_path (files d) p = Some f →
       file_by_path
         (if bool_decide (status = "in_progress")
          then set_lock_where_id_in (files d) (file_ids_of d todo_id) true
                 (Some agent_id)
          else if bool_decide (status ∈ ["completed"; "cancelled"])
               then set_lock_where_id_in (files d) (file_ids_of d todo_id)
                      false None
               else files d) p =
       Some (if bool_decide (f_id f ∈ file_ids_of d todo_id)
             then if bool_decide (status = "in_progress")
                  then mk_file (f_id f) (f_path f) true (Some agent_id)
                  else if bool_decide (status ∈ ["completed"; "cancelled"])
                       then mk_file (f_id f) (f_path f) false None
                       else f
             else f)) as Hfiles.
    { intros p f Hf.
      destruct (bool_decide (status = "in_progress"));
        [|destruct (bool_decide (status ∈ ["completed"; "cancelled"]))];
        rewrite ?file_by_path_set_lock_where_id_in, Hf;
        cbn [fmap option_fmap option_map];
        by destruct (bool_decide (f_id f ∈ file_ids_of d todo_id)). }
    split; [|split; [exact Hfiles|]].
    + intros ti (t0 & -> & _)%list_elem_of_fmap.
      destruct (decide (ti_id t0 = todo_id)) as [Heq|Hne].
      * by rewrite !(bool_decide_eq_true_2 (ti_id t0 = todo_id)).
      * by rewrite !(bool_decide_eq_false_2 (ti_id t0 = todo_id)).
    + intros Hfinal p f Hf Hlinked f' Hf'.
      rewrite (Hfiles p f Hf) in Hf'.
      rewrite (bool_decide_eq_true_2 (f_id f ∈ file_ids_of d todo_id)) in Hf'
        by done.
      rewrite (bool_decide_eq_true_2 (status ∈ ["completed"; "cancelled"]))
        in Hf' by done.
      assert (status ≠ "in_progress") as Hnot.
      { intros ->. rewrite !elem_of_cons, elem_of_nil in Hfinal.
        naive_solver. }
      rewrite (bool_decide_eq_false_2 (status = "in_progress")) in Hf' by done.
      by injection Hf' as <-.
  - split; [|done]. intros e d' [= <- <-]. do 2 (split; [done|]).
    intros (t & Heq & Hin)%list_elem_of_fmap.
    destruct (find_is_Some (λ ti, bool_decide (ti_id ti = todo_id))
                (todo_items d) t Hin) as [? H];
      [by apply bool_decide_eq_true|congruence].
Qed.

Lemma lookup_server_check_file_locks d paths p :
  _check_file_locks d paths !! p =
  if bool_decide (p ∈ paths)
  then Some (match file_by_path (files d) p with
             | Some result => (f_locked result, f_locked_by result)
             | None => (false, None)
             end)
  else None.
Proof.
  unfold _check_file_locks.
  assert (∀ m : gmap string (bool * option string),
    foldl (λ file_status file_path,
             match file_by_path (files d) file_path with
             | Some result =>
                 <[file_path := (f_locked result, f_locked_by result)]>
                   file_status
             | None => <[file_path := (false, None)]> file_status
             end) m paths !! p =
    if bool_decide (p ∈ paths)
    then Some (match file_by_path (files d) p with
               | Some result => (f_locked result, f_locked_by result)
               | None => (false, None)
               end)
    else m !! p) as Hfold.
  { induction paths as [|q paths IH]; intros m; cbn [foldl].
    - by rewrite bool_decide_eq_false_2 by apply not_elem_of_nil.
    - rewrite IH. destruct (decide (p ∈ paths)) as [Hp|Hp].
      + rewrite !bool_decide_eq_true_2; [done|by apply elem_of_cons; right|done].
      + rewrite (bool_decide_eq_false_2 (p ∈ paths)) by done.
        destruct (decide (p = q)) as [->|Hpq].
        * rewrite bool_decide_eq_true_2 by (apply elem_of_cons; by left).
          destruct (file_by_path (files d) q);
            rewrite lookup_insert; by rewrite decide_True.
        * rewrite bool_decide_eq_false_2
            by (rewrite elem_of_cons; naive_solver).
          destruct (file_by_path (files d) q);
            by rewrite lookup_insert_ne. }
  rewrite Hfold, lookup_empty. done.
Qed.

Lemma lock_one_locked agent_id fs ls fl q p :
  (∃ f, file_by_path fs p = Some f ∧ f_locked f = true) →
  ∃ f, file_by_path (lock_one agent_id (fs, ls, fl) q).1.1 p = Some f ∧
       f_locked f = true.
Proof.
  intros (f & Hf & Hlocked). unfold lock_one.
  destruct (file_by_path fs q) as [r|] eqn:Hq.
  - destruct (negb (f_locked r)); cbn [fst]; [|by exists f].
    rewrite file_by_path_set_lock_where_id, Hf.
    cbn [fmap option_fmap option_map]. eexists. split; [done|].
    by case_bool_decide.
  - cbn [fst]. rewrite file_by_path_snoc, Hf. by exists f.
Qed.

Lemma foldl_lock_one_locked agent_id paths fs ls fl p :
  (∃ f, file_by_path fs p = Some f ∧ f_locked f = true) →
  ∃ f, file_by_path (foldl (lock_one agent_id) (fs, ls, fl) paths).1.1 p = Some f ∧
       f_locked f = true.
Proof.
  revert fs ls fl. induction paths as [|q paths IH]; intros fs ls fl H; [done|].
  cbn [foldl].
  pose proof (lock_one_locked agent_id fs ls fl q p H) as H'.
  destruct (lock_one agent_id (fs, ls, fl) q) as [[fs' ls'] fl'].
  by apply IH.
Qed.

(** X18: _lock_files of server.py followed by _check_file_locks.  After
    _lock_files every requested path has a row and the row is locked: by
    the caller when the path was free before the call.  _check_file_locks
    on the same paths then reports each of them as locked, with the
    holder of that row. *)
Theorem server_lock_files_then_check d paths agent_id p :
  p ∈ paths →
  ∃ f, file_by_path (files (_lock_files d paths agent_id).2) p = Some f ∧
       f_locked f = true ∧
       (free (files d) p → f_locked_by f = Some agent_id) ∧
       _check_file_locks (_lock_files d paths agent_id).2 paths !! p
       = Some (true, f_locked_by f).
Proof.
  intros Hp.
  assert (∃ f, file_by_path (files (_lock_files d paths agent_id).2) p = Some f ∧
               f_locked f = true ∧
               (free (files d) p → f_locked_by f = Some agent_id))
    as (f & Hf & Hlocked & Hfree).
  { destruct (file_by_path (files d) p) as [f0|] eqn:Hf0;
      [destruct (f_locked f0) eqn:Hl0|].
    - pose proof (foldl_lock_one_locked agent_id paths (files d) [] [] p
                    (ex_intro _ f0 (conj Hf0 Hl0))) as (f & Hf & Hlocked).
      exists f. unfold _lock_files.
      destruct (foldl _ _ _) as [[fs ls] fl]. cbn [fst snd with_files files] in *.
      do 2 (split; [done|]). intros Hfree.
      specialize (Hfree f0 Hf0). congruence.
    - assert (free (files d) p) as Hfree by (intros ? ?; congruence).
      destruct (server_lock_files_free d paths agent_id p Hp Hfree)
        as (f & Hf & Hlocked & Hby). by exists f.
    - assert (free (files d) p) as Hfree by (intros ? ?; congruence).
      destruct (server_lock_files_free d paths agent_id p Hp Hfree)
        as (f & Hf & Hlocked & Hby). by exists f. }
  exists f. do 3 (split; [done|]).
  rewrite lookup_server_check_file_locks, bool_decide_eq_true_2 by done.
  by rewrite Hf, Hlocked.
Qed.

(** agent1 asks for a free path and a path of agent2. *)
Lemma server_lock_files_then_check_witness :
  ∃ f, file_by_path (files (_lock_files server_held_db ["a"; "b"] "agent1").2) "a"
       = Some f ∧ f_locked f = true.
Proof.
  destruct (server_lock_files_then_check server_held_db ["a"; "b"] "agent1" "a")
    as (f & Hf & Hlocked & _).
  - apply elem_of_cons. left. reflexivity.
  - exists f. split; [exact Hf|exact Hlocked].
Defined.

End server_tools.

(** * models.py: files, todo items and tasks *)

Section models.

Import Models.

(** X19: the lock of a File object.  A file that is not locked can be
    locked; it is then locked by the given holder, with its id and path
    kept, and a second lock raises.  Unlocking with a non-empty name
    other than the holder's raises and leaves the object as it is;
    unlocking with the holder's name, or with no name or the empty name
    (no owner check is made then), succeeds and leaves the file unlocked
    with no holder, after which a further unlock raises. *)
Theorem file_lock_protocol f agent now now' :
  _locked f = false →
  ∃ f1, lock f agent now = inr f1 ∧
    is_locked f1 = true ∧ locked_by f1 = Some agent ∧
    file_id f1 = file_id f ∧ file_path f1 = file_path f ∧
    (∀ other, lock f1 other now' = inl (AlreadyLocked (Some agent))) ∧
    (∀ other, other ≠ "" → other ≠ agent →
       unlock f1 (Some other) now'
       = inl (LockedBy (Some agent) (Some other))) ∧
    (∀ u, u = None ∨ u = Some "" ∨ u = Some agent →
       ∃ f2, unlock f1 u now' = inr f2 ∧
             is_locked f2 = false ∧ locked_by f2 = None ∧
             file_id f2 = file_id f ∧ file_path f2 = file_path f ∧
             unlock f2 u now' = inl NotLocked).
Proof.
  intros Hfree. unfold lock. rewrite Hfree. eexists. split; [done|].
  cbn [is_locked locked_by _locked _locked_by file_id file_path].
  do 4 (split; [done|]). split; [done|]. split.
  - intros other Hne Hother. unfold unlock. cbn [_locked _locked_by negb truthy].
    rewrite (bool_decide_eq_false_2 (other = "")) by done.
    rewrite (bool_decide_eq_false_2 (Some agent = Some other)) by congruence.
    done.
  - intros u Hu. unfold unlock at 1. cbn [_locked _locked_by negb].
    assert (truthy u && negb (bool_decide (Some agent = u)) = false) as ->.
    { destruct Hu as [-> | [-> | ->]]; [done|done|].
      rewrite (bool_decide_eq_true_2 (Some agent = Some agent)) by done.
      apply andb_false_r. }
    eexists. split; [done|]. by cbn.
Qed.

(** agent1 locks a fresh file; an unlock without a name releases it. *)
Lemma file_lock_protocol_witness :
  ∃ f1, lock (mk_File 1 "a.py" 0 0 false None) "agent1" 1 = inr f1 ∧
        ∃ f2, unlock f1 None 2 = inr f2 ∧ is_locked f2 = false.
Proof.
  destruct (file_lock_protocol (mk_File 1 "a.py" 0 0 false None) "agent1" 1 2)
    as (f1 & Hlock & _ & _ & _ & _ & _ & _ & Hunlock).
  - reflexivity.
  - exists f1. split; [exact Hlock|].
    destruct (Hunlock None) as (f2 & Hf2 & Hfree & _).
    + left. reflexivity.
    + exists f2. split; [exact Hf2|exact Hfree].
Defined.

Lemma insert_by_order_Permutation x l : insert_by_order x l ≡ₚ x :: l.
Proof.
  induction l as [|y l IH]; [done|]. cbn [insert_by_order].
  case_bool_decide; [done|]. by rewrite IH, Permutation_swap.
Qed.

Lemma sorted_by_order_Permutation l : sorted_by_order l ≡ₚ l.
Proof.
  induction l as [|x l IH]; [done|].
  cbn [sorted_by_order foldr]. fold (sorted_by_order l).
  by rewrite insert_by_order_Permutation, IH.
Qed.

Lemma insert_by_order_sorted x l :
  StronglySorted (λ a b, todo_order a ≤ todo_order b) l →
  StronglySorted (λ a b, todo_order a ≤ todo_order b) (insert_by_order x l).
Proof.
  induction 1 as [|y l Hl IH Hy]; cbn [insert_by_order].
  - by repeat constructor.
  - case_bool_decide as Hxy.
    + constructor; [by constructor|]. constructor; [done|].
      eapply Forall_impl; [exact Hy|]. intros z Hz. cbn in Hz |- *. lia.
    + constructor; [done|]. rewrite insert_by_order_Permutation.
      constructor; [lia|done].
Qed.

Lemma sorted_by_order_sorted l :
  StronglySorted (λ a b, todo_order a ≤ todo_order b) (sorted_by_order l).
Proof.
  induction l as [|x l IH]; [constructor|].
  cbn [sorted_by_order foldr]. by apply insert_by_order_sorted.
Qed.

Lemma StronglySorted_filter {A} (R : relation A) (P : A → Prop)
    `{∀ x, Decision (P x)} (l : list A) :
  StronglySorted R l → StronglySorted R (filter P l).
Proof.
  induction 1 as [|x l Hl IH Hx]; [constructor|].
  destruct (decide (P x)).
  - rewrite filter_cons_True by done. constructor; [done|].
    apply Forall_forall. intros y [_ Hy]%list_elem_of_filter.
    rewrite Forall_forall in Hx. by apply Hx.
  - by rewrite filter_cons_False.
Qed.

Lemma is_available_spec item completed in_progress :
  is_available item completed in_progress = true ↔
  todo_status item = PENDING ∧
  (∀ dep, dep ∈ todo_dependencies item → dep ∈ completed) ∧
  todo_id item ∉ in_progress.
Proof.
  unfold is_available, can_start.
  rewrite !andb_true_iff, negb_true_iff, bool_decide_eq_true,
    bool_decide_eq_false, forallb_forall.
  split.
  - intros [[Hs Hd] Hi]. split; [done|]. split; [|done].
    intros dep Hdep%list_elem_of_In.
    by apply (bool_decide_eq_true_1 (dep ∈ completed)), Hd.
  - intros (Hs & Hd & Hi). split; [split; [done|]|done].
    intros dep Hdep%list_elem_of_In.
    by apply (bool_decide_eq_true_2 (dep ∈ completed)), Hd.
Qed.

(** X20: Task.get_available_todo_items.  The result is ordered by the
    items' order values, it is the list of the available items of the
    task up to their order (each as often as it is in the task), and an
    item is available exactly when it is pending, each of its
    dependencies is among the completed ids, and its id is not among the
    ids in progress. *)
Theorem get_available_todo_items_spec t completed in_progress :
  StronglySorted (λ a b, todo_order a ≤ todo_order b)
    (get_available_todo_items t completed in_progress) ∧
  get_available_todo_items t completed in_progress
    ≡ₚ filter (λ item, is_available item completed in_progress = true)
         (_todo_items t) ∧
  ∀ item, item ∈ get_available_todo_items t completed in_progress ↔
          item ∈ _todo_items t ∧ todo_status item = PENDING ∧
          (∀ dep, dep ∈ todo_dependencies item → dep ∈ completed) ∧
          todo_id item ∉ in_progress.
Proof.
  unfold get_available_todo_items. split; [|split].
  - apply StronglySorted_filter, sorted_by_order_sorted.
  - by rewrite sorted_by_order_Permutation.
  - intros item.
    rewrite list_elem_of_filter, sorted_by_order_Permutation,
      is_available_spec. tauto.
Qed.

Lemma length_filter_all {A} (P : A → Prop) `{∀ x, Decision (P x)} (l : list A) :
  length (filter P l) = length l ↔ ∀ x, x ∈ l → P x.
Proof.
  split.
  - intros Hlen x Hx. destruct (decide (P x)) as [|Hn]; [done|].
    pose proof (length_filter_lt P l x Hx Hn). lia.
  - intros Hall. by rewrite filter_all.
Qed.

Lemma ratio_100 (c n : Z) :
  0 < n → (inject_Z c / inject_Z n * 100 == 100)%Q → c = n.
Proof.
  intros Hn H.
  assert (¬ (inject_Z n == 0)%Q) as Hnz.
  { change 0%Q with (inject_Z 0). rewrite inject_Z_injective. lia. }
  rewrite <-(Qmult_1_l 100) in H at 2.
  apply Qmult_inj_r in H; [|done].
  apply inject_Z_injective.
  rewrite <-(Qmult_div_r (inject_Z c) (inject_Z n)) by done.
  rewrite H. apply Qmult_1_r.
Qed.

(** X21: Task.completion_percentage never divides by zero and lies
    between 0 and 100.  For a task without todo items it is 100 when the
    task is completed and 0 otherwise; for a task with todo items it is
    100 exactly when every item is completed and 0 exactly when none
    is. *)
Theorem task_completion_percentage_range t :
  ∃ q, task_completion_percentage t = Some q ∧
    (0 <= q)%Q ∧ (q <= 100)%Q ∧
    (_todo_items t = [] →
     q = if task_is_completed t then 100%Q else 0%Q) ∧
    (_todo_items t ≠ [] →
     ((q == 100)%Q ↔
      ∀ item, item ∈ _todo_items t → todo_status item = COMPLETED) ∧
     ((q == 0)%Q ↔
      ∀ item, item ∈ _todo_items t → todo_status item ≠ COMPLETED)).
Proof.
  unfold task_completion_percentage.
  destruct (_todo_items t) as [|item items] eqn:Hitems.
  - eexists. split; [done|]. by destruct (task_is_completed t).
  - set (l := item :: items).
    set (c := Z.of_nat (length (filter (λ i, todo_is_completed i = true) l))).
    set (n := Z.of_nat (length l)).
    assert (0 < n) as Hn by (unfold n, l; cbn [length]; lia).
    assert (0 ≤ c ∧ c ≤ n) as [Hc Hcn].
    { unfold c, n.
      pose proof (length_filter (λ i, todo_is_completed i = true) l). lia. }
    unfold py_truediv. rewrite (bool_decide_eq_false_2 (n = 0)) by lia.
    cbn [mbind option_bind]. eexists. split; [done|].
    destruct (ratio_bounds c n Hc Hcn) as (Hlow & Hhigh & Hall).
    rewrite Z.max_l in Hlow, Hhigh, Hall by lia.
    do 2 (split; [done|]). split; [done|]. intros _. split.
    + split.
      * intros Heq%ratio_100; [|done]. unfold c, n in Heq.
        apply Nat2Z.inj in Heq.
        intros i Hi. apply (proj1 (length_filter_all _ l) Heq) in Hi.
        by apply bool_decide_eq_true in Hi.
      * intros Hcompleted. apply Hall; [done|]. unfold c, n. f_equal.
        apply length_filter_all. intros i Hi.
        by apply bool_decide_eq_true, Hcompleted.
    + split.
      * intros Heq i Hi Hcompleted.
        assert (c = 0) as Hzero.
        { apply inject_Z_injective.
          assert (¬ (inject_Z n == 0)%Q) as Hnz.
          { change 0%Q with (inject_Z 0). rewrite inject_Z_injective. lia. }
          rewrite <-(Qmult_div_r (inject_Z c) (inject_Z n)) by done.
          rewrite <-(Qmult_0_l 100) in Heq.
          apply Qmult_inj_r in Heq; [|done]. rewrite Heq. apply Qmult_0_r. }
        unfold c in Hzero.
        assert (i ∈ filter (λ i, todo_is_completed i = true) l) as Hin.
        { apply list_elem_of_filter. split; [|done].
          by apply bool_decide_eq_true. }
        destruct (filter _ l); [by apply elem_of_nil in Hin|].
        cbn [length] in Hzero. lia.
      * intros Hnone.
        assert (c = 0) as ->.
        { unfold c. rewrite filter_nil_not; [done|].
          intros i Hi Hcompleted%bool_decide_eq_true. by apply (Hnone i). }
        unfold Qdiv. by rewrite !Qmult_0_l.
Qed.

Lemma existsb_key {A} `{EqDecision K} (key : A → K) (l : list A) k :
  existsb (λ x, bool_decide (key x = k)) l = true ↔ k ∈ key <$> l.
Proof.
  rewrite existsb_exists, list_elem_of_fmap. split.
  - intros (x & Hx%list_elem_of_In & Hk%bool_decide_eq_true). by exists x.
  - intros (x & -> & Hx). exists x.
    split; [by apply list_elem_of_In|by apply bool_decide_eq_true].
Qed.

Lemma existsb_key_bool {A} (key : A → Z) (l : list A) (k : Z) :
  existsb (λ x, bool_decide (key x = k)) l = bool_decide (k ∈ key <$> l).
Proof.
  apply eq_true_iff_eq. by rewrite existsb_key, bool_decide_eq_true.
Qed.

Lemma remove_first_key {A} `{EqDecision K} (key : A → K) (l : list A) k :
  NoDup (key <$> l) →
  NoDup (key <$> remove_first (λ x, bool_decide (key x = k)) l) ∧
  ∀ k', k' ∈ key <$> remove_first (λ x, bool_decide (key x = k)) l ↔
        k' ∈ key <$> l ∧ k' ≠ k.
Proof.
  induction l as [|x l IH]; intros Hnd.
  - split; [done|]. intros k'. cbn. rewrite elem_of_nil. tauto.
  - rewrite fmap_cons in Hnd. apply NoDup_cons in Hnd as [Hx Hnd].
    destruct (IH Hnd) as [IHnd IHin]. cbn [remove_first].
    case_bool_decide as Hk.
    + split; [done|]. intros k'. rewrite fmap_cons, elem_of_cons.
      split; [|naive_solver]. intros Hk'. split; [by right|].
      intros ->. by rewrite <-Hk in Hk'.
    + rewrite !fmap_cons. split.
      * apply NoDup_cons. split; [|done]. rewrite IHin. tauto.
      * intros k'. rewrite !elem_of_cons, IHin. naive_solver.
Qed.

(** X22: membership by id in Task.add_todo_item and remove_todo_item and
    in TodoItem.add_file and remove_file.  Adding keeps the ids of the
    list distinct, makes the object a member and changes the membership
    of no other id; adding a member again changes nothing; the added
    todo item refers back to the task.  Removing from a list with
    distinct ids leaves no member with that id and keeps all others. *)
Theorem add_remove_by_id t item ti file now now' :
  (NoDup (todo_id <$> _todo_items t) →
   let t' := (add_todo_item t item now).1 in
   NoDup (todo_id <$> _todo_items t') ∧
   contains_todo_item t' item = true ∧
   add_todo_item t' item now' = (t', item) ∧
   (contains_todo_item t item = false →
    _task (add_todo_item t item now).2 = Some (task_id t)) ∧
   (∀ other, todo_id other ≠ todo_id item →
      contains_todo_item t' other = contains_todo_item t other ∧
      contains_todo_item (remove_todo_item t' item now').1 other
      = contains_todo_item t other) ∧
   contains_todo_item (remove_todo_item t' item now').1 item = false) ∧
  (NoDup (file_id <$> _files ti) →
   let ti' := add_file ti file now in
   NoDup (file_id <$> _files ti') ∧
   contains_file ti' file = true ∧
   add_file ti' file now' = ti' ∧
   (∀ other, file_id other ≠ file_id file →
      contains_file ti' other = contains_file ti other ∧
      contains_file (remove_file ti' file now') other
      = contains_file ti other) ∧
   contains_file (remove_file ti' file now') file = false).
Proof.
  split.
  - intros Hnd. unfold add_todo_item, remove_todo_item, contains_todo_item.
    rewrite !(existsb_key_bool todo_id _ (todo_id item)).
    destruct (decide (todo_id item ∈ todo_id <$> _todo_items t)) as [Hin|Hnin].
    + rewrite !(bool_decide_eq_true_2 _ Hin). cbn [negb fst snd].
      rewrite ?(existsb_key_bool todo_id _ (todo_id item)), ?(bool_decide_eq_true_2 _ Hin).
      cbn [negb fst snd with_todo_items _todo_items].
      destruct (remove_first_key todo_id (_todo_items t) (todo_id item) Hnd)
        as [_ Hrem].
      do 3 (split; [done|]). split; [done|]. split.
      * intros other Hother. split; [done|].
        rewrite !(existsb_key_bool todo_id _ (todo_id other)). apply bool_decide_ext.
        rewrite Hrem. tauto.
      * rewrite ?(existsb_key_bool todo_id _ (todo_id item)). apply bool_decide_eq_false.
        rewrite Hrem. tauto.
    + rewrite !(bool_decide_eq_false_2 _ Hnin).
      cbn [negb fst snd with_todo_items _todo_items _task].
      set (item' := mk_TodoItem _ _ _ _ _ _ _ _ _ _).
      assert (NoDup (todo_id <$> _todo_items t ++ [item'])) as Hnd'.
      { rewrite fmap_app. apply NoDup_app. split; [done|].
        split; [|apply NoDup_singleton].
        by intros x Hx ->%list_elem_of_singleton. }
      assert (todo_id item ∈ todo_id <$> _todo_items t ++ [item']) as Hin'.
      { rewrite fmap_app, elem_of_app. right. by apply list_elem_of_singleton. }
      rewrite ?(existsb_key_bool todo_id _ (todo_id item)).
      rewrite ?(bool_decide_eq_true_2 _ Hin').
      cbn [negb fst snd with_todo_items _todo_items].
      destruct (remove_first_key todo_id (_todo_items t ++ [item'])
                  (todo_id item) Hnd') as [_ Hrem].
      do 4 (split; [done|]). split.
      * intros other Hother. rewrite !(existsb_key_bool todo_id _ (todo_id other)).
        assert (todo_id item' = todo_id item) as Hid' by done.
        split; apply bool_decide_ext; rewrite ?Hrem, fmap_app, elem_of_app;
          cbn [fmap list_fmap]; rewrite list_elem_of_singleton, Hid';
          naive_solver.
      * rewrite ?(existsb_key_bool todo_id _ (todo_id item)). apply bool_decide_eq_false.
        rewrite Hrem. tauto.
  - intros Hnd. unfold add_file, remove_file, contains_file.
    rewrite !(existsb_key_bool file_id _ (file_id file)).
    destruct (decide (file_id file ∈ file_id <$> _files ti)) as [Hin|Hnin].
    + rewrite !(bool_decide_eq_true_2 _ Hin). cbn [negb].
      rewrite ?(existsb_key_bool file_id _ (file_id file)), ?(bool_decide_eq_true_2 _ Hin).
      cbn [negb with_files _files].
      destruct (remove_first_key file_id (_files ti) (file_id file) Hnd)
        as [_ Hrem].
      do 3 (split; [done|]). split.
      * intros other Hother. split; [done|].
        rewrite !(existsb_key_bool file_id _ (file_id other)). apply bool_decide_ext.
        rewrite Hrem. tauto.
      * rewrite ?(existsb_key_bool file_id _ (file_id file)). apply bool_decide_eq_false.
        rewrite Hrem. tauto.
    + rewrite !(bool_decide_eq_false_2 _ Hnin).
      cbn [negb with_files _files].
      assert (NoDup (file_id <$> _files ti ++ [file])) as Hnd'.
      { rewrite fmap_app. apply NoDup_app. split; [done|].
        split; [|apply NoDup_singleton].
        by intros x Hx ->%list_elem_of_singleton. }
      assert (file_id file ∈ file_id <$> _files ti ++ [file]) as Hin'.
      { rewrite fmap_app, elem_of_app. right. by apply list_elem_of_singleton. }
      rewrite ?(existsb_key_bool file_id _ (file_id file)).
      rewrite ?(bool_decide_eq_true_2 _ Hin').
      cbn [negb with_files _files].
      destruct (remove_first_key file_id (_files ti ++ [file])
                  (file_id file) Hnd') as [_ Hrem].
      do 3 (split; [done|]). split.
      * intros other Hother. rewrite !(existsb_key_bool file_id _ (file_id other)).
        split; apply bool_decide_ext; rewrite ?Hrem, fmap_app, elem_of_app;
          cbn [fmap list_fmap]; rewrite list_elem_of_singleton;
          naive_solver.
      * rewrite ?(existsb_key_bool file_id _ (file_id file)). apply bool_decide_eq_false.
        rewrite Hrem. tauto.
Qed.

End models.

(** * mcp_server_fixed.py hands out work without looking at the locks *)

Lemma fixed_next_available_no_foreign_lock d project_id agent_id :
  (∀ tf, tf ∈ todo_files d →
         locked_by_other (file_locks d) agent_id tf.2 = false) →
  Fixed.next_available d project_id = next_available d project_id agent_id.
Proof.
  intros Hfree. unfold Fixed.next_available, next_available.
  do 3 f_equal. apply filter_ext_in. intros r _.
  unfold Fixed.available, available.
  assert (has_foreign_lock d agent_id r.1 = false) as ->.
  { apply not_true_iff_false.
    intros (tf & Htf%list_elem_of_In & [_ Hl]%andb_true_iff)%existsb_exists.
    by rewrite (Hfree tf Htf) in Hl. }
  by rewrite andb_true_r.
Qed.

(** X23: get_next_todo_item of mcp_server_fixed.py has no clause on file
    locks.  Replacing the table of file locks by any other changes neither
    its answer nor what it writes, and leaves the table as given; when no
    file of a todo item is locked by an agent other than the caller, its
    answer and the store after it are those of get_next_todo_item of
    http_server.py. *)
Theorem fixed_get_next_todo_item_ignores_locks d project_name agent_id now m :
  Fixed.get_next_todo_item (with_file_locks d m) project_name agent_id now
  = ((Fixed.get_next_todo_item d project_name agent_id now).1,
     with_file_locks (Fixed.get_next_todo_item d project_name agent_id now).2 m) ∧
  file_locks (Fixed.get_next_todo_item d project_name agent_id now).2
  = file_locks d ∧
  ((∀ tf, tf ∈ todo_files d →
          locked_by_other (file_locks d) agent_id tf.2 = false) →
   Fixed.get_next_todo_item d project_name agent_id now
   = Http.get_next_todo_item d project_name agent_id now).
Proof.
  split; [|split].
  - unfold Fixed.get_next_todo_item.
    change (project_by_name (with_file_locks d m) project_name)
      with (project_by_name d project_name).
    destruct (project_by_name d project_name) as [p|]; [|done].
    change (Fixed.next_available (with_file_locks d m) (Project.id p))
      with (Fixed.next_available d (Project.id p)).
    by destruct (Fixed.next_available d (Project.id p)).
  - unfold Fixed.get_next_todo_item.
    destruct (project_by_name d project_name) as [p|]; [|done].
    by destruct (Fixed.next_available d (Project.id p)).
  - intros Hfree. unfold Fixed.get_next_todo_item, Http.get_next_todo_item.
    destruct (project_by_name d project_name) as [p|]; [|done].
    by rewrite (fixed_next_available_no_foreign_lock d (Project.id p) agent_id).
Qed.
